(** * BounceRL: the Noita environment stepping and synchronisation layer

    A shallow embedding of
      - bounce_rl/environments/noita/noita_env.py  (StepVal, the episode
        policies, NoitaEnv.step / reset),
      - rewards/noita_env.py                       (the older NoitaEnv),
      - src/time_writer.py                         (the time-control writer),
    followed by the properties of the specification that concern them.

    Conventions of the embedding
      - Python ints are [Z]; Python floats are exact rationals [Q] (no
        rounding), except in the time-control writer, where the value that
        is serialised is an IEEE-754 number ([spec_float]).
      - Mutable objects live in a store and are passed by reference.
      - External collaborators (harness, info source, reward function,
        clock) are effects recorded in a trace, their answers come from
        oracles held in the [World]. *)

From Stdlib Require Import ZArith QArith Qround Lqa String Ascii List.
From Stdlib Require Import Floats.SpecFloat DecimalString DecimalPos DecimalZ.
From stdpp Require Import gmap strings list.
Import ListNotations.

Local Open Scope string_scope.
Local Open Scope list_scope.
Local Open Scope Z_scope.

(** ** Python numeric helpers *)

(** [int(x)] on a number: truncation towards zero. *)
Definition py_int (x : Q) : Z := Z.quot (Qnum x) (Z.pos (Qden x)).

(** [x != 0] on a number. *)
Definition nonzero (x : Q) : bool := negb (Qeq_bool x 0).

(** ** Data model (noita_env.py, lines 29-43) *)

(** The info mapping reported by the info source; the controller reads the
    keys "tick", "is_alive" and "y". *)
Record Info := mkInfo {
  tick : Z;
  is_alive : bool;
  y : Q
}.

Definition Pixels := list Z.

Record StepVal := mkStepVal {
  pixels : option Pixels;
  reward : Q;
  terminated : bool;
  truncated : bool;
  info : Info;
  ep_step : Z;
  env_step : Z
}.

Inductive NoitaState := UNKNOWN | RUNNING | GAME_OVER.

(** Attribute assignments [step.terminated = v] and [step.reward = v]. *)
Definition set_terminated (v : bool) (s : StepVal) : StepVal :=
  mkStepVal (pixels s) (reward s) v (truncated s) (info s) (ep_step s) (env_step s).

Definition set_reward (v : Q) (s : StepVal) : StepVal :=
  mkStepVal (pixels s) v (terminated s) (truncated s) (info s) (ep_step s) (env_step s).

(** ** is_overworld and TerminateOnOverworld (lines 46-61) *)

Definition is_overworld (i : Info) : bool :=
  if py_int (y i) <? -80 then true else false.

(** What [TerminateOnOverworld.__call__] does to the fields of the object it
    is given. *)
Definition TerminateOnOverworld_update (s : StepVal) : StepVal :=
  if is_overworld (info s) then set_terminated true s else s.

(** [TerminateOnOverworld.reset]: [pass]. *)
Definition TerminateOnOverworld_reset (u : unit) : unit := u.

(** ** Effects

    Everything the controller does to the outside world is recorded, in
    order, as an event. *)

(** [keyboard.MouseButton]: the two members the input table uses. *)
Inductive MouseButton := LEFT | RIGHT.

#[global] Instance MouseButton_eq_dec : EqDecision MouseButton.
Proof. solve_decision. Defined.

#[global] Instance MouseButton_countable : Countable MouseButton.
Proof.
  refine (inj_countable' (fun b => match b with LEFT => false | RIGHT => true end)
                         (fun b : bool => if b then RIGHT else LEFT) _).
  intros []; reflexivity.
Defined.

Inductive Event :=
| EvPrint (msg : string)
| EvLogWarning (msg : string)
| EvSetSpeedup (speedup : Q) (channel : string)
| EvSleep (secs : Q)
| EvSetHeldKeys (keys : gset string)
| EvSetHeldMouseButtons (buttons : gset MouseButton)
| EvMoveMouse (x y : Q)
| EvKeySequence (keys : list string)
| EvSetUpMagicNumbers (seed : option Z)
| EvHarnessLaunch (instance : Z)
| EvHarnessTick
| EvHarnessCleanup
| EvGetScreen
| EvCurrentInfo
| EvOnTick
| EvRewardUpdate (i : Info)
| EvMkdir (path : string)
| EvSave (path : string).

(** Python's [str] on an int. *)
Definition str (z : Z) : string := NilZero.string_of_int (Z.to_int z).

(** ** LinearInterpolator and GrowingCircularFIFOArray
       (bounce_rl/utilities/util.py, not part of the sources at hand) *)

Record LinearInterpolator := mkLinearInterpolator {
  x_0 : Q;
  x_1 : Q;
  y_0 : Q;
  y_1 : Q;
  extrapolate : bool
}.

(** Modelled from the spec: [LinearInterpolator.get_value] is missing.  The
    window size is "linearly interpolated between two (step, size) anchor
    points and clamped at the upper bound (no extrapolation beyond the
    configured range)": with [extrapolate = False] the argument is clamped
    to [x_0, x_1] before interpolating. *)
Definition get_value (li : LinearInterpolator) (x : Q) : Q :=
  let xc := if extrapolate li then x
            else if Qle_bool x (x_0 li) then x_0 li
            else if Qle_bool (x_1 li) x then x_1 li
            else x in
  (y_0 li + (xc - x_0 li) / (x_1 li - x_0 li) * (y_1 li - y_0 li))%Q.

Record GrowingCircularFIFOArray := mkFIFO {
  fifo_max_size : Z;
  fifo_items : list Q          (* oldest first *)
}.

(** Keep the [n] most recent entries of a history. *)
Definition keep_last (n : nat) (l : list Q) : list Q := drop (length l - n) l.

(** Modelled from the spec: [GrowingCircularFIFOArray.push] is missing.  The
    policy "maintains a bounded time-windowed history of recent rewards;
    window size is a function of episode-step": [push(val, size)] appends
    [val] and keeps the [size] most recent entries, never more than
    [max_size]. *)
Definition push (val : Q) (size : Z) (a : GrowingCircularFIFOArray)
  : GrowingCircularFIFOArray :=
  mkFIFO (fifo_max_size a)
         (keep_last (Z.to_nat (Z.min size (fifo_max_size a))) (fifo_items a ++ [val])).

(** Modelled from the spec: [GrowingCircularFIFOArray.get_array] is missing;
    it yields the current window. *)
Definition get_array (a : GrowingCircularFIFOArray) : list Q := fifo_items a.

(** [np.sum(arr != 0)]. *)
Definition count_nonzero (arr : list Q) : nat := length (List.filter nonzero arr).

(** ** TerminateOnSparseReward (lines 64-103) *)

Record TerminateOnSparseReward := mkSparse {
  termination_penalty : Q;
  log : bool;
  max_size : Z;
  history_len : LinearInterpolator;
  reward_history : GrowingCircularFIFOArray
}.

(** [reset]: a fresh history holding one non-zero reward. *)
Definition TerminateOnSparseReward_reset (self : TerminateOnSparseReward)
  : TerminateOnSparseReward :=
  mkSparse (termination_penalty self) (log self) (max_size self) (history_len self)
           (push 1 1 (mkFIFO (max_size self) [])).

(** [__init__(history_len=None, max_size=None, log=False)]. *)
Definition TerminateOnSparseReward_init
  (history_len : option LinearInterpolator) (max_size : option Z) (log : bool)
  : TerminateOnSparseReward :=
  let max_size := match max_size with None => 5 * 60 * 4 | Some m => m end in
  let history_len :=
    match history_len with
    | None => mkLinearInterpolator 0 1000000 (1.5 * 60 * 4) (5 * 60 * 4) false
    | Some li => li
    end in
  TerminateOnSparseReward_reset
    (mkSparse 10 log max_size history_len (mkFIFO max_size [])).

(** The window check of [__call__], on the history after the push. *)
Definition window_is_silent (a : GrowingCircularFIFOArray) : bool :=
  Nat.eqb (count_nonzero (get_array a)) 0.

(** What [TerminateOnSparseReward.__call__] does to its own state and to the
    fields of the object it is given; the third component is what it
    prints. *)
Definition TerminateOnSparseReward_update
  (self : TerminateOnSparseReward) (s : StepVal)
  : TerminateOnSparseReward * StepVal * list Event :=
  let hist := push (reward s)
                   (py_int (get_value (history_len self) (inject_Z (ep_step s))))
                   (reward_history self) in
  let self' := mkSparse (termination_penalty self) (log self) (max_size self)
                        (history_len self) hist in
  if window_is_silent hist then
    let s1 := set_reward (reward s - termination_penalty self)%Q s in
    let s2 := set_terminated true s1 in
    (self', s2,
     if log self
     then [EvPrint ("Terminated episode due to sparse reward at step "
                    ++ str (ep_step s) ++ ".")]
     else [])
  else (self', s, []).

(** ** The object store

    A StepVal is a mutable dataclass and a policy is an object with
    attributes of its own: a call receives references to both. *)
Definition loc := positive.

Inductive Obj :=
| OStepVal (s : StepVal)
| OOverworld                                  (* a TerminateOnOverworld *)
| OSparse (p : TerminateOnSparseReward).

Abbreviation store := (gmap loc Obj).

(** [TerminateOnOverworld.__call__(self, step)]: assigns to the object
    behind [step] and returns [step] itself; the policy has no attribute.
    [None] stands for a reference that holds no StepVal, which the
    controller never passes. *)
Definition TerminateOnOverworld_call (step : loc) (h : store) : option (loc * store) :=
  match h !! step with
  | Some (OStepVal s) => Some (step, <[step := OStepVal (TerminateOnOverworld_update s)]> h)
  | _ => None
  end.

(** [TerminateOnSparseReward.__call__(self, step)]: pushes onto
    [self.reward_history], assigns to the object behind [step], prints, and
    returns [step] itself. *)
Definition TerminateOnSparseReward_call (self step : loc) (h : store)
  : option (list Event * loc * store) :=
  match h !! self, h !! step with
  | Some (OSparse p), Some (OStepVal s) =>
      let '(p', s', out) := TerminateOnSparseReward_update p s in
      Some (out, step, <[step := OStepVal s']> (<[self := OSparse p']> h))
  | _, _ => None
  end.

(** ** The policy chain: [step_wrappers] *)

Inductive StepWrapper :=
| WOverworld
| WSparseReward (p : TerminateOnSparseReward).

Definition wrapper_reset (w : StepWrapper) : StepWrapper :=
  match w with
  | WOverworld => WOverworld
  | WSparseReward p => WSparseReward (TerminateOnSparseReward_reset p)
  end.

Definition wrapper_update (w : StepWrapper) (s : StepVal)
  : StepWrapper * StepVal * list Event :=
  match w with
  | WOverworld => (WOverworld, TerminateOnOverworld_update s, [])
  | WSparseReward p =>
      let '(p', s', out) := TerminateOnSparseReward_update p s in
      (WSparseReward p', s', out)
  end.

(** [for wrapper in self.step_wrappers: step_val = wrapper(step_val)] *)
Fixpoint apply_wrappers (ws : list StepWrapper) (s : StepVal)
  : list StepWrapper * StepVal * list Event :=
  match ws with
  | [] => ([], s, [])
  | w :: ws' =>
      let '(w', s', out) := wrapper_update w s in
      let '(ws'', s'', out') := apply_wrappers ws' s' in
      (w' :: ws'', s'', out ++ out')
  end.

(** The same loop on the store: [self.step_wrappers] is a list of
    references to policy objects, and each call is handed the reference the
    previous one returned. *)
Definition wrapper_call (wrapper step : loc) (h : store)
  : option (list Event * loc * store) :=
  match h !! wrapper with
  | Some OOverworld =>
      match TerminateOnOverworld_call step h with
      | Some (r, h') => Some ([], r, h')
      | None => None
      end
  | Some (OSparse _) => TerminateOnSparseReward_call wrapper step h
  | _ => None
  end.

Fixpoint chain_call (wrappers : list loc) (step : loc) (h : store)
  : option (list Event * loc * store) :=
  match wrappers with
  | [] => Some ([], step, h)
  | wrapper :: wrappers' =>
      match wrapper_call wrapper step h with
      | Some (out, step', h') =>
          match chain_call wrappers' step' h' with
          | Some (out', step'', h'') => Some (out ++ out', step'', h'')
          | None => None
          end
      | None => None
      end
  end.

(** ** Run configuration ([_default_run_config], lines 162-178) *)

Record RunConfig := mkRunConfig {
  app : string;
  x_res : Q;
  y_res : Q;
  scale : Q;
  run_rate : Q;
  pause_rate : Q;
  step_duration : Q;
  pixels_every_n_episodes : Z;
  scale_mouse_coords : Q;
  use_x_proxy : bool
}.

Definition _default_run_config : RunConfig :=
  mkRunConfig "Noita" 640 360 1 4 0.02 0.166 1 3 true.

(** ** Input table ([_input_space], lines 198-216) *)

Inductive Input :=
| Key (k : string)
| Button (b : MouseButton).

(** An entry of the table; [None] is Python's [None]. *)
Definition _input_space : list (list (option Input)) :=
  [ [None; Some (Key "W"); Some (Key "S")];
    [None; Some (Key "A"); Some (Key "D")];
    [None; Some (Key "F")];
    [None; Some (Key "E")];
    [None; Some (Key "1"); Some (Key "3"); Some (Key "4")];
    [None; Some (Key "5"); Some (Key "6"); Some (Key "7"); Some (Key "8")];
    [None; Some (Button LEFT); Some (Button RIGHT)] ].

(** ** Exceptions and outcomes *)

Inductive Exn :=
| RuntimeError (msg : string)
| IndexError
| TypeError
| ValueError
| ZeroDivisionError
| AttributeError
| NameError.

Inductive Outcome (A : Type) :=
| Ret (a : A)
| Raise (e : Exn)
| OutOfFuel.
Arguments Ret {A} a.
Arguments Raise {A} e.
Arguments OutOfFuel {A}.

(** ** Action decoding (step, lines 364-391) *)

(** An action as Python sees it: a number or a sequence. *)
#[warnings="-register-all"]
Inductive PyVal :=
| PyNum (q : Q)
| PySeq (l : list PyVal).

(** [s[i]] on a tuple: negative indices count from the end. *)
Definition py_index {A : Type} (l : list A) (i : Z) : option A :=
  let n := Z.of_nat (length l) in
  if (0 <=? i) && (i <? n) then l !! Z.to_nat i
  else if (- n <=? i) && (i <? 0) then l !! Z.to_nat (n + i)
  else None.

(** [if len(action) == 9: action = action[0:7], action[7:9]]
    [discrete_action, continuous_action = action] *)
Definition split_action (action : PyVal) : Outcome (PyVal * PyVal) :=
  match action with
  | PyNum _ => Raise TypeError
  | PySeq l =>
      let l' := if Nat.eqb (length l) 9 then [PySeq (take 7 l); PySeq (drop 7 l)] else l in
      match l' with
      | [d; c] => Ret (d, c)
      | _ => Raise ValueError
      end
  end.

(** The elements of an iterable of numbers. *)
Fixpoint numbers (l : list PyVal) : option (list Q) :=
  match l with
  | [] => Some []
  | PyNum q :: l' => option_map (cons q) (numbers l')
  | PySeq _ :: _ => None
  end.

(** [discrete_action = [int(x) for x in discrete_action]] *)
Definition int_list (d : PyVal) : Outcome (list Z) :=
  match d with
  | PyNum _ => Raise TypeError
  | PySeq l =>
      match numbers l with
      | Some qs => Ret (List.map py_int qs)
      | None => Raise TypeError
      end
  end.

(** The loop over [zip(discrete_action, self.input_space)]. *)
Fixpoint held_inputs (discrete_action : list Z) (input_space : list (list (option Input)))
  (held_keys : gset string) (held_mouse_buttons : gset MouseButton)
  : Outcome (gset string * gset MouseButton) :=
  match discrete_action, input_space with
  | i :: ds, s :: ss =>
      match py_index s i with
      | None => Raise IndexError
      | Some None => held_inputs ds ss held_keys held_mouse_buttons
      | Some (Some (Key k)) => held_inputs ds ss (held_keys ∪ {[k]}) held_mouse_buttons
      | Some (Some (Button b)) => held_inputs ds ss held_keys (held_mouse_buttons ∪ {[b]})
      end
  | _, _ => Ret (held_keys, held_mouse_buttons)
  end.

(** Lines 383-391: scale, move from [-1, 1] to [0, 1], multiply by the
    resolution. *)
Definition mouse_pos (cfg : RunConfig) (continuous_action : list Q) : Outcome (Q * Q) :=
  let scaled := List.map (fun c => c * scale_mouse_coords cfg)%Q continuous_action in
  let unit := List.map (fun c => (c + 1) / 2)%Q scaled in
  match unit !! 0%nat, unit !! 1%nat with
  | Some c0, Some c1 => Ret ((c0 * x_res cfg)%Q, (c1 * y_res cfg)%Q)
  | _, _ => Raise IndexError
  end.

(** [continuous_action] as a list of numbers. *)
Definition number_list (c : PyVal) : Outcome (list Q) :=
  match c with
  | PyNum _ => Raise TypeError
  | PySeq l =>
      match numbers l with
      | Some qs => Ret qs
      | None => Raise TypeError
      end
  end.

(** ** The world outside the controller *)

(** A launched process handle.  Whether it reports [ready] is a function of
    how often it has been ticked. *)
Record Harness := mkHarness {
  ready_after : nat -> bool;
  harness_ticks : nat
}.

Definition ready (h : Harness) : bool := ready_after h (harness_ticks h).

Record World := mkWorld {
  now : Q;                          (* seconds spent in time.sleep so far *)
  trace : list Event;               (* effects so far, oldest first *)
  launched : nat;                   (* harnesses constructed so far *)
  harness_src : nat -> nat -> bool; (* behaviour of the n-th harness *)
  polled : nat;                     (* on_tick() calls so far *)
  info_src : nat -> Info;           (* what the n-th on_tick() reports *)
  info_cur : Info;                  (* the snapshot current_info() reports *)
  screens : nat;
  screen_src : nat -> Pixels;
  rewarded : nat;
  reward_src : nat -> Info -> Q;    (* the external reward function *)
  cost : nat -> positive            (* microseconds the n-th effect takes *)
}.

(** ** The session object *)

Record NoitaEnv := mkNoitaEnv {
  self_seed : option Z;
  self_out_dir : option string;
  self_run_config : RunConfig;
  self_x_pos : Z;
  self_y_pos : Z;
  self_instance : Z;
  self_step_wrappers : list StepWrapper;
  self_ep_step : Z;
  self_ep_num : Z;
  self_env_step : Z;
  self_step_dir : string;
  self_harness : option Harness;    (* [None]: the attribute does not exist *)
  self_state : option NoitaState
}.

(** ** A state-and-exception monad over (session, world) *)

Definition Sigma : Type := NoitaEnv * World.

Definition M (A : Type) : Type := Sigma -> Outcome A * Sigma.

#[global] Instance M_ret : MRet M := fun A a st => (Ret a, st).

#[global] Instance M_bind : MBind M := fun A B f m st =>
  match m st with
  | (Ret a, st') => f a st'
  | (Raise e, st') => (Raise e, st')
  | (OutOfFuel, st') => (OutOfFuel, st')
  end.

Definition pure {A : Type} (a : A) : M A := mret a.
Definition raise {A : Type} (e : Exn) : M A := fun st => (Raise e, st).
Definition out_of_fuel {A : Type} : M A := fun st => (OutOfFuel, st).
Definition get_self : M NoitaEnv := fun st => (Ret (fst st), st).
Definition get_world : M World := fun st => (Ret (snd st), st).
Definition modify_self (f : NoitaEnv -> NoitaEnv) : M unit :=
  fun st => (Ret tt, (f (fst st), snd st)).
Definition modify_world (f : World -> World) : M unit :=
  fun st => (Ret tt, (fst st, f (snd st))).
Definition lift {A : Type} (o : Outcome A) : M A := fun st => (o, st).

(** World updates. *)
Definition w_emit (e : Event) (w : World) : World :=
  mkWorld (now w) (trace w ++ [e]) (launched w) (harness_src w) (polled w)
          (info_src w) (info_cur w) (screens w) (screen_src w) (rewarded w)
          (reward_src w) (cost w).

Definition w_advance (d : Q) (w : World) : World :=
  mkWorld (now w + d)%Q (trace w) (launched w) (harness_src w) (polled w)
          (info_src w) (info_cur w) (screens w) (screen_src w) (rewarded w)
          (reward_src w) (cost w).

Definition w_launch (w : World) : World :=
  mkWorld (now w) (trace w) (S (launched w)) (harness_src w) (polled w)
          (info_src w) (info_cur w) (screens w) (screen_src w) (rewarded w)
          (reward_src w) (cost w).

Definition w_poll (w : World) : World :=
  mkWorld (now w) (trace w) (launched w) (harness_src w) (S (polled w))
          (info_src w) (info_src w (polled w)) (screens w) (screen_src w)
          (rewarded w) (reward_src w) (cost w).

Definition w_screen (w : World) : World :=
  mkWorld (now w) (trace w) (launched w) (harness_src w) (polled w)
          (info_src w) (info_cur w) (S (screens w)) (screen_src w) (rewarded w)
          (reward_src w) (cost w).

Definition w_reward (w : World) : World :=
  mkWorld (now w) (trace w) (launched w) (harness_src w) (polled w)
          (info_src w) (info_cur w) (screens w) (screen_src w) (S (rewarded w))
          (reward_src w) (cost w).

(** Session attribute assignments. *)
Definition set_seed (v : option Z) (e : NoitaEnv) : NoitaEnv :=
  mkNoitaEnv v (self_out_dir e) (self_run_config e) (self_x_pos e) (self_y_pos e)
    (self_instance e) (self_step_wrappers e) (self_ep_step e) (self_ep_num e)
    (self_env_step e) (self_step_dir e) (self_harness e) (self_state e).

Definition set_step_wrappers (v : list StepWrapper) (e : NoitaEnv) : NoitaEnv :=
  mkNoitaEnv (self_seed e) (self_out_dir e) (self_run_config e) (self_x_pos e)
    (self_y_pos e) (self_instance e) v (self_ep_step e) (self_ep_num e)
    (self_env_step e) (self_step_dir e) (self_harness e) (self_state e).

Definition set_ep_step (v : Z) (e : NoitaEnv) : NoitaEnv :=
  mkNoitaEnv (self_seed e) (self_out_dir e) (self_run_config e) (self_x_pos e)
    (self_y_pos e) (self_instance e) (self_step_wrappers e) v (self_ep_num e)
    (self_env_step e) (self_step_dir e) (self_harness e) (self_state e).

Definition set_ep_num (v : Z) (e : NoitaEnv) : NoitaEnv :=
  mkNoitaEnv (self_seed e) (self_out_dir e) (self_run_config e) (self_x_pos e)
    (self_y_pos e) (self_instance e) (self_step_wrappers e) (self_ep_step e) v
    (self_env_step e) (self_step_dir e) (self_harness e) (self_state e).

Definition set_env_step (v : Z) (e : NoitaEnv) : NoitaEnv :=
  mkNoitaEnv (self_seed e) (self_out_dir e) (self_run_config e) (self_x_pos e)
    (self_y_pos e) (self_instance e) (self_step_wrappers e) (self_ep_step e)
    (self_ep_num e) v (self_step_dir e) (self_harness e) (self_state e).

Definition set_step_dir (v : string) (e : NoitaEnv) : NoitaEnv :=
  mkNoitaEnv (self_seed e) (self_out_dir e) (self_run_config e) (self_x_pos e)
    (self_y_pos e) (self_instance e) (self_step_wrappers e) (self_ep_step e)
    (self_ep_num e) (self_env_step e) v (self_harness e) (self_state e).

Definition set_harness (v : option Harness) (e : NoitaEnv) : NoitaEnv :=
  mkNoitaEnv (self_seed e) (self_out_dir e) (self_run_config e) (self_x_pos e)
    (self_y_pos e) (self_instance e) (self_step_wrappers e) (self_ep_step e)
    (self_ep_num e) (self_env_step e) (self_step_dir e) v (self_state e).

Definition set_state (v : option NoitaState) (e : NoitaEnv) : NoitaEnv :=
  mkNoitaEnv (self_seed e) (self_out_dir e) (self_run_config e) (self_x_pos e)
    (self_y_pos e) (self_instance e) (self_step_wrappers e) (self_ep_step e)
    (self_ep_num e) (self_env_step e) (self_step_dir e) (self_harness e) v.

(** ** Primitive effects *)

Definition emit (e : Event) : M unit := modify_world (w_emit e).

Definition print (msg : string) : M unit := emit (EvPrint msg).

(** [time.sleep(secs)]: [secs] more seconds have been slept; a negative
    argument is a ValueError.  The call is an effect like any other, so the
    wall clock moves by more than [secs]. *)
Definition sleep (secs : Q) : M unit :=
  if Qle_bool 0 secs
  then emit (EvSleep secs);; modify_world (w_advance secs)
  else raise ValueError.

(** The wall clock.  Time passes while the controller sleeps and while it
    does anything to the outside world: the [n]-th effect takes [cost w n]
    microseconds, a positive whole number, on top of what was slept. *)
Fixpoint cost_upto (c : nat -> positive) (n : nat) : Z :=
  match n with
  | O => 0
  | S n' => cost_upto c n' + Z.pos (c n')
  end.

Definition spent (w : World) : Q :=
  cost_upto (cost w) (length (trace w)) # 1000000.

Definition wall (w : World) : Q := (now w + spent w)%Q.

(** [datetime.datetime.now()], in seconds. *)
Definition datetime_now : M Q := w ← get_world; pure (wall w).

(** [time_writer.SetSpeedup(speedup, channel)] as the controller sees it; the
    writer itself is [TimeWriter.SetSpeedup] below. *)
Definition SetSpeedup (speedup : Q) (channel : string) : M unit :=
  emit (EvSetSpeedup speedup channel).

(** [self.harness]: an AttributeError when the attribute does not exist. *)
Definition get_harness : M Harness :=
  self ← get_self;
  match self_harness self with
  | Some h => pure h
  | None => raise AttributeError
  end.

Definition harness_tick : M unit :=
  h ← get_harness;
  emit EvHarnessTick;;
  modify_self (set_harness (Some (mkHarness (ready_after h) (S (harness_ticks h))))).

Definition harness_cleanup : M unit := _ ← get_harness; emit EvHarnessCleanup.

Definition get_screen : M Pixels :=
  _ ← get_harness;
  emit EvGetScreen;;
  w ← get_world;
  modify_world w_screen;;
  pure (screen_src w (screens w)).

Definition set_held_keys (keys : gset string) : M unit :=
  _ ← get_harness; emit (EvSetHeldKeys keys).

Definition set_held_mouse_buttons (buttons : gset MouseButton) : M unit :=
  _ ← get_harness; emit (EvSetHeldMouseButtons buttons).

Definition move_mouse (x y : Q) : M unit :=
  _ ← get_harness; emit (EvMoveMouse x y).

Definition key_sequence (keys : list string) : M unit :=
  _ ← get_harness; emit (EvKeySequence keys).

(** [Harness(...)]: the next process handle the world provides. *)
Definition launch_harness : M unit :=
  self ← get_self;
  w ← get_world;
  emit (EvHarnessLaunch (self_instance self));;
  modify_world w_launch;;
  modify_self (set_harness (Some (mkHarness (harness_src w (launched w)) 0))).

(** Modelled from the spec: the info source is missing.  "[on_tick() ->
    {tick, is_alive, y, ...}]; [current_info() -> same snapshot, no
    advance]". *)
Definition current_info : M Info :=
  emit EvCurrentInfo;; w ← get_world; pure (info_cur w).

Definition on_tick : M Info :=
  emit EvOnTick;;
  w ← get_world;
  modify_world w_poll;;
  pure (info_src w (polled w)).

Definition reward_update (i : Info) : M Q :=
  emit (EvRewardUpdate i);;
  w ← get_world;
  modify_world w_reward;;
  pure (reward_src w (rewarded w) i).

(** ** Reset (lines 263-349) *)

(** The [while not self.harness.ready] loop of [_wait_for_harness_init];
    [init_watch_dog] is the time at which the wait began. *)
Fixpoint wait_loop (fuel : nat) (init_watch_dog : Q) : M bool :=
  match fuel with
  | O => out_of_fuel
  | S fuel' =>
      h ← get_harness;
      if ready h then pure true
      else
        harness_tick;;
        sleep 1;;
        t ← datetime_now;
        if negb (Qle_bool (t - init_watch_dog) 45)
        then print "Harness init timed out.";; pure false
        else wait_loop fuel' init_watch_dog
  end.

(** Every round sleeps one second and takes more than that on the wall
    clock, so the watchdog fires in round 45 at the latest. *)
Definition watchdog_rounds : nat := 45.

Definition _wait_for_harness_init : M bool :=
  init_watch_dog ← datetime_now;
  wait_loop watchdog_rounds init_watch_dog.

Definition _run_init_sequence : M unit :=
  sleep 2.5;;
  move_mouse 10 10;;
  key_sequence ["Return"; "Down"; "Return"; "Return"];;
  sleep 8.

Definition _env_init (skip_startup : bool) : M unit :=
  (if negb skip_startup then _run_init_sequence else pure tt);;
  modify_self (set_state (Some RUNNING)).

(** An f-string field holding an optional string. *)
Definition fmt_opt (o : option string) : string :=
  match o with Some s => s | None => "None" end.

Definition _try_reset_env (skip_startup : bool) : M bool :=
  modify_self (set_ep_step 0);;
  modify_self (fun e => set_ep_num (self_ep_num e + 1) e);;
  modify_self (fun e =>
    set_step_dir (fmt_opt (self_out_dir e) ++ "/steps/ep_" ++ str (self_ep_num e)) e);;
  self ← get_self;
  emit (EvMkdir (self_step_dir self));;
  modify_self (fun e => set_step_wrappers (List.map wrapper_reset (self_step_wrappers e)) e);;
  (match self_harness self with
   | Some _ =>
       set_held_keys ∅;;
       sleep 0.1;;
       harness_cleanup;;
       sleep 1
   | None => pure tt
   end);;
  emit (EvSetUpMagicNumbers (self_seed self));;
  launch_harness;;
  modify_self (set_state (Some UNKNOWN));;
  harness_init ← _wait_for_harness_init;
  if negb harness_init then
    harness_cleanup;;
    modify_self (set_harness None);;
    pure false
  else
    _env_init skip_startup;;
    pure true.

(** The [for i in range(3)] loop of [_reset_env]. *)
Fixpoint reset_attempts (n : nat) (skip_startup : bool) : M unit :=
  match n with
  | O => raise (RuntimeError "Failed to reset NoitaEnv.")
  | S n' =>
      did_reset ← _try_reset_env skip_startup;
      if (did_reset : bool) then pure tt
      else print "WARNING: Failed to reset NoitaEnv. Retrying...";;
           reset_attempts n' skip_startup
  end.

Definition _reset_env (skip_startup : bool) : M unit :=
  self ← get_self;
  SetSpeedup 1 (str (self_instance self));;
  reset_attempts 3 skip_startup.

(** [reset(seed=None, options=None)] *)
Definition reset (seed : option Z) : M Pixels :=
  modify_self (set_seed seed);;
  _reset_env false;;
  pixels ← get_screen;
  _ ← on_tick;
  pure pixels.

(** ** Step (lines 356-451) *)

(** Float division: dividing by zero is a ZeroDivisionError. *)
Definition py_div (a b : Q) : M Q :=
  if Qeq_bool b 0 then raise ZeroDivisionError else pure (a / b)%Q.

Definition log_warning (msg : string) : M unit := emit (EvLogWarning msg).

(** How the [for i in range(retries)] loop is left. *)
Inductive LoopExit :=
| Broke (info : Info)               (* [break]: the tick counter moved *)
| ReturnedNone                      (* [return None] *)
| Exhausted (last : option Info).   (* the range ran out *)

Fixpoint step_loop (range : list Z) (retries : Z) (init_info : Info)
  (last : option Info) : M LoopExit :=
  match range with
  | [] => pure (Exhausted last)
  | i :: range' =>
      self ← get_self;
      let cfg := self_run_config self in
      SetSpeedup (run_rate cfg) (str (self_instance self));;
      d ← py_div (step_duration cfg) (run_rate cfg);
      sleep d;;
      SetSpeedup (pause_rate cfg) (str (self_instance self));;
      info ← on_tick;
      if negb (tick info =? tick init_info) then pure (Broke info)
      else if i =? retries - 1 then
        log_warning ("NoitaEnv: Failed to step the environment on instance: "
                     ++ str (self_instance self) ++ ".");;
        pure ReturnedNone
      else step_loop range' retries init_info (Some info)
  end.

(** [range(n)] *)
Definition py_range (n : nat) : list Z := List.map Z.of_nat (seq 0 n).

Definition retries : nat := 20.

Fixpoint emit_all (es : list Event) : M unit :=
  match es with
  | [] => pure tt
  | e :: es' => emit e;; emit_all es'
  end.

(** [_current_step_dir] and [_log_step] (lines 467-501). *)
Definition _current_step_dir : M string :=
  self ← get_self;
  let chunk := self_env_step self / 10000 in
  let chunk_dir := (fmt_opt (self_out_dir self) ++ "/step_chunk_" ++ str chunk)%string in
  emit (EvMkdir chunk_dir);;
  pure chunk_dir.

Definition _log_step (step_val : StepVal) : M unit :=
  step_dir ← _current_step_dir;
  self ← get_self;
  let stem := (step_dir ++ "/" ++ str (self_env_step self))%string in
  emit (EvSave (stem ++ "_reward.pkl"));;
  emit (EvSave (stem ++ "_action.npy"));;
  emit (EvSave (stem ++ "_info.pkl"));;
  emit (EvSave (stem ++ "_step.pkl"));;
  let n := pixels_every_n_episodes (self_run_config self) in
  if (0 <? n) && (self_ep_num self mod n =? 0)
  then emit (EvSave (stem ++ "_pixels.jpg"))
  else pure tt.

(** What [step] hands back: [(pixels, reward, done, info)]. *)
Definition StepReturn : Type := option Pixels * Q * bool * Info.

Definition finish_step (info_ : Info) : M (option StepReturn) :=
  pixels_ ← get_screen;
  reward_ ← reward_update info_;
  self ← get_self;
  let terminated_ := negb (is_alive info_) in
  let truncated_ := false in
  let step_val := mkStepVal (Some pixels_) reward_ terminated_ truncated_ info_
                            (self_ep_step self) (self_env_step self) in
  let '(ws, step_val, out) := apply_wrappers (self_step_wrappers self) step_val in
  modify_self (set_step_wrappers ws);;
  emit_all out;;
  emit (EvSave (self_step_dir self ++ "/step_" ++ str (self_ep_step self) ++ ".npy"));;
  emit (EvSave (self_step_dir self ++ "/action_" ++ str (self_ep_step self) ++ ".pkl"));;
  _log_step step_val;;
  pure (Some (pixels step_val, reward step_val,
              terminated step_val || truncated step_val, info step_val)).

(** Lines 364-392: decode the action and drive the input channel. *)
Definition apply_inputs (action : PyVal) : M unit :=
  '(discrete_action, continuous_action) ← lift (split_action action);
  discrete_action ← lift (int_list discrete_action);
  '(held_keys, held_mouse_buttons) ← lift (held_inputs discrete_action _input_space ∅ ∅);
  set_held_keys held_keys;;
  set_held_mouse_buttons held_mouse_buttons;;
  continuous_action ← lift (number_list continuous_action);
  self ← get_self;
  '(mx, my) ← lift (mouse_pos (self_run_config self) continuous_action);
  move_mouse mx my.

Definition step (action : PyVal) : M (option StepReturn) :=
  modify_self (fun e => set_ep_step (self_ep_step e + 1) e);;
  modify_self (fun e => set_env_step (self_env_step e + 1) e);;
  apply_inputs action;;
  harness_tick;;
  init_info ← current_info;
  exit ← step_loop (py_range retries) (Z.of_nat retries) init_info None;
  match exit with
  | ReturnedNone => pure None
  | Broke info_ => finish_step info_
  | Exhausted (Some info_) => finish_step info_
  | Exhausted None => raise NameError
  end.

(** ** The remaining methods *)

Definition run_info : M (Z * Z) :=
  self ← get_self; pure (self_ep_step self, self_env_step self).

Definition close : M unit := harness_cleanup;; modify_self (set_harness None).

Definition pause : M unit := key_sequence ["Escape"].

Definition resume : M unit := key_sequence ["Escape"].

(** [__init__]: [random_bits] is what [random.getrandbits(32)] would
    return. *)
Definition NoitaEnv_init (seed : option Z) (out_dir : option string)
  (step_wrappers : option (list StepWrapper)) (skip_startup : bool)
  (x_pos y_pos instance : Z) (run_config : option RunConfig) (random_bits : Z)
  (w : World) : Outcome unit * Sigma :=
  let no_seed := match seed with None => true | Some s => s =? 0 end in
  let seed' := if no_seed then random_bits else default 0 seed in
  let w := if no_seed
           then w_emit (EvPrint ("Noita env using random seed:  " ++ str seed')) w
           else w in
  let wrappers :=
    match step_wrappers with
    | None => [WOverworld; WSparseReward (TerminateOnSparseReward_init None None true)]
    | Some ws => ws
    end in
  let self := mkNoitaEnv (Some seed') out_dir (default _default_run_config run_config)
                         x_pos y_pos instance wrappers 0 0 0 "" None None in
  _reset_env skip_startup (self, w).

(** The operations a caller can perform on a session. *)
Inductive Op :=
| OpStep (action : PyVal)
| OpReset (seed : option Z)
| OpRunInfo
| OpClose
| OpPause
| OpResume.

(** The session and world after an operation, whether it returned or
    raised. *)
Definition run_op (op : Op) (st : Sigma) : Sigma :=
  match op with
  | OpStep a => snd (step a st)
  | OpReset s => snd (reset s st)
  | OpRunInfo => snd (run_info st)
  | OpClose => snd (close st)
  | OpPause => snd (pause st)
  | OpResume => snd (resume st)
  end.

Definition run_ops (ops : list Op) (st : Sigma) : Sigma :=
  fold_left (fun st op => run_op op st) ops st.

(** ** The older environment (rewards/noita_env.py) *)

Module Legacy.

(** [__init__], lines 70-79: the table, then [None] appended to every
    dimension. *)
Definition input_space : list (list (option Input)) :=
  List.map (fun x => x ++ [None])
    [ [Some (Key "W"); Some (Key "S")];
      [Some (Key "A"); Some (Key "D")];
      [Some (Key "F")];
      [Some (Key "E")];
      [Some (Key "1")];
      [Some (Key "5")];
      [Some (Button LEFT); Some (Button RIGHT)] ].

(** [step]: the same loop over [zip(discrete_action, self.input_space)]. *)
Definition held (discrete_action : list Z) : Outcome (gset string * gset MouseButton) :=
  held_inputs discrete_action input_space ∅ ∅.

(** [step]: the mouse position, without [scale_mouse_coords]. *)
Definition mouse_pos (x_res y_res : Q) (continuous_action : list Q) : Outcome (Q * Q) :=
  let unit := List.map (fun c => (c + 1) / 2)%Q continuous_action in
  match unit !! 0%nat, unit !! 1%nat with
  | Some c0, Some c1 => Ret ((c0 * x_res)%Q, (c1 * y_res)%Q)
  | _, _ => Raise IndexError
  end.

(** [_wait_for_harness_init], lines 113-118: no watchdog. *)
Fixpoint wait_loop (fuel : nat) : M unit :=
  match fuel with
  | O => out_of_fuel
  | S fuel' =>
      h ← get_harness;
      if ready h then print "Finished harness init!"
      else
        harness_tick;;
        sleep 0.5;;
        print "Waiting for harness";;
        wait_loop fuel'
  end.

(** One round of that loop, seen from the world. *)
Definition wait_round (w : World) : World :=
  w_emit (EvPrint "Waiting for harness")
    (w_advance 0.5 (w_emit (EvSleep 0.5) (w_emit EvHarnessTick w))).

End Legacy.

(** ** The time-control writer (src/time_writer.py) *)

Module TimeWriter.

(** Files: path to contents. *)
Abbreviation files := (gmap string (list Byte.byte)).

(** The value of a float as a rational (zero for infinities and NaN). *)
Definition SF2Q (x : spec_float) : Q :=
  match x with
  | S754_finite s m e =>
      let v := if 0 <=? e then inject_Z (Z.pos m * 2 ^ e)
               else (Z.pos m # Pos.shiftl 1 (Z.to_N (- e))) in
      if s then Qopp v else v
  | _ => 0%Q
  end.

(** The C conversion [(float) x]: round to binary32, to nearest even. *)
Definition to_binary32 (x : spec_float) : spec_float :=
  match x with
  | S754_finite s m e => binary_round 24 128 s m e
  | _ => x
  end.

(** The bit pattern of a binary32 number: sign, biased exponent, fraction. *)
Definition bits_of_binary32 (x : spec_float) : Z :=
  let sign (s : bool) := if s then 2 ^ 31 else 0 in
  match x with
  | S754_zero s => sign s
  | S754_infinity s => sign s + 255 * 2 ^ 23
  | S754_nan => 255 * 2 ^ 23 + 2 ^ 22
  | S754_finite s m e =>
      if Z.pos m <? 2 ^ 23 then sign s + Z.pos m
      else sign s + (e + 150) * 2 ^ 23 + (Z.pos m - 2 ^ 23)
  end.

Definition byte_of_Z (z : Z) : Byte.byte :=
  default Byte.x00 (Byte.of_N (Z.to_N (z mod 256))).

(** Four bytes, least significant first (the native order of the machines
    the harness runs on). *)
Definition le_bytes4 (bits : Z) : list Byte.byte :=
  [ byte_of_Z bits; byte_of_Z (Z.shiftr bits 8);
    byte_of_Z (Z.shiftr bits 16); byte_of_Z (Z.shiftr bits 24) ].

(** [struct.pack("f", speedup)], native mode: the C conversion and the
    four bytes of its result.  A value too large for binary32 becomes an
    infinity; nothing is raised. *)
Definition pack_f (speedup : spec_float) : Outcome (list Byte.byte) :=
  Ret (le_bytes4 (bits_of_binary32 (to_binary32 speedup))).

(** [with open(path, "wb") as f: f.write(struct.pack("f", speedup))]:
    opening truncates the file, the write fills it. *)
Definition write_speedup (path : string) (speedup : spec_float) (fs : files)
  : Outcome unit * files :=
  let fs := <[path := []]> fs in
  match pack_f speedup with
  | Ret bs => (Ret tt, <[path := bs]> fs)
  | Raise e => (Raise e, fs)
  | OutOfFuel => (OutOfFuel, fs)
  end.

(** src/time_writer.py, lines 5-7: one artifact for every caller. *)
Definition SetSpeedup1 (speedup : spec_float) (fs : files) : Outcome unit * files :=
  write_speedup "/tmp/time_control" speedup fs.

(** Modelled from the spec: the two-argument
    [time_writer.SetSpeedup(speedup, channel)] that noita_env.py calls is
    missing.  It "serializes the multiplier as a fixed-width binary float
    and atomically overwrites a per-instance addressable artifact": the
    write of src/time_writer.py, to a path that carries the channel. *)
Definition channel_path (channel : string) : string := "/tmp/time_control" ++ channel.

Definition SetSpeedup (speedup : spec_float) (channel : string) (fs : files)
  : Outcome unit * files :=
  write_speedup (channel_path channel) speedup fs.

(** [set_speed(multiplier, instance)] as the controller issues it:
    [SetSpeedup(multiplier, str(instance))]. *)
Definition set_speed (multiplier : spec_float) (instance : Z) (fs : files)
  : Outcome unit * files :=
  SetSpeedup multiplier (str instance) fs.

(** Reading an instance's artifact back. *)
Definition read_artifact (instance : Z) (fs : files) : option (list Byte.byte) :=
  fs !! channel_path (str instance).

End TimeWriter.

(** ** Vocabulary for the statements below *)

(** A policy fed with a stream of snapshots, one per step: its state before
    step [n] (counting from 0), and what it makes of the snapshot of
    step [n]. *)
Fixpoint policy_before (p : TerminateOnSparseReward) (ss : nat -> StepVal) (n : nat)
  : TerminateOnSparseReward :=
  match n with
  | O => p
  | S n' => fst (fst (TerminateOnSparseReward_update (policy_before p ss n') (ss n')))
  end.

Definition policy_out (p : TerminateOnSparseReward) (ss : nat -> StepVal) (n : nat)
  : StepVal :=
  snd (fst (TerminateOnSparseReward_update (policy_before p ss n) (ss n))).

(** The window size the policy asks for at a snapshot. *)
Definition window_size (p : TerminateOnSparseReward) (s : StepVal) : nat :=
  Z.to_nat (Z.min (py_int (get_value (history_len p) (inject_Z (ep_step s))))
                  (max_size p)).

(** The seeded entry is still inside the window after each of the first [n]
    steps. *)
Definition seed_survives (p : TerminateOnSparseReward) (ss : nat -> StepVal) (n : nat)
  : bool :=
  forallb (fun k => k + 2 <=? window_size p (ss k))%nat (seq 0 n).

(** A reward that counts as zero. *)
Definition silent (r : Q) : Prop := nonzero r = false.

(** What a firing policy leaves of a snapshot. *)
Definition penalised (p : TerminateOnSparseReward) (s : StepVal) : StepVal :=
  set_terminated true (set_reward (reward s - termination_penalty p)%Q s).

(** The snapshot of episode step [k + 1] when nothing happens: no reward,
    player alive. *)
Definition quiet (k : nat) : StepVal :=
  mkStepVal None 0 false false (mkInfo (Z.of_nat k) true 0)
            (Z.of_nat k + 1) (Z.of_nat k + 1).

(** A snapshot of a player above the surface: y = -81, still alive. *)
Definition falling : StepVal :=
  mkStepVal None 0 false false (mkInfo 7 true (-81)) 3 3.

(** "Terminated exactly once" within the first [n] steps. *)
Definition terminates_exactly_once (p : TerminateOnSparseReward) (ss : nat -> StepVal)
  (n : nat) : Prop :=
  exists k, (k < n)%nat /\ terminated (policy_out p ss k) = true /\
    forall j, (j < n)%nat -> terminated (policy_out p ss j) = true -> j = k.

(** "The policy returns a new snapshot and leaves its input alone", for a
    call on the store. *)
Definition call_is_pure (step : loc) (h : store) (result : option (loc * store)) : Prop :=
  match result with
  | Some (r, h') => r <> step /\ h' !! step = h !! step
  | None => False
  end.

(** The object of a policy, and a store that holds the policies [ws]
    behind the references [wrappers], in order. *)
Definition obj_of_wrapper (w : StepWrapper) : Obj :=
  match w with
  | WOverworld => OOverworld
  | WSparseReward p => OSparse p
  end.

Definition holds (h : store) (wrappers : list loc) (ws : list StepWrapper) : Prop :=
  Forall2 (fun l w => h !! l = Some (obj_of_wrapper w)) wrappers ws.

(** A snapshot half a unit below the threshold: y = -80.5, still alive. *)
Definition grazing : StepVal :=
  mkStepVal None 0 false false (mkInfo 7 true (-80.5)) 3 3.

(** One round of the polling loop of [step], seen from the world. *)
Definition poll_round (cfg : RunConfig) (channel : string) (w : World) : World :=
  w_poll (w_emit EvOnTick
    (w_emit (EvSetSpeedup (pause_rate cfg) channel)
      (w_advance (step_duration cfg / run_rate cfg)
        (w_emit (EvSleep (step_duration cfg / run_rate cfg))
          (w_emit (EvSetSpeedup (run_rate cfg) channel) w))))).

Definition poll_round_events (cfg : RunConfig) (channel : string) : list Event :=
  [ EvSetSpeedup (run_rate cfg) channel;
    EvSleep (step_duration cfg / run_rate cfg);
    EvSetSpeedup (pause_rate cfg) channel;
    EvOnTick ].

(** A world after [n] rounds of a loop. *)
Fixpoint after_rounds (round : World -> World) (n : nat) (w : World) : World :=
  match n with
  | O => w
  | S n' => after_rounds round n' (round w)
  end.

(** No tick advance in the next [n] polls. *)
Definition stalled (w : World) (init_info : Info) (n : nat) : Prop :=
  forall j, (j < n)%nat -> tick (info_src w (polled w + j)%nat) = tick init_info.

Definition stall_warning (self : NoitaEnv) : Event :=
  EvLogWarning ("NoitaEnv: Failed to step the environment on instance: "
                ++ str (self_instance self) ++ ".").

(** One round of the watchdog loop of [_wait_for_harness_init]. *)
Definition wait_round (w : World) : World :=
  w_advance 1 (w_emit (EvSleep 1) (w_emit EvHarnessTick w)).

Definition wait_round_events : list Event := [EvHarnessTick; EvSleep 1].

Definition ticked (n : nat) (h : Harness) : Harness :=
  mkHarness (ready_after h) (harness_ticks h + n).

(** The harness does not become ready within [n] ticks from now. *)
Definition never_ready (h : Harness) (n : nat) : Prop :=
  forall j, (j < n)%nat -> ready_after h (harness_ticks h + j)%nat = false.

(** Releasing the keys and tearing down the harness of the previous
    episode, when there is one. *)
Definition teardown_events (self : NoitaEnv) : list Event :=
  match self_harness self with
  | Some _ => [EvSetHeldKeys ∅; EvSleep 0.1; EvHarnessCleanup; EvSleep 1]
  | None => []
  end.

Definition teardown_world (self : NoitaEnv) (w : World) : World :=
  match self_harness self with
  | Some _ =>
      w_advance 1 (w_emit (EvSleep 1) (w_emit EvHarnessCleanup
        (w_advance 0.1 (w_emit (EvSleep 0.1) (w_emit (EvSetHeldKeys ∅) w)))))
  | None => w
  end.

(** The directory of the episode a reset attempt opens. *)
Definition attempt_dir (self : NoitaEnv) : string :=
  fmt_opt (self_out_dir self) ++ "/steps/ep_" ++ str (self_ep_num self + 1).

(** Session and world of a reset attempt at the moment the wait for the
    new harness begins. *)
Definition attempt_self (self : NoitaEnv) (w : World) : NoitaEnv :=
  set_state (Some UNKNOWN)
    (set_harness (Some (mkHarness (harness_src w (launched w)) 0))
      (set_step_wrappers (List.map wrapper_reset (self_step_wrappers self))
        (set_step_dir (attempt_dir self)
          (set_ep_num (self_ep_num self + 1) (set_ep_step 0 self))))).

Definition attempt_world (self : NoitaEnv) (w : World) : World :=
  w_launch
    (w_emit (EvHarnessLaunch (self_instance self))
      (w_emit (EvSetUpMagicNumbers (self_seed self))
        (teardown_world self (w_emit (EvMkdir (attempt_dir self)) w)))).

(** The events of a reset attempt up to that moment. *)
Definition attempt_events (self : NoitaEnv) : list Event :=
  [EvMkdir (attempt_dir self)] ++ teardown_events self
  ++ [EvSetUpMagicNumbers (self_seed self); EvHarnessLaunch (self_instance self)].

Definition timeout_message : Event := EvPrint "Harness init timed out.".

Definition retry_message : Event :=
  EvPrint "WARNING: Failed to reset NoitaEnv. Retrying...".

(** Session and world after a reset attempt on which the watchdog fired in
    round [k]. *)
Definition gave_up (k : nat) (st : Sigma) : Sigma :=
  (set_harness None (attempt_self (fst st) (snd st)),
   w_emit EvHarnessCleanup
     (w_emit timeout_message
       (after_rounds wait_round k (attempt_world (fst st) (snd st))))).

(** The wall-clock time, in seconds, that the next [n] effects take on top
    of what is slept. *)
Definition overhead (w : World) (n : nat) : Q :=
  (cost_upto (cost w) (length (trace w) + n) - cost_upto (cost w) (length (trace w)))
  # 1000000.

(** No 88 successive effects (the ticks and sleeps of 44 rounds) take more
    than a second between them. *)
Definition prompt (w : World) : Prop :=
  forall a, cost_upto (cost w) (a + 88) - cost_upto (cost w) a <= 1000000.

(** Session and world after a reset attempt on which the watchdog fired in
    its last round. *)
Definition timed_out (st : Sigma) : Sigma :=
  (set_harness None (attempt_self (fst st) (snd st)),
   w_emit EvHarnessCleanup
     (w_emit timeout_message
       (after_rounds wait_round watchdog_rounds (attempt_world (fst st) (snd st))))).

(** ... followed by the retry warning of [_reset_env]. *)
Definition retried (st : Sigma) : Sigma :=
  (fst (timed_out st), w_emit retry_message (snd (timed_out st))).

Fixpoint retried_times (n : nat) (st : Sigma) : Sigma :=
  match n with
  | O => st
  | S n' => retried_times n' (retried st)
  end.

(** The world after the start-up macro of [_env_init]. *)
Definition init_world (skip_startup : bool) (w : World) : World :=
  if skip_startup then w
  else w_advance 8 (w_emit (EvSleep 8)
         (w_emit (EvKeySequence ["Return"; "Down"; "Return"; "Return"])
           (w_emit (EvMoveMouse 10 10)
             (w_advance 2.5 (w_emit (EvSleep 2.5) w))))).

(** The [k]-th harness the world hands out from now on does not get ready
    within the watchdog's rounds. *)
Definition launch_fails (w : World) (k : nat) : Prop :=
  forall j, (j < watchdog_rounds)%nat -> harness_src w (launched w + k)%nat j = false.

(** A policy of the chain that takes nothing or something away from the
    reward when it fires. *)
Definition nonneg_penalty (w : StepWrapper) : Prop :=
  match w with
  | WOverworld => True
  | WSparseReward p => (0 <= termination_penalty p)%Q
  end.

(** Every index that meets a dimension of the table is a valid index of
    it, counting from the front or from the back. *)
Definition in_range (discrete_action : list Z) (input_space : list (list (option Input)))
  : Prop :=
  forall j i s, discrete_action !! j = Some i -> input_space !! j = Some s ->
                - Z.of_nat (length s) <= i < Z.of_nat (length s).

(** The input that dimension [j] of the table contributes. *)
Definition picked (discrete_action : list Z) (input_space : list (list (option Input)))
  (j : nat) : option Input :=
  match discrete_action !! j, input_space !! j with
  | Some i, Some s => match py_index s i with Some x => x | None => None end
  | _, _ => None
  end.

(** The inputs a table offers, each with the position of its dimension. *)
Definition offered (input_space : list (list (option Input))) : list (nat * Input) :=
  concat (imap (fun j s => omap (option_map (pair j)) s) input_space).

(** [n] copies of a block of events. *)
Fixpoint times (n : nat) (block : list Event) : list Event :=
  match n with
  | O => []
  | S n' => block ++ times n' block
  end.

(** A property of (session, world) that no step of a computation breaks,
    whether the computation returns or raises. *)
Definition stable (J : Sigma -> Prop) {A : Type} (m : M A) : Prop :=
  forall st, J st -> J (snd (m st)).

(** A property of the session together with a property of the world. *)
Definition kept (IS : NoitaEnv -> Prop) (IW : World -> Prop) : Sigma -> Prop :=
  fun st => IS (fst st) /\ IW (snd st).

(** Properties that survive every world update and every attribute
    assignment other than those to the two step counters. *)
Class Closed (IS : NoitaEnv -> Prop) (IW : World -> Prop) : Prop := {
  closed_emit : forall e w, IW w -> IW (w_emit e w);
  closed_advance : forall d w, IW w -> IW (w_advance d w);
  closed_launch : forall w, IW w -> IW (w_launch w);
  closed_poll : forall w, IW w -> IW (w_poll w);
  closed_screen : forall w, IW w -> IW (w_screen w);
  closed_reward : forall w, IW w -> IW (w_reward w);
  closed_seed : forall v e, IS e -> IS (set_seed v e);
  closed_step_wrappers : forall v e, IS e -> IS (set_step_wrappers v e);
  closed_ep_num : forall v e, IS e -> IS (set_ep_num v e);
  closed_step_dir : forall v e, IS e -> IS (set_step_dir v e);
  closed_harness : forall v e, IS e -> IS (set_harness v e);
  closed_state : forall v e, IS e -> IS (set_state v e)
}.

(** The env-step counter has not dropped below [n] and the trace still
    starts with [l]. *)
Definition grown (n : Z) (l : list Event) : Sigma -> Prop :=
  kept (fun e => n <= self_env_step e) (fun w => l `prefix_of` trace w).

(** The episode-step counter is 0. *)
Definition fresh_episode : Sigma -> Prop :=
  kept (fun e => self_ep_step e = 0) (fun _ => True).

(** A world in which every harness is ready at once and the tick counter
    advances at every poll; one in which no harness ever gets ready; one in
    which the tick counter is stuck.  In each, every effect takes one
    microsecond. *)
Definition lively : World :=
  mkWorld 0 [] 0 (fun _ _ => true) 0 (fun k => mkInfo (Z.of_nat k + 1) true 0)
          (mkInfo 0 true 0) 0 (fun _ => []) 0 (fun _ _ => 0%Q) (fun _ => 1%positive).

Definition unresponsive : World :=
  mkWorld 0 [] 0 (fun _ _ => false) 0 (fun k => mkInfo (Z.of_nat k + 1) true 0)
          (mkInfo 0 true 0) 0 (fun _ => []) 0 (fun _ _ => 0%Q) (fun _ => 1%positive).

Definition stuck : World :=
  mkWorld 0 [] 0 (fun _ _ => true) 0 (fun _ => mkInfo 0 true 0)
          (mkInfo 0 true 0) 0 (fun _ => []) 0 (fun _ _ => 0%Q) (fun _ => 1%positive).

(** A session object as [__init__] leaves it before its first reset, and
    one that owns a ready harness. *)
Definition blank : NoitaEnv :=
  mkNoitaEnv (Some 1) None _default_run_config 0 0 0
    [WOverworld; WSparseReward (TerminateOnSparseReward_init None None true)]
    0 0 0 "" None None.

Definition running : NoitaEnv :=
  mkNoitaEnv (Some 1) None _default_run_config 0 0 0
    [WOverworld; WSparseReward (TerminateOnSparseReward_init None None true)]
    0 1 0 "None/steps/ep_1" (Some (mkHarness (fun _ => true) 0)) (Some RUNNING).

(** The device coordinate a continuous value [c] is sent to, for a
    resolution [res]. *)
Definition device_coordinate (cfg : RunConfig) (c res : Q) : Q :=
  ((c * scale_mouse_coords cfg + 1) / 2 * res)%Q.

(** The three input events of a step. *)
Definition input_events (keys : gset string) (buttons : gset MouseButton) (mx my : Q)
  : list Event :=
  [EvSetHeldKeys keys; EvSetHeldMouseButtons buttons; EvMoveMouse mx my].

(** The world when the polling loop of [step] begins: inputs applied, the
    harness ticked once, the current info read. *)
Definition before_polling (keys : gset string) (buttons : gset MouseButton) (mx my : Q)
  (w : World) : World :=
  w_emit EvCurrentInfo
    (w_emit EvHarnessTick
      (w_emit (EvMoveMouse mx my)
        (w_emit (EvSetHeldMouseButtons buttons)
          (w_emit (EvSetHeldKeys keys) w)))).

(** The session when the polling loop of [step] begins. *)
Definition stepping (h : Harness) (self : NoitaEnv) : NoitaEnv :=
  set_harness (Some (ticked 1 h))
    (set_env_step (self_env_step self + 1) (set_ep_step (self_ep_step self + 1) self)).

(** The session once [step] has counted the step. *)
Definition counted (self : NoitaEnv) : NoitaEnv :=
  set_env_step (self_env_step self + 1) (set_ep_step (self_ep_step self + 1) self).

(** The number of [step] calls among some operations, and the episode-step
    counter they lead to from [c]: every [step] counts, every [reset]
    starts again from 0. *)
Definition steps_taken (ops : list Op) : nat :=
  length (List.filter (fun op => match op with OpStep _ => true | _ => false end) ops).

Fixpoint ep_steps (ops : list Op) (c : Z) : Z :=
  match ops with
  | [] => c
  | OpStep _ :: ops' => ep_steps ops' (c + 1)
  | OpReset _ :: ops' => ep_steps ops' 0
  | _ :: ops' => ep_steps ops' c
  end.

(** What [step] makes of the discrete part of an action, and of the
    continuous part. *)
Definition discrete_part (action : PyVal) : Outcome (gset string * gset MouseButton) :=
  match split_action action with
  | Ret (d, _) =>
      match int_list d with
      | Ret ds => held_inputs ds _input_space ∅ ∅
      | Raise e => Raise e
      | OutOfFuel => OutOfFuel
      end
  | Raise e => Raise e
  | OutOfFuel => OutOfFuel
  end.

Definition continuous_part (cfg : RunConfig) (action : PyVal) : Outcome (Q * Q) :=
  match split_action action with
  | Ret (_, c) =>
      match number_list c with
      | Ret cs => mouse_pos cfg cs
      | Raise e => Raise e
      | OutOfFuel => OutOfFuel
      end
  | Raise e => Raise e
  | OutOfFuel => OutOfFuel
  end.

(** Python's [list[0:7]] and [list[7:9]] on a flat action. *)
Definition as_pair (flat : list PyVal) : PyVal := PySeq [PySeq (take 7 flat); PySeq (drop 7 flat)].

(** ** The Art of Rally reward (rewards/art_of_rally.py) *)

Module ArtOfRally.

(** [speed.isnumeric()] on a string of ASCII characters: not empty, and
    every character a decimal digit. *)
Definition isnumeric (speed : string) : bool :=
  match speed with
  | EmptyString => false
  | _ => match NilEmpty.uint_of_string speed with Some _ => true | None => false end
  end.

(** [int(speed)] on such a string. *)
Definition int_of_digits (speed : string) : Z :=
  match NilEmpty.uint_of_string speed with
  | Some d => Z.of_uint d
  | None => 0
  end.

(** [_compute_reward], lines 12-29.  [is_reverse] and [is_penalized] are
    the two scores of a binary classifier. *)
Definition _compute_reward (speed : option string) (is_reverse is_penalized : Q * Q)
  (penalty_value : Z) : option (Z * Z) :=
  let is_reverse := negb (Qle_bool (snd is_reverse) (fst is_reverse)) in
  let is_penalized := negb (Qle_bool (snd is_penalized) (fst is_penalized)) in
  match speed with
  | None => None
  | Some speed =>
      if negb (isnumeric speed) then None
      else
        let speed := int_of_digits speed in
        let speed_mul := if is_reverse then 1 * -1 else 1 in
        let penalty := if is_penalized then penalty_value else 0 in
        Some (speed * speed_mul - penalty, speed * speed_mul)
  end.

(** [on_tick], lines 107-117 and 126: what is returned for the three
    predictions, [(shaped_reward, estimated_speed, true_reward)]. *)
Definition on_tick_rewards (predicted_detect_speed : string)
  (predicted_is_reverse predicted_is_penalized : Q * Q) : Z * Z * Z :=
  let outs := _compute_reward (Some predicted_detect_speed) predicted_is_reverse
                              predicted_is_penalized 25 in
  let '(true_reward, estimated_speed) :=
    match outs with Some o => o | None => (-1, 0) end in
  let shaped_out := _compute_reward (Some predicted_detect_speed) predicted_is_reverse
                                    predicted_is_penalized 60 in
  let shaped_reward := match shaped_out with Some (r, _) => r | None => -1 end in
  (shaped_reward, estimated_speed, true_reward).

(** A classifier says yes when its second score is the greater one
    ([x[1] > x[0]], lines 13-14). *)
Definition says_yes (scores : Q * Q) : bool :=
  negb (Qle_bool (snd scores) (fst scores)).

End ArtOfRally.

(** ** Application configurations (configs/app_configs.py) *)

Module AppConfigs.

(** An entry of [app_configs]: the two keys [LoadAppConfig] reads. *)
Record AppConf := mkAppConf {
  conf_title : string;
  directory : option string      (* [None]: the key is absent *)
}.

(** The table of lines 14-82, in order. *)
Definition app_configs : list AppConf :=
  [ mkAppConf "Skyrogue" (Some "~/.local/share/Steam/steamapps/common/Sky Rogue");
    mkAppConf "Minecraft" (Some "./");
    mkAppConf "Firefox" (Some "./");
    mkAppConf "Art of Rally" (Some "~/.local/share/Steam/steamapps/common/artofrally");
    mkAppConf "Art of Rally Demo" (Some "~/");
    mkAppConf "Art of Rally (Multi)" (Some "~/Games/art_of_rally$i/game");
    mkAppConf "Factorio" (Some "~/Downloads/factorio/bin/x64");
    mkAppConf "Noita" (Some "~/") ].

(** The loop of lines 86-88: the position of the last entry whose title
    matches, scanning from position [i]. *)
Fixpoint last_match (config_title : string) (configs : list AppConf) (i : nat)
  (app_conf : option nat) : option nat :=
  match configs with
  | [] => app_conf
  | c :: rest =>
      last_match config_title rest (S i)
        (if String.eqb (conf_title c) config_title then Some i else app_conf)
  end.

(** [c['directory'] = os.path.expanduser(c['directory'])], when the key is
    there. *)
Definition expand_directory (expanduser : string -> string) (c : AppConf) : AppConf :=
  match directory c with
  | Some dir => mkAppConf (conf_title c) (Some (expanduser dir))
  | None => c
  end.

(** [LoadAppConfig], lines 84-91.  The table is a mutable global: the
    function hands back a reference into it (a position) and may change an
    entry.  After the loop [c] is the last entry of the table; over an empty
    table it was never bound. *)
Definition LoadAppConfig (expanduser : string -> string) (table : list AppConf)
  (config_title : string) : Outcome (option nat) * list AppConf :=
  let app_conf := last_match config_title table 0 None in
  match List.last (List.map Some table) None with
  | None => (Raise NameError, table)
  | Some c =>
      (Ret app_conf,
       <[(length table - 1)%nat := expand_directory expanduser c]> table)
  end.

(** No entry at a position after [j] has the title. *)
Definition last_titled (config_title : string) (table : list AppConf) (j : nat) : Prop :=
  (exists c, table !! j = Some c /\ conf_title c = config_title) /\
  forall k c, (j < k)%nat -> table !! k = Some c -> conf_title c <> config_title.

Definition untitled (config_title : string) (table : list AppConf) : Prop :=
  Forall (fun c => conf_title c <> config_title) table.

End AppConfigs.

(** ** [NoitaEnv.pre_init] (noita_env.py, lines 236-261) *)

Module PreInit.

Inductive MpxEvent :=
| SetSpeedup (speedup : Z) (channel : string)
| OpenDisplay (name : string)
| MakeCursor (name : string)
| DeleteCursor (name : string)
| CloseDisplay.

(** The class attribute [singleton_init], what has been done to the
    display and the time-control artifacts, and the handlers registered
    with [atexit] (each given by what it does when run). *)
Record Process := mkProcess {
  singleton_init : bool;
  done : list MpxEvent;
  atexit : list (list MpxEvent)
}.

Section WithCursorNames.

(** [lib_mpx_input.cursor_name], which is not part of the sources. *)
Variable cursor_name : Z -> string.

(** [cleanup_cursors], for the [num_envs] it closes over. *)
Definition cleanup_cursors (num_envs : nat) : list MpxEvent :=
  List.map (fun i => DeleteCursor (cursor_name i)) (py_range num_envs) ++ [CloseDisplay].

(** [pre_init(num_envs)]; [range] of a negative number is empty. *)
Definition pre_init (num_envs : Z) (p : Process) : Outcome unit * Process :=
  if singleton_init p
  then (Raise (RuntimeError "NoitaEnv.pre_init has already been called."), p)
  else
    let n := Z.to_nat num_envs in
    (Ret tt,
     mkProcess true
       (done p
        ++ List.map (fun i => SetSpeedup 1 (str i)) (py_range n)
        ++ [OpenDisplay ":0"]
        ++ List.map (fun i => MakeCursor (cursor_name i)) (py_range n))
       (cleanup_cursors n :: atexit p)).

(** Process exit: the registered handlers run, last registered first. *)
Definition exit (p : Process) : Process :=
  mkProcess (singleton_init p) (done p ++ concat (atexit p)) [].

End WithCursorNames.

Definition made (es : list MpxEvent) : list string :=
  omap (fun e => match e with MakeCursor n => Some n | _ => None end) es.

Definition deleted (es : list MpxEvent) : list string :=
  omap (fun e => match e with DeleteCursor n => Some n | _ => None end) es.

End PreInit.

(** * Properties *)

(** ** The episode policies *)

Lemma set_terminated_fields v s :
  pixels (set_terminated v s) = pixels s /\ reward (set_terminated v s) = reward s /\
  truncated (set_terminated v s) = truncated s /\ info (set_terminated v s) = info s /\
  ep_step (set_terminated v s) = ep_step s /\ env_step (set_terminated v s) = env_step s.
Proof. repeat split. Qed.

Lemma overworld_update_frame s :
  pixels (TerminateOnOverworld_update s) = pixels s /\
  reward (TerminateOnOverworld_update s) = reward s /\
  truncated (TerminateOnOverworld_update s) = truncated s /\
  info (TerminateOnOverworld_update s) = info s /\
  ep_step (TerminateOnOverworld_update s) = ep_step s /\
  env_step (TerminateOnOverworld_update s) = env_step s.
Proof.
  unfold TerminateOnOverworld_update.
  destruct (is_overworld (info s)); [apply set_terminated_fields | repeat split].
Qed.

Lemma overworld_update_terminated s :
  terminated (TerminateOnOverworld_update s)
  = (py_int (y (info s)) <? -80) || terminated s.
Proof.
  unfold TerminateOnOverworld_update, is_overworld.
  destruct (py_int (y (info s)) <? -80); reflexivity.
Qed.

(** [int] truncates towards zero, so [int(y) < -80] is [y <= -81]. *)
Lemma truncated_below_minus_80 (q : Q) : (py_int q <? -80) = true <-> (q <= -81)%Q.
Proof.
  unfold py_int. destruct q as [n d]. unfold Qle. cbn [Qnum Qden].
  pose proof (Z.quot_rem' n (Z.pos d)) as E.
  destruct (Z.ltb_spec (n ÷ Z.pos d) (-80)) as [Hlt|Hge]; split; intros H;
    try reflexivity; try discriminate.
  - destruct (Z.le_gt_cases 0 n) as [Hn|Hn].
    + pose proof (Z.quot_pos n (Z.pos d) Hn ltac:(lia)). lia.
    + pose proof (Z.rem_bound_pos_neg n (Z.pos d) ltac:(lia) ltac:(lia)). nia.
  - exfalso. destruct (Z.le_gt_cases 0 n) as [Hn|Hn]; [lia |].
    pose proof (Z.rem_bound_pos_neg n (Z.pos d) ltac:(lia) ltac:(lia)). nia.
Qed.

Lemma is_overworld_iff i : is_overworld i = true <-> (y i <= -81)%Q.
Proof.
  rewrite <- truncated_below_minus_80. unfold is_overworld.
  destruct (py_int (y i) <? -80); split; auto.
Qed.

(** C7 (as amended).  TerminateOnOverworld forces [terminated] exactly when
    the truncated coordinate [int(info["y"])] is below -80, that is when
    [y <= -81], and touches no other field: at y = -81 it sets
    [terminated]; at y = -79, and at y = -80.5, which is below -80, the
    snapshot is left as it was.  The policy carries no state: [reset] does
    nothing and a call leaves the policy as it was.  It is not pure: a call
    assigns to the object it is given and returns that same reference. *)
Theorem overworld_termination :
  (forall s, terminated (TerminateOnOverworld_update s)
             = (py_int (y (info s)) <? -80) || terminated s) /\
  (forall s, (py_int (y (info s)) <? -80) = true <-> (y (info s) <= -81)%Q) /\
  (forall s, pixels (TerminateOnOverworld_update s) = pixels s /\
             reward (TerminateOnOverworld_update s) = reward s /\
             truncated (TerminateOnOverworld_update s) = truncated s /\
             info (TerminateOnOverworld_update s) = info s /\
             ep_step (TerminateOnOverworld_update s) = ep_step s /\
             env_step (TerminateOnOverworld_update s) = env_step s) /\
  (forall px r t tr tk al es en,
     TerminateOnOverworld_update (mkStepVal px r t tr (mkInfo tk al (-81)) es en)
     = mkStepVal px r true tr (mkInfo tk al (-81)) es en) /\
  (forall px r t tr tk al es en,
     TerminateOnOverworld_update (mkStepVal px r t tr (mkInfo tk al (-79)) es en)
     = mkStepVal px r t tr (mkInfo tk al (-79)) es en) /\
  (forall px r t tr tk al es en,
     TerminateOnOverworld_update (mkStepVal px r t tr (mkInfo tk al (-80.5)) es en)
     = mkStepVal px r t tr (mkInfo tk al (-80.5)) es en) /\
  (forall s, wrapper_update WOverworld s = (WOverworld, TerminateOnOverworld_update s, [])) /\
  wrapper_reset WOverworld = WOverworld /\
  (forall u, TerminateOnOverworld_reset u = u) /\
  (forall (step : loc) (h : store) (s : StepVal),
     h !! step = Some (OStepVal s) ->
     TerminateOnOverworld_call step h
     = Some (step, <[step := OStepVal (TerminateOnOverworld_update s)]> h) /\
     (forall l, l <> step ->
        (<[step := OStepVal (TerminateOnOverworld_update s)]> h) !! l = h !! l)).
Proof.
  split; [exact overworld_update_terminated |].
  split; [intros s; apply truncated_below_minus_80 |].
  split; [exact overworld_update_frame |].
  do 6 (split; [reflexivity |]).
  intros step h s Hs. split.
  - unfold TerminateOnOverworld_call. rewrite Hs. reflexivity.
  - intros l Hl. rewrite lookup_insert_ne; [reflexivity |].
    intros E. apply Hl. by rewrite E.
Qed.

(** C7, counterexample.  A player at y = -80.5 is below the threshold of
    -80 and the policy leaves [terminated] at [False]; and a call on a
    snapshot at y = -81 changes the object it was given instead of
    returning a new one. *)
Lemma overworld_ignores_minus_80_5 :
  (y (info grazing) < -80)%Q /\
  TerminateOnOverworld_update grazing = grazing /\
  terminated (TerminateOnOverworld_update grazing) = false /\
  ~ call_is_pure 2%positive {[2%positive := OStepVal falling]}
      (TerminateOnOverworld_call 2%positive {[2%positive := OStepVal falling]}).
Proof.
  split; [reflexivity |]. split; [reflexivity |]. split; [reflexivity |].
  unfold call_is_pure. vm_compute. intros [H _]. apply H. reflexivity.
Qed.

(** *** TerminateOnSparseReward *)

Lemma window_is_silent_Forall a :
  window_is_silent a = true <-> Forall silent (fifo_items a).
Proof.
  unfold window_is_silent, count_nonzero, get_array.
  induction (fifo_items a) as [|r l IH]; simpl.
  - split; [constructor | reflexivity].
  - unfold silent at 1. destruct (nonzero r) eqn:Hr; simpl.
    + split; [discriminate | intros H; inversion H; congruence].
    + rewrite IH. split; [intros H; constructor; [exact Hr | exact H]
                         | intros H; inversion H; assumption].
Qed.

Lemma keep_last_all (n : nat) (l : list Q) : (length l <= n)%nat -> keep_last n l = l.
Proof. intros H. unfold keep_last. replace (length l - n)%nat with 0%nat by lia. reflexivity. Qed.

Lemma keep_last_Forall (P : Q -> Prop) (n : nat) (l : list Q) :
  Forall P l -> Forall P (keep_last n l).
Proof. intros H. unfold keep_last. by apply Forall_drop. Qed.

Lemma keep_last_drop_head (n : nat) (x : Q) (l : list Q) :
  (n <= length l)%nat -> keep_last n (x :: l) = keep_last n l.
Proof.
  intros H. unfold keep_last. simpl length.
  replace (S (length l) - n)%nat with (S (length l - n)) by lia. reflexivity.
Qed.

Section SparseStream.

Variable p : TerminateOnSparseReward.
Variable ss : nat -> StepVal.

Let p0 := TerminateOnSparseReward_reset p.

Lemma policy_before_config n :
  termination_penalty (policy_before p0 ss n) = termination_penalty p /\
  history_len (policy_before p0 ss n) = history_len p /\
  max_size (policy_before p0 ss n) = max_size p /\
  fifo_max_size (reward_history (policy_before p0 ss n)) = max_size p.
Proof.
  induction n as [|n IH]; [repeat split |].
  destruct IH as (H1 & H2 & H3 & H4). simpl.
  unfold TerminateOnSparseReward_update.
  destruct (window_is_silent _); simpl; auto.
Qed.

Lemma policy_before_items n :
  fifo_items (reward_history (policy_before p0 ss (S n)))
  = keep_last (window_size p (ss n))
      (fifo_items (reward_history (policy_before p0 ss n)) ++ [reward (ss n)]).
Proof.
  destruct (policy_before_config n) as (_ & H2 & _ & H4).
  simpl. unfold TerminateOnSparseReward_update, window_size.
  destruct (window_is_silent _); simpl; rewrite H2, H4; reflexivity.
Qed.

Lemma policy_out_eq n :
  policy_out p0 ss n
  = if window_is_silent (reward_history (policy_before p0 ss (S n)))
    then penalised p (ss n) else ss n.
Proof.
  destruct (policy_before_config n) as (H1 & _).
  unfold policy_out. simpl. unfold TerminateOnSparseReward_update, penalised.
  destruct (window_is_silent _) eqn:E; simpl; rewrite ?E, ?H1; reflexivity.
Qed.

Lemma seed_survives_S n :
  seed_survives p ss (S n) = seed_survives p ss n && (n + 2 <=? window_size p (ss n))%nat.
Proof.
  unfold seed_survives. rewrite seq_S, forallb_app. simpl.
  rewrite andb_true_r. reflexivity.
Qed.

Lemma seed_survives_le n m :
  (m <= n)%nat -> seed_survives p ss n = true -> seed_survives p ss m = true.
Proof.
  induction 1 as [|n Hle IH]; [auto |].
  rewrite seed_survives_S. intros [H _]%andb_true_iff. auto.
Qed.

Lemma initial_items :
  fifo_items (reward_history p0) = (if 1 <=? max_size p then [1%Q] else []).
Proof.
  unfold p0, TerminateOnSparseReward_reset, push. simpl.
  destruct (Z.leb_spec 1 (max_size p)).
  - replace (Z.min 1 (max_size p)) with 1 by lia. reflexivity.
  - replace (Z.to_nat (Z.min 1 (max_size p))) with 0%nat by lia. reflexivity.
Qed.

Hypothesis all_zero : forall k, silent (reward (ss k)).

Lemma seed_alive n :
  1 <= max_size p -> seed_survives p ss n = true ->
  exists zs, fifo_items (reward_history (policy_before p0 ss n)) = 1%Q :: zs
             /\ length zs = n /\ Forall silent zs.
Proof.
  intros Hmax. induction n as [|n IH]; intros Hs.
  - exists []. rewrite (initial_items : fifo_items (reward_history (policy_before p0 ss 0)) = _).
    destruct (Z.leb_spec 1 (max_size p)); [repeat constructor | lia].
  - rewrite seed_survives_S in Hs. apply andb_true_iff in Hs as [Hs Hw].
    apply Nat.leb_le in Hw.
    destruct (IH Hs) as (zs & Hz & Hlen & Hall).
    exists (zs ++ [reward (ss n)]). rewrite policy_before_items, Hz.
    rewrite keep_last_all by (simpl; rewrite length_app; simpl; lia).
    repeat split; [rewrite length_app; simpl; lia |].
    apply Forall_app; split; [exact Hall | repeat constructor; apply all_zero].
Qed.

Lemma survives_max_size n : (0 < n)%nat -> seed_survives p ss n = true -> 1 <= max_size p.
Proof.
  intros Hn Hs. apply (seed_survives_le n 1) in Hs; [| lia].
  rewrite (seed_survives_S 0) in Hs. apply andb_true_iff in Hs as [_ Hs].
  apply Nat.leb_le in Hs. unfold window_size in Hs. lia.
Qed.

Lemma seed_dropped T :
  seed_survives p ss T = true -> (window_size p (ss T) <= T + 1)%nat ->
  Forall silent (fifo_items (reward_history (policy_before p0 ss (S T)))).
Proof.
  intros Hs Hw. rewrite policy_before_items.
  destruct (Z.leb_spec 1 (max_size p)) as [Hmax|Hmax].
  - destruct (seed_alive T Hmax Hs) as (zs & Hz & Hlen & Hall).
    rewrite Hz. simpl. rewrite keep_last_drop_head by (rewrite length_app; simpl; lia).
    apply keep_last_Forall, Forall_app; split; [exact Hall | repeat constructor; apply all_zero].
  - destruct T as [|T]; [| pose proof (survives_max_size (S T) ltac:(lia) Hs); lia].
    rewrite (initial_items : fifo_items (reward_history (policy_before p0 ss 0)) = _).
    destruct (Z.leb_spec 1 (max_size p)); [lia |].
    apply keep_last_Forall. repeat constructor. apply all_zero.
Qed.

Lemma silence_persists n :
  Forall silent (fifo_items (reward_history (policy_before p0 ss n))) ->
  Forall silent (fifo_items (reward_history (policy_before p0 ss (S n)))).
Proof.
  intros H. rewrite policy_before_items.
  apply keep_last_Forall, Forall_app; split; [exact H | repeat constructor; apply all_zero].
Qed.

Lemma silent_from T n :
  seed_survives p ss T = true -> (window_size p (ss T) <= T + 1)%nat -> (T <= n)%nat ->
  Forall silent (fifo_items (reward_history (policy_before p0 ss (S n)))).
Proof.
  intros Hs Hw. induction 1 as [|n Hle IH]; [by apply seed_dropped |].
  by apply silence_persists.
Qed.

Lemma sparse_stream_outputs T k :
  seed_survives p ss T = true -> (window_size p (ss T) <= T + 1)%nat ->
  policy_out p0 ss k = if (k <? T)%nat then ss k else penalised p (ss k).
Proof.
  intros Hs Hw. rewrite policy_out_eq.
  destruct (Nat.ltb_spec k T) as [Hlt|Hge].
  - assert (Hk : seed_survives p ss (S k) = true) by (apply (seed_survives_le T); [lia | done]).
    destruct (seed_alive (S k) (survives_max_size (S k) ltac:(lia) Hk) Hk) as (zs & Hz & _).
    destruct (window_is_silent _) eqn:E; [| reflexivity].
    apply window_is_silent_Forall in E. rewrite Hz in E. inversion E as [|? ? H1 _]. discriminate H1.
  - assert (E : window_is_silent (reward_history (policy_before p0 ss (S k))) = true)
      by (apply window_is_silent_Forall, (silent_from T); auto).
    rewrite E. reflexivity.
Qed.

End SparseStream.

(** C2 (as amended).  On a stream of zero rewards fed to a freshly reset
    policy, let [T] be the first step at which the seeded entry no longer
    fits the window.  Before [T] every snapshot is returned as it was; from
    [T] on, at every step, the penalty is subtracted and [terminated] is
    set. *)
Theorem sparse_reward_termination
  (p : TerminateOnSparseReward) (ss : nat -> StepVal) (T : nat) :
  (forall k, nonzero (reward (ss k)) = false) ->
  seed_survives p ss T = true ->
  (window_size p (ss T) <= T + 1)%nat ->
  forall k, policy_out (TerminateOnSparseReward_reset p) ss k
            = if (k <? T)%nat then ss k else penalised p (ss k).
Proof. intros H0 Hs Hw k. by apply sparse_stream_outputs. Qed.

Lemma sparse_reward_termination_witness :
  seed_survives (TerminateOnSparseReward_init None None true) quiet 359 = true /\
  (window_size (TerminateOnSparseReward_init None None true) (quiet 359) <= 359 + 1)%nat /\
  policy_out (TerminateOnSparseReward_reset (TerminateOnSparseReward_init None None true))
             quiet 360
  = penalised (TerminateOnSparseReward_init None None true) (quiet 360).
Proof.
  split; [vm_compute; reflexivity |].
  split; [vm_compute; lia |].
  apply (sparse_reward_termination (TerminateOnSparseReward_init None None true) quiet 359).
  - intros k. reflexivity.
  - vm_compute; reflexivity.
  - vm_compute; lia.
Defined.

(** C2, counterexample.  With the default policy the window holds 360
    entries during the first steps; on 361 quiet steps the policy sets
    [terminated] at step 360 and again at step 361. *)
Lemma sparse_reward_terminates_twice :
  ~ terminates_exactly_once
      (TerminateOnSparseReward_reset (TerminateOnSparseReward_init None None true))
      quiet 361.
Proof.
  intros (k & _ & _ & Huniq).
  assert (H359 : terminated (policy_out
            (TerminateOnSparseReward_reset (TerminateOnSparseReward_init None None true))
            quiet 359) = true) by (vm_compute; reflexivity).
  assert (H360 : terminated (policy_out
            (TerminateOnSparseReward_reset (TerminateOnSparseReward_init None None true))
            quiet 360) = true) by (vm_compute; reflexivity).
  apply Huniq in H359; [| lia]. apply Huniq in H360; [| lia]. lia.
Qed.

(** *** Policies and the store *)

Lemma sparse_update_frame p s :
  let s' := snd (fst (TerminateOnSparseReward_update p s)) in
  pixels s' = pixels s /\ truncated s' = truncated s /\ info s' = info s /\
  ep_step s' = ep_step s /\ env_step s' = env_step s.
Proof.
  unfold TerminateOnSparseReward_update.
  destruct (window_is_silent _); simpl; repeat split.
Qed.

Lemma sparse_update_policy p s :
  let p' := fst (fst (TerminateOnSparseReward_update p s)) in
  reward_history p'
  = push (reward s) (py_int (get_value (history_len p) (inject_Z (ep_step s))))
         (reward_history p) /\
  termination_penalty p' = termination_penalty p /\ log p' = log p /\
  max_size p' = max_size p /\ history_len p' = history_len p.
Proof.
  unfold TerminateOnSparseReward_update.
  destruct (window_is_silent _); simpl; repeat split.
Qed.

Lemma holds_insert h locs ws l o :
  l ∉ locs -> holds h locs ws -> holds (<[l := o]> h) locs ws.
Proof.
  intros Hl Hh. unfold holds in *. induction Hh as [|l' w locs ws Hlw _ IH]; constructor.
  - rewrite lookup_insert_ne; [exact Hlw |]. intros ->. apply Hl. by left.
  - apply IH. intros Hin. apply Hl. by right.
Qed.

Lemma wrapper_call_run h wl step w s :
  h !! wl = Some (obj_of_wrapper w) -> h !! step = Some (OStepVal s) ->
  wrapper_call wl step h
  = Some (snd (wrapper_update w s), step,
          <[step := OStepVal (snd (fst (wrapper_update w s)))]>
            (<[wl := obj_of_wrapper (fst (fst (wrapper_update w s)))]> h)).
Proof.
  intros Hw Hs. unfold wrapper_call. rewrite Hw. destruct w as [|p]; cbn [obj_of_wrapper] in *.
  - cbn [wrapper_update fst snd]. unfold TerminateOnOverworld_call. rewrite Hs.
    rewrite (insert_id h wl OOverworld Hw). reflexivity.
  - unfold TerminateOnSparseReward_call. rewrite Hw, Hs. cbn [wrapper_update].
    destruct (TerminateOnSparseReward_update p s) as [[p' s'] out]. reflexivity.
Qed.

(** The loop over the policy objects computes, in place, what the chain of
    updates computes: the reference handed back is the one handed in, the
    object behind it holds the final snapshot, the policy objects hold the
    policies' new states, and nothing else in the store has changed. *)
Lemma chain_call_in_place locs : forall ws h step s,
  NoDup locs -> step ∉ locs -> holds h locs ws -> h !! step = Some (OStepVal s) ->
  exists h',
    chain_call locs step h = Some (snd (apply_wrappers ws s), step, h') /\
    h' !! step = Some (OStepVal (snd (fst (apply_wrappers ws s)))) /\
    holds h' locs (fst (fst (apply_wrappers ws s))) /\
    forall l, l <> step -> l ∉ locs -> h' !! l = h !! l.
Proof.
  induction locs as [|wl locs IH]; intros ws h step s Hnd Hstep Hh Hs.
  - inversion Hh; subst. exists h. simpl. repeat split; auto; constructor.
  - inversion Hh as [|? w ? ws' Hw Hrest]; subst.
    inversion Hnd as [|? ? Hwl Hnd']; subst.
    assert (Hne : wl <> step) by (intros ->; apply Hstep; by left).
    assert (Hstep' : step ∉ locs) by (intros Hin; apply Hstep; by right).
    simpl chain_call. rewrite (wrapper_call_run h wl step w s Hw Hs).
    simpl apply_wrappers.
    destruct (wrapper_update w s) as [[w1 s1] out1]. cbn [fst snd].
    set (h1 := <[step := OStepVal s1]> (<[wl := obj_of_wrapper w1]> h)).
    destruct (IH ws' h1 step s1 Hnd' Hstep') as (h' & E & Es & Eh & Eo).
    { subst h1. by apply holds_insert, holds_insert. }
    { subst h1. by rewrite lookup_insert_eq. }
    rewrite E. destruct (apply_wrappers ws' s1) as [[ws2 s2] out2]. cbn [fst snd] in *.
    exists h'. split; [reflexivity |]. split; [exact Es |]. split.
    + constructor; [| exact Eh].
      rewrite (Eo wl Hne Hwl). subst h1.
      rewrite lookup_insert_ne by (intros E'; apply Hne; by rewrite E').
      by rewrite lookup_insert_eq.
    + intros l Hl Hnot. rewrite (Eo l Hl); [| intros Hin; apply Hnot; by right].
      subst h1. rewrite lookup_insert_ne by (intros E'; apply Hl; by rewrite E').
      rewrite lookup_insert_ne; [reflexivity |]. intros ->. apply Hnot. by left.
Qed.

(** C6 (as amended).  A policy call works in place.  The reference it
    returns is the one it was given, and the StepVal behind that reference
    is overwritten with the policy's update, which changes no field other
    than [terminated] and, for TerminateOnSparseReward, [reward].
    TerminateOnSparseReward also changes itself: the object behind [self]
    has the reward pushed onto its [reward_history], its other attributes
    being kept.  No third object is touched.  Through the whole loop over
    distinct policy objects the caller's one StepVal ends up holding what
    the chain of updates gives, and each policy object its new state. *)
Theorem policies_update_in_place (step : loc) (h : store) (s : StepVal) :
  h !! step = Some (OStepVal s) ->
  (TerminateOnOverworld_call step h
   = Some (step, <[step := OStepVal (TerminateOnOverworld_update s)]> h) /\
   forall l, l <> step ->
     (<[step := OStepVal (TerminateOnOverworld_update s)]> h) !! l = h !! l) /\
  (forall (self : loc) (p : TerminateOnSparseReward),
     h !! self = Some (OSparse p) ->
     exists p' s' out h',
       TerminateOnSparseReward_update p s = (p', s', out) /\
       TerminateOnSparseReward_call self step h = Some (out, step, h') /\
       h' !! step = Some (OStepVal s') /\
       h' !! self = Some (OSparse p') /\
       reward_history p'
       = push (reward s) (py_int (get_value (history_len p) (inject_Z (ep_step s))))
              (reward_history p) /\
       termination_penalty p' = termination_penalty p /\ log p' = log p /\
       max_size p' = max_size p /\ history_len p' = history_len p /\
       forall l, l <> step -> l <> self -> h' !! l = h !! l) /\
  (forall (wrappers : list loc) (ws : list StepWrapper),
     NoDup wrappers -> step ∉ wrappers -> holds h wrappers ws ->
     exists h',
       chain_call wrappers step h = Some (snd (apply_wrappers ws s), step, h') /\
       h' !! step = Some (OStepVal (snd (fst (apply_wrappers ws s)))) /\
       holds h' wrappers (fst (fst (apply_wrappers ws s))) /\
       forall l, l <> step -> l ∉ wrappers -> h' !! l = h !! l) /\
  (pixels (TerminateOnOverworld_update s) = pixels s /\
   reward (TerminateOnOverworld_update s) = reward s /\
   truncated (TerminateOnOverworld_update s) = truncated s /\
   info (TerminateOnOverworld_update s) = info s /\
   ep_step (TerminateOnOverworld_update s) = ep_step s /\
   env_step (TerminateOnOverworld_update s) = env_step s) /\
  (forall p,
     pixels (snd (fst (TerminateOnSparseReward_update p s))) = pixels s /\
     truncated (snd (fst (TerminateOnSparseReward_update p s))) = truncated s /\
     info (snd (fst (TerminateOnSparseReward_update p s))) = info s /\
     ep_step (snd (fst (TerminateOnSparseReward_update p s))) = ep_step s /\
     env_step (snd (fst (TerminateOnSparseReward_update p s))) = env_step s).
Proof.
  intros Hs. split; [| split; [| split; [| split]]].
  - split.
    + unfold TerminateOnOverworld_call. rewrite Hs. reflexivity.
    + intros l Hl. by rewrite lookup_insert_ne.
  - intros self p Hp.
    assert (Hne : self <> step) by (intros ->; congruence).
    pose proof (sparse_update_policy p s) as Hpol.
    unfold TerminateOnSparseReward_call. rewrite Hp, Hs.
    destruct (TerminateOnSparseReward_update p s) as [[p' s'] out]. cbn [fst snd] in Hpol.
    exists p', s', out, (<[step := OStepVal s']> (<[self := OSparse p']> h)).
    split; [reflexivity |]. split; [reflexivity |].
    split; [by rewrite lookup_insert_eq |].
    split; [rewrite lookup_insert_ne by (intros E; apply Hne; by rewrite E);
            by rewrite lookup_insert_eq |].
    destruct Hpol as (H1 & H2 & H3 & H4 & H5).
    repeat (split; [assumption |]).
    intros l Hl1 Hl2.
    rewrite lookup_insert_ne by (intros E; apply Hl1; by rewrite E).
    rewrite lookup_insert_ne by (intros E; apply Hl2; by rewrite E). reflexivity.
  - intros wrappers ws Hnd Hstep Hh. by apply chain_call_in_place.
  - apply overworld_update_frame.
  - intros p. apply sparse_update_frame.
Qed.

Lemma policies_update_in_place_witness :
  ({[1%positive := OStepVal falling; 2%positive := OOverworld;
     3%positive := OSparse (TerminateOnSparseReward_init None None false)]}
   : store) !! 1%positive = Some (OStepVal falling) /\
  terminated falling = false /\
  terminated (snd (fst (apply_wrappers
                   [WOverworld; WSparseReward (TerminateOnSparseReward_init None None false)]
                   falling))) = true /\
  exists h',
    chain_call [2%positive; 3%positive] 1%positive
      {[1%positive := OStepVal falling; 2%positive := OOverworld;
        3%positive := OSparse (TerminateOnSparseReward_init None None false)]}
    = Some (snd (apply_wrappers
                   [WOverworld; WSparseReward (TerminateOnSparseReward_init None None false)]
                   falling), 1%positive, h') /\
    h' !! 1%positive
    = Some (OStepVal (snd (fst (apply_wrappers
                   [WOverworld; WSparseReward (TerminateOnSparseReward_init None None false)]
                   falling)))).
Proof.
  assert (Hs : ({[1%positive := OStepVal falling; 2%positive := OOverworld;
                  3%positive := OSparse (TerminateOnSparseReward_init None None false)]}
                : store) !! 1%positive = Some (OStepVal falling))
    by (vm_compute; reflexivity).
  split; [exact Hs |]. split; [reflexivity |]. split; [vm_compute; reflexivity |].
  destruct (proj1 (proj2 (proj2 (policies_update_in_place _ _ _ Hs)))
              [2%positive; 3%positive]
              [WOverworld; WSparseReward (TerminateOnSparseReward_init None None false)])
    as (h' & E & Es & _).
  - by apply (bool_decide_unpack _).
  - by apply (bool_decide_unpack _).
  - repeat constructor.
  - exists h'. split; assumption.
Defined.

(** C6, counterexample.  A snapshot with y = -81 and [terminated = False]
    sits at reference 1: the call returns reference 1 and the object behind
    it now has [terminated = True]. *)
Lemma overworld_call_mutates_input :
  ~ call_is_pure 1%positive {[1%positive := OStepVal falling]}
      (TerminateOnOverworld_call 1%positive {[1%positive := OStepVal falling]}) /\
  (exists h', TerminateOnOverworld_call 1%positive {[1%positive := OStepVal falling]}
              = Some (1%positive, h') /\
              h' !! 1%positive = Some (OStepVal (set_terminated true falling)) /\
              ({[1%positive := OStepVal falling]} : store) !! 1%positive
              = Some (OStepVal falling) /\
              terminated falling = false).
Proof.
  split.
  - unfold call_is_pure. vm_compute. intros [H _]. apply H. reflexivity.
  - eexists. split; [reflexivity |]. repeat split.
Qed.

(** ** Running the controller: invariants *)

Section Stable.

Variable J : Sigma -> Prop.

Lemma stable_bind {A B : Type} (m : M A) (f : A -> M B) :
  stable J m -> (forall a, stable J (f a)) -> stable J (m ≫= f).
Proof.
  intros Hm Hf st Hst. unfold mbind, M_bind.
  specialize (Hm st Hst). destruct (m st) as [[a|e|] st']; simpl in *; auto.
  by apply Hf.
Qed.

Lemma stable_pure {A : Type} (a : A) : stable J (pure a).
Proof. intros st H. exact H. Qed.

Lemma stable_raise {A : Type} (e : Exn) : stable J (raise e : M A).
Proof. intros st H. exact H. Qed.

Lemma stable_out_of_fuel {A : Type} : stable J (out_of_fuel : M A).
Proof. intros st H. exact H. Qed.

Lemma stable_lift {A : Type} (o : Outcome A) : stable J (lift o).
Proof. intros st H. exact H. Qed.

Lemma stable_get_self : stable J get_self.
Proof. intros st H. exact H. Qed.

Lemma stable_get_world : stable J get_world.
Proof. intros st H. exact H. Qed.

End Stable.

Section Kept.

Context (IS : NoitaEnv -> Prop) (IW : World -> Prop) `{!Closed IS IW}.

Lemma kept_modify_world (g : World -> World) :
  (forall w, IW w -> IW (g w)) -> stable (kept IS IW) (modify_world g).
Proof. intros Hg [self w] [H1 H2]. split; simpl in *; auto. Qed.

Lemma kept_modify_self (g : NoitaEnv -> NoitaEnv) :
  (forall e, IS e -> IS (g e)) -> stable (kept IS IW) (modify_self g).
Proof. intros Hg [self w] [H1 H2]. split; simpl in *; auto. Qed.

Lemma kept_emit (e : Event) : stable (kept IS IW) (emit e).
Proof. apply kept_modify_world. intros w. apply closed_emit. Qed.

End Kept.

Create HintDb stab.

#[local] Hint Resolve stable_pure stable_raise stable_out_of_fuel stable_lift
  stable_get_self stable_get_world kept_emit : stab.

Ltac closed :=
  first [ eapply closed_emit | eapply closed_advance | eapply closed_launch
        | eapply closed_poll | eapply closed_screen | eapply closed_reward
        | eapply closed_seed | eapply closed_step_wrappers | eapply closed_ep_num
        | eapply closed_step_dir | eapply closed_harness | eapply closed_state ];
  first [assumption | typeclasses eauto].

(** Walk through a computation bind by bind. *)
Ltac stab :=
  repeat lazymatch goal with
    | |- stable _ (mbind _ _) => simple apply stable_bind; [| intros ? ]
    | |- stable _ (modify_world _) =>
        simple apply kept_modify_world; intros ? ?; solve [closed]
    | |- stable _ (modify_self _) =>
        simple apply kept_modify_self; intros ? ?;
        solve [closed | simpl in *; lia | simpl in *; congruence]
    | |- stable _ (match ?x with _ => _ end) => destruct x
    | |- stable _ _ => solve [auto with stab]
    end.

Section KeptOps.

Context (IS : NoitaEnv -> Prop) (IW : World -> Prop) `{!Closed IS IW}.

Lemma kept_print msg : stable (kept IS IW) (print msg).
Proof. unfold print. stab. Qed.

Lemma kept_sleep d : stable (kept IS IW) (sleep d).
Proof. unfold sleep. stab. Qed.

Lemma kept_datetime_now : stable (kept IS IW) datetime_now.
Proof. unfold datetime_now. stab. Qed.

Lemma kept_SetSpeedup r c : stable (kept IS IW) (SetSpeedup r c).
Proof. unfold SetSpeedup. stab. Qed.

Lemma kept_get_harness : stable (kept IS IW) get_harness.
Proof. unfold get_harness. stab. Qed.

Hint Resolve kept_print kept_sleep kept_datetime_now kept_SetSpeedup
  kept_get_harness : stab.

Lemma kept_harness_tick : stable (kept IS IW) harness_tick.
Proof. unfold harness_tick. stab. Qed.

Lemma kept_harness_cleanup : stable (kept IS IW) harness_cleanup.
Proof. unfold harness_cleanup. stab. Qed.

Lemma kept_get_screen : stable (kept IS IW) get_screen.
Proof. unfold get_screen. stab. Qed.

Lemma kept_set_held_keys ks : stable (kept IS IW) (set_held_keys ks).
Proof. unfold set_held_keys. stab. Qed.

Lemma kept_set_held_mouse_buttons bs : stable (kept IS IW) (set_held_mouse_buttons bs).
Proof. unfold set_held_mouse_buttons. stab. Qed.

Lemma kept_move_mouse x y : stable (kept IS IW) (move_mouse x y).
Proof. unfold move_mouse. stab. Qed.

Lemma kept_key_sequence ks : stable (kept IS IW) (key_sequence ks).
Proof. unfold key_sequence. stab. Qed.

Lemma kept_launch_harness : stable (kept IS IW) launch_harness.
Proof. unfold launch_harness. stab. Qed.

Lemma kept_current_info : stable (kept IS IW) current_info.
Proof. unfold current_info. stab. Qed.

Lemma kept_on_tick : stable (kept IS IW) on_tick.
Proof. unfold on_tick. stab. Qed.

Lemma kept_reward_update i : stable (kept IS IW) (reward_update i).
Proof. unfold reward_update. stab. Qed.

Lemma kept_py_div a b : stable (kept IS IW) (py_div a b).
Proof. unfold py_div. stab. Qed.

Lemma kept_log_warning msg : stable (kept IS IW) (log_warning msg).
Proof. unfold log_warning. stab. Qed.

Hint Resolve kept_harness_tick kept_harness_cleanup kept_get_screen
  kept_set_held_keys kept_set_held_mouse_buttons kept_move_mouse
  kept_key_sequence kept_launch_harness kept_current_info kept_on_tick
  kept_reward_update kept_py_div kept_log_warning : stab.

Lemma kept_wait_loop fuel start : stable (kept IS IW) (wait_loop fuel start).
Proof. induction fuel as [|fuel IH]; simpl; stab. Qed.

Hint Resolve kept_wait_loop : stab.

Lemma kept_wait_for_harness_init : stable (kept IS IW) _wait_for_harness_init.
Proof. unfold _wait_for_harness_init. stab. Qed.

Lemma kept_run_init_sequence : stable (kept IS IW) _run_init_sequence.
Proof. unfold _run_init_sequence. stab. Qed.

Hint Resolve kept_wait_for_harness_init kept_run_init_sequence : stab.

Lemma kept_env_init b : stable (kept IS IW) (_env_init b).
Proof. unfold _env_init. stab. Qed.

Hint Resolve kept_env_init : stab.

Lemma kept_step_loop range r init last : stable (kept IS IW) (step_loop range r init last).
Proof. revert last. induction range as [|i range IH]; intros last; simpl; stab. Qed.

Lemma kept_emit_all es : stable (kept IS IW) (emit_all es).
Proof. induction es as [|e es IH]; simpl; stab. Qed.

Hint Resolve kept_step_loop kept_emit_all : stab.

Lemma kept_current_step_dir : stable (kept IS IW) _current_step_dir.
Proof. unfold _current_step_dir. stab. Qed.

Hint Resolve kept_current_step_dir : stab.

Lemma kept_log_step s : stable (kept IS IW) (_log_step s).
Proof. unfold _log_step. stab. Qed.

Hint Resolve kept_log_step : stab.

Lemma kept_finish_step i : stable (kept IS IW) (finish_step i).
Proof. unfold finish_step. stab. Qed.

Lemma kept_apply_inputs a : stable (kept IS IW) (apply_inputs a).
Proof. unfold apply_inputs. stab. Qed.

Hint Resolve kept_finish_step kept_apply_inputs : stab.


Lemma kept_run_info : stable (kept IS IW) run_info.
Proof. unfold run_info. stab. Qed.

Lemma kept_close : stable (kept IS IW) close.
Proof. unfold close. stab. Qed.

Lemma kept_pause : stable (kept IS IW) pause.
Proof. unfold pause. stab. Qed.

Lemma kept_resume : stable (kept IS IW) resume.
Proof. unfold resume. stab. Qed.

End KeptOps.

#[local] Hint Resolve kept_print kept_sleep kept_datetime_now kept_SetSpeedup
  kept_get_harness kept_harness_tick kept_harness_cleanup kept_get_screen
  kept_set_held_keys kept_set_held_mouse_buttons kept_move_mouse
  kept_key_sequence kept_launch_harness kept_current_info kept_on_tick
  kept_reward_update kept_py_div kept_log_warning kept_wait_loop
  kept_wait_for_harness_init kept_run_init_sequence kept_env_init
  kept_step_loop kept_emit_all kept_current_step_dir kept_log_step
  kept_finish_step kept_apply_inputs kept_run_info kept_close kept_pause
  kept_resume : stab.

#[local] Hint Extern 1 (Closed _ _) => typeclasses eauto : stab.

(** *** The two invariants used below *)

#[local] Instance grown_closed (n : Z) (l : list Event) :
  Closed (fun e => n <= self_env_step e) (fun w => l `prefix_of` trace w).
Proof.
  split; simpl; auto.
  intros e w H. by apply prefix_app_r.
Qed.

#[local] Instance fresh_episode_closed :
  Closed (fun e => self_ep_step e = 0) (fun _ => True).
Proof. split; simpl; auto. Qed.

Section Grown.

Variable n : Z.
Variable l : list Event.

Lemma grown_try_reset_env b : stable (grown n l) (_try_reset_env b).
Proof. unfold grown, _try_reset_env. stab. Qed.

Hint Resolve grown_try_reset_env : stab.

Lemma grown_reset_attempts k b : stable (grown n l) (reset_attempts k b).
Proof. unfold grown in *. induction k as [|k IH]; simpl; stab. Qed.

Hint Resolve grown_reset_attempts : stab.

Lemma grown_reset_env b : stable (grown n l) (_reset_env b).
Proof. unfold grown in *. unfold _reset_env. stab. Qed.

Hint Resolve grown_reset_env : stab.

Lemma grown_reset seed : stable (grown n l) (reset seed).
Proof. unfold grown in *. unfold reset. stab. Qed.

Lemma grown_step a : stable (grown n l) (step a).
Proof. unfold grown in *. unfold step. stab. Qed.

Lemma grown_run_op op st : grown n l st -> grown n l (run_op op st).
Proof.
  intros H. destruct op; unfold run_op;
    [ exact (grown_step _ st H) | exact (grown_reset _ st H)
    | exact (kept_run_info _ _ st H) | exact (kept_close _ _ st H)
    | exact (kept_pause _ _ st H) | exact (kept_resume _ _ st H) ].
Qed.

Lemma grown_run_ops ops st : grown n l st -> grown n l (run_ops ops st).
Proof.
  revert st. induction ops as [|op ops IH]; intros st H; simpl; [exact H |].
  apply IH, grown_run_op, H.
Qed.

End Grown.

(** ** Reset: what a successful attempt leaves behind *)

Lemma bind_ret_inv {A B : Type} (m : M A) (f : A -> M B) st b st' :
  (m ≫= f) st = (Ret b, st') ->
  exists a st1, m st = (Ret a, st1) /\ f a st1 = (Ret b, st').
Proof.
  unfold mbind, M_bind. destruct (m st) as [[a|e|] st1]; intros H;
    [eauto | discriminate | discriminate].
Qed.

(** Split a returning computation at every bind. *)
Ltac peel H :=
  repeat match type of H with
         | (mbind _ _) _ = (Ret _, _) =>
             let a := fresh "a" in
             let st := fresh "st" in
             let H1 := fresh "Hm" in
             apply bind_ret_inv in H as (a & st & H1 & H)
         end.

Lemma try_reset_env_first b self w :
  _try_reset_env b (self, w) = _try_reset_env b (set_ep_step 0 self, w).
Proof. reflexivity. Qed.

Lemma fresh_try_reset_env b : stable fresh_episode (_try_reset_env b).
Proof. unfold fresh_episode, _try_reset_env. stab. Qed.

Lemma try_reset_env_ep_step b st : self_ep_step (fst (snd (_try_reset_env b st))) = 0.
Proof.
  destruct st as [self w]. rewrite try_reset_env_first.
  apply (fresh_try_reset_env b (set_ep_step 0 self, w)). split; reflexivity.
Qed.

Lemma try_reset_env_running b st st' :
  _try_reset_env b st = (Ret true, st') -> self_state (fst st') = Some RUNNING.
Proof.
  unfold _try_reset_env. intros H. peel H.
  match type of H with (if ?c then _ else _) _ = _ => destruct c end; peel H.
  - inversion H.
  - inversion H; subst.
    match goal with
    | Hq : _env_init _ _ = _ |- _ =>
        unfold _env_init in Hq; peel Hq; inversion Hq; reflexivity
    end.
Qed.

Lemma try_reset_env_success b st st' :
  _try_reset_env b st = (Ret true, st') ->
  self_ep_step (fst st') = 0 /\ self_state (fst st') = Some RUNNING.
Proof.
  intros H. split; [| by apply (try_reset_env_running b st)].
  pose proof (try_reset_env_ep_step b st) as E. rewrite H in E. exact E.
Qed.

Lemma reset_attempts_success k b st st' :
  reset_attempts k b st = (Ret tt, st') ->
  self_ep_step (fst st') = 0 /\ self_state (fst st') = Some RUNNING.
Proof.
  revert st. induction k as [|k IH]; intros st H; simpl in H; [discriminate |].
  peel H.
  match type of H with (if ?c then _ else _) _ = _ => destruct c eqn:E end; peel H.
  - inversion H; subst. by apply (try_reset_env_success b st).
  - eapply IH; eassumption.
Qed.

Lemma get_screen_self st a st' : get_screen st = (Ret a, st') -> fst st' = fst st.
Proof.
  unfold get_screen, get_harness. destruct st as [self w].
  unfold mbind, M_bind, get_self. simpl.
  destruct (self_harness self); simpl; intros H; inversion H; reflexivity.
Qed.

Lemma on_tick_self st a st' : on_tick st = (Ret a, st') -> fst st' = fst st.
Proof. destruct st as [self w]. intros H. inversion H. reflexivity. Qed.

(** C9.  Whatever operations are performed on a session, in whatever
    order and whether they return or raise, the env-step counter never
    decreases; and a [reset] that returns leaves the episode-step counter
    at 0 and the state RUNNING. *)
Theorem env_step_monotone_reset_fresh :
  (forall (ops : list Op) (st : Sigma),
     self_env_step (fst st) <= self_env_step (fst (run_ops ops st))) /\
  (forall (seed : option Z) (st st' : Sigma) (px : Pixels),
     reset seed st = (Ret px, st') ->
     self_ep_step (fst st') = 0 /\ self_state (fst st') = Some RUNNING).
Proof.
  split.
  - intros ops st.
    apply (grown_run_ops (self_env_step (fst st)) [] ops st).
    split; simpl; [lia | apply prefix_nil].
  - intros seed st st' px H. unfold reset in H. peel H.
    inversion H; subst.
    repeat match goal with
           | Hq : on_tick _ = _ |- _ => apply on_tick_self in Hq; rewrite Hq
           | Hq : get_screen _ = _ |- _ => apply get_screen_self in Hq; rewrite Hq
           | Hq : _reset_env _ _ = _ |- _ => unfold _reset_env in Hq; peel Hq
           | Hq : reset_attempts _ _ _ = (Ret ?u, _) |- _ =>
               destruct u; apply reset_attempts_success in Hq; exact Hq
           end.
Qed.

Lemma env_step_monotone_reset_fresh_witness :
  self_ep_step (fst (snd (reset (Some 5) (blank, lively)))) = 0 /\
  self_state (fst (snd (reset (Some 5) (blank, lively)))) = Some RUNNING.
Proof.
  apply (proj2 env_step_monotone_reset_fresh (Some 5) (blank, lively)
           (snd (reset (Some 5) (blank, lively))) []).
  vm_compute. reflexivity.
Defined.

(** ** Running the controller: exact executions *)

Lemma trace_emit e w : trace (w_emit e w) = trace w ++ [e].
Proof. reflexivity. Qed.

Lemma polled_emit e w : polled (w_emit e w) = polled w.
Proof. reflexivity. Qed.

Lemma run_bind_ret {A B : Type} (m : M A) (f : A -> M B) st a st' :
  m st = (Ret a, st') -> (m ≫= f) st = f a st'.
Proof. intros H. unfold mbind, M_bind. rewrite H. reflexivity. Qed.

(** Run the first computation of a bind, given how it returns. *)
Ltac run_with tac := erewrite run_bind_ret by tac; cbv beta iota; cbn [fst snd].

Lemma run_lift {A : Type} (o : Outcome A) (a : A) st :
  o = Ret a -> lift o st = (Ret a, st).
Proof. intros ->. reflexivity. Qed.

Lemma run_get_harness self w h :
  self_harness self = Some h -> get_harness (self, w) = (Ret h, (self, w)).
Proof. intros H. unfold get_harness, mbind, M_bind, get_self. simpl. rewrite H. reflexivity. Qed.

Lemma run_keyboard (e : Event) self w h :
  self_harness self = Some h ->
  (_ ← get_harness; emit e) (self, w) = (Ret tt, (self, w_emit e w)).
Proof. intros H. erewrite run_bind_ret by (eapply run_get_harness; eassumption). reflexivity. Qed.

Lemma apply_inputs_run self w h action d c ds ks bs cs mx my :
  self_harness self = Some h ->
  split_action action = Ret (d, c) ->
  int_list d = Ret ds ->
  held_inputs ds _input_space ∅ ∅ = Ret (ks, bs) ->
  number_list c = Ret cs ->
  mouse_pos (self_run_config self) cs = Ret (mx, my) ->
  apply_inputs action (self, w)
  = (Ret tt, (self, w_emit (EvMoveMouse mx my)
                      (w_emit (EvSetHeldMouseButtons bs)
                         (w_emit (EvSetHeldKeys ks) w)))).
Proof.
  intros Hh Hsplit Hint Hheld Hnum Hpos. unfold apply_inputs.
  run_with ltac:(eapply run_lift; eassumption).
  run_with ltac:(eapply run_lift; eassumption).
  run_with ltac:(eapply run_lift; eassumption).
  run_with ltac:(eapply run_keyboard; eassumption).
  run_with ltac:(eapply run_keyboard; eassumption).
  run_with ltac:(eapply run_lift; eassumption).
  run_with ltac:(reflexivity).
  run_with ltac:(eapply run_lift; eassumption).
  eapply run_keyboard; eassumption.
Qed.

(** The inputs of a step are the first thing it does to the world. *)
Lemma step_inputs_first self w h action d c ds ks bs cs mx my :
  self_harness self = Some h ->
  split_action action = Ret (d, c) ->
  int_list d = Ret ds ->
  held_inputs ds _input_space ∅ ∅ = Ret (ks, bs) ->
  number_list c = Ret cs ->
  mouse_pos (self_run_config self) cs = Ret (mx, my) ->
  (trace w ++ input_events ks bs mx my) `prefix_of` trace (snd (snd (step action (self, w)))).
Proof.
  intros Hh Hsplit Hint Hheld Hnum Hpos. unfold step.
  run_with ltac:(reflexivity).
  run_with ltac:(reflexivity).
  run_with ltac:(eapply apply_inputs_run; simpl; eassumption).
  match goal with
  | |- _ `prefix_of` trace (snd (snd (?m ?st))) =>
      assert (Hst : stable (grown (self_env_step self + 1) (trace w ++ input_events ks bs mx my)) m)
        by (unfold grown; stab);
      apply (Hst st)
  end.
  split; simpl.
  - lia.
  - unfold input_events. rewrite <- !app_assoc. reflexivity.
Qed.

(** *** Decoding the action *)

Lemma numbers_zeros n : numbers (replicate n (PyNum 0)) = Some (replicate n 0%Q).
Proof. induction n as [|n IH]; simpl; [reflexivity | rewrite IH; reflexivity]. Qed.

Lemma int_list_zeros n : int_list (PySeq (replicate n (PyNum 0))) = Ret (replicate n 0).
Proof.
  unfold int_list. rewrite numbers_zeros. f_equal.
  induction n as [|n IH]; simpl; [reflexivity | rewrite IH; reflexivity].
Qed.

Lemma held_inputs_zeros (table : list (list (option Input))) :
  Forall (fun s => py_index s 0 = Some None) table ->
  forall n ks bs, held_inputs (replicate n 0) table ks bs = Ret (ks, bs).
Proof.
  induction 1 as [|s table Hs _ IH]; intros [|n] ks bs; simpl; try reflexivity.
  rewrite Hs. apply IH.
Qed.

Lemma input_space_zero_is_none : Forall (fun s => py_index s 0 = Some None) _input_space.
Proof. repeat constructor. Qed.

Lemma mouse_pos_pair cfg cx cy :
  mouse_pos cfg [cx; cy]
  = Ret (device_coordinate cfg cx (x_res cfg), device_coordinate cfg cy (y_res cfg)).
Proof. reflexivity. Qed.

Lemma split_action_flat flat :
  length flat = 9%nat ->
  split_action (PySeq flat) = Ret (PySeq (take 7 flat), PySeq (drop 7 flat)).
Proof. intros H. unfold split_action. rewrite H. reflexivity. Qed.

Lemma split_action_pair d c : split_action (PySeq [d; c]) = Ret (d, c).
Proof. reflexivity. Qed.

(** C5 (as amended).  In bounce_rl's NoitaEnv, whose table has [None] at
    index 0 of every dimension, an all-zero discrete vector of any length
    holds no key and no button, and [step] sends exactly these two empty
    sets to the input channel.  In rewards/noita_env.py the entry [None] is
    the last of every dimension: there the vector of last indices holds
    nothing, and the all-zero vector holds W, A, F, E, 1, 5 and the left
    button. *)
Theorem zero_action_holds_nothing :
  (forall n, held_inputs (replicate n 0) _input_space ∅ ∅ = Ret (∅, ∅)) /\
  (forall n cx cy self w h,
     self_harness self = Some h ->
     (trace w ++ input_events ∅ ∅
                   (device_coordinate (self_run_config self) cx (x_res (self_run_config self)))
                   (device_coordinate (self_run_config self) cy (y_res (self_run_config self))))
     `prefix_of`
     trace (snd (snd (step (PySeq [PySeq (replicate n (PyNum 0)); PySeq [PyNum cx; PyNum cy]])
                           (self, w))))) /\
  Legacy.held [2; 2; 1; 1; 1; 1; 2] = Ret (∅, ∅) /\
  Legacy.held [-1; -1; -1; -1; -1; -1; -1] = Ret (∅, ∅) /\
  Legacy.held (replicate 7 0)
  = Ret ({["W"; "A"; "F"; "E"; "1"; "5"]}, {[LEFT]}).
Proof.
  split; [intros n; apply held_inputs_zeros, input_space_zero_is_none |].
  split; [| repeat split; vm_compute; reflexivity].
  intros n cx cy self w h Hh.
  eapply step_inputs_first.
  - exact Hh.
  - apply split_action_pair.
  - apply int_list_zeros.
  - apply held_inputs_zeros, input_space_zero_is_none.
  - reflexivity.
  - apply mouse_pos_pair.
Qed.

Lemma zero_action_holds_nothing_witness :
  self_harness running = Some (mkHarness (fun _ => true) 0) /\
  (trace lively ++ input_events ∅ ∅
                     (device_coordinate (self_run_config running) 0 (x_res (self_run_config running)))
                     (device_coordinate (self_run_config running) 0 (y_res (self_run_config running))))
  `prefix_of`
  trace (snd (snd (step (PySeq [PySeq (replicate 7 (PyNum 0)); PySeq [PyNum 0; PyNum 0]])
                        (running, lively)))).
Proof.
  split; [reflexivity |].
  apply (proj1 (proj2 zero_action_holds_nothing) 7%nat 0%Q 0%Q running lively
               (mkHarness (fun _ => true) 0)).
  reflexivity.
Defined.

(** C5, counterexample.  In rewards/noita_env.py index 0 of every dimension
    is a key or a button: the all-zero vector holds six keys and the left
    mouse button. *)
Lemma legacy_zero_action_holds_keys :
  Legacy.held [0; 0; 0; 0; 0; 0; 0] = Ret ({["W"; "A"; "F"; "E"; "1"; "5"]}, {[LEFT]}) /\
  Legacy.held [0; 0; 0; 0; 0; 0; 0] <> Ret (∅, ∅).
Proof. split; [vm_compute; reflexivity | vm_compute; discriminate]. Qed.

(** What [step] decodes from a flat action: the keys and buttons of its
    first seven entries, the position of its last two. *)
Lemma discrete_part_flat flat qs :
  length flat = 9%nat -> numbers (take 7 flat) = Some qs ->
  discrete_part (PySeq flat) = held_inputs (List.map py_int qs) _input_space ∅ ∅.
Proof.
  intros H Hqs. unfold discrete_part. rewrite split_action_flat by exact H.
  unfold int_list. rewrite Hqs. reflexivity.
Qed.

Lemma continuous_part_flat cfg flat cx cy :
  length flat = 9%nat -> drop 7 flat = [PyNum cx; PyNum cy] ->
  continuous_part cfg (PySeq flat)
  = Ret (device_coordinate cfg cx (x_res cfg), device_coordinate cfg cy (y_res cfg)).
Proof.
  intros H Hc. unfold continuous_part. rewrite split_action_flat by exact H.
  rewrite Hc. reflexivity.
Qed.

(** C10.  A flat action of length 9 is split into its first seven and last
    two elements.  The held keys and buttons are those the table gives for
    the first seven entries, the mouse position is that of the last two,
    and these are the three inputs [step] sends to the channel before
    anything else; the pair (action[0:7], action[7:9]) gives the same keys,
    buttons and position, and [step] sends the same three inputs for it. *)
Theorem flat_action_is_split (flat : list PyVal) :
  length flat = 9%nat ->
  split_action (PySeq flat) = Ret (PySeq (take 7 flat), PySeq (drop 7 flat)) /\
  length (take 7 flat) = 7%nat /\ length (drop 7 flat) = 2%nat /\
  discrete_part (PySeq flat) = discrete_part (as_pair flat) /\
  (forall cfg, continuous_part cfg (PySeq flat) = continuous_part cfg (as_pair flat)) /\
  (forall st, apply_inputs (PySeq flat) st = apply_inputs (as_pair flat) st) /\
  (forall qs, numbers (take 7 flat) = Some qs ->
     discrete_part (PySeq flat) = held_inputs (List.map py_int qs) _input_space ∅ ∅) /\
  (forall cfg cx cy, drop 7 flat = [PyNum cx; PyNum cy] ->
     continuous_part cfg (PySeq flat)
     = Ret (device_coordinate cfg cx (x_res cfg), device_coordinate cfg cy (y_res cfg))) /\
  (forall self w h qs ks bs cx cy,
     self_harness self = Some h ->
     numbers (take 7 flat) = Some qs ->
     held_inputs (List.map py_int qs) _input_space ∅ ∅ = Ret (ks, bs) ->
     drop 7 flat = [PyNum cx; PyNum cy] ->
     (trace w ++ input_events ks bs
                   (device_coordinate (self_run_config self) cx (x_res (self_run_config self)))
                   (device_coordinate (self_run_config self) cy (y_res (self_run_config self))))
     `prefix_of` trace (snd (snd (step (PySeq flat) (self, w)))) /\
     (trace w ++ input_events ks bs
                   (device_coordinate (self_run_config self) cx (x_res (self_run_config self)))
                   (device_coordinate (self_run_config self) cy (y_res (self_run_config self))))
     `prefix_of` trace (snd (snd (step (as_pair flat) (self, w))))).
Proof.
  intros H.
  assert (E : split_action (PySeq flat) = split_action (as_pair flat))
    by (rewrite split_action_flat by exact H; reflexivity).
  split; [by apply split_action_flat |].
  split; [rewrite length_take; lia |].
  split; [rewrite length_drop; lia |].
  split; [unfold discrete_part; rewrite E; reflexivity |].
  split; [intros cfg; unfold continuous_part; rewrite E; reflexivity |].
  split; [intros st; unfold apply_inputs; rewrite E; reflexivity |].
  split; [intros qs; by apply discrete_part_flat |].
  split; [intros cfg cx cy; by apply continuous_part_flat |].
  intros self w h qs ks bs cx cy Hh Hqs Hheld Hc.
  split.
  - eapply step_inputs_first.
    + exact Hh.
    + by apply split_action_flat.
    + unfold int_list. rewrite Hqs. reflexivity.
    + exact Hheld.
    + rewrite Hc. reflexivity.
    + apply mouse_pos_pair.
  - eapply step_inputs_first.
    + exact Hh.
    + apply split_action_pair.
    + unfold int_list. rewrite Hqs. reflexivity.
    + exact Hheld.
    + rewrite Hc. reflexivity.
    + apply mouse_pos_pair.
Qed.

Lemma flat_action_is_split_witness :
  length (List.map PyNum [1; 0; 1; 0; 2; 0; 1; 0.5; -0.25]%Q) = 9%nat /\
  discrete_part (PySeq (List.map PyNum [1; 0; 1; 0; 2; 0; 1; 0.5; -0.25]%Q))
  = Ret ({["W"; "F"; "3"]}, {[LEFT]}) /\
  (trace lively ++ input_events {["W"; "F"; "3"]} {[LEFT]}
                     (device_coordinate _default_run_config 0.5 640)
                     (device_coordinate _default_run_config (-0.25) 360))
  `prefix_of`
  trace (snd (snd (step (PySeq (List.map PyNum [1; 0; 1; 0; 2; 0; 1; 0.5; -0.25]%Q))
                        (running, lively)))).
Proof.
  split; [reflexivity |]. split; [vm_compute; reflexivity |].
  assert (Hheld : held_inputs (List.map py_int [1; 0; 1; 0; 2; 0; 1]%Q) _input_space ∅ ∅
                  = Ret ({["W"; "F"; "3"]}, {[LEFT]})) by (vm_compute; reflexivity).
  apply (proj1 (proj2 (proj2 (proj2 (proj2 (proj2 (proj2 (proj2 (proj2
           (flat_action_is_split (List.map PyNum [1; 0; 1; 0; 2; 0; 1; 0.5; -0.25]%Q)
              eq_refl))))))))
           running lively (mkHarness (fun _ => true) 0)
           [1; 0; 1; 0; 2; 0; 1]%Q _ _ 0.5%Q (-0.25)%Q
           eq_refl eq_refl Hheld eq_refl)).
Defined.

(** C1 (as amended).  A continuous pair (cx, cy) is sent to
    ((cx*k + 1)/2 * x_res, (cy*k + 1)/2 * y_res), k being
    [scale_mouse_coords]: scaled, moved from [-1, 1] to [0, 1], multiplied
    by the resolution; this is the position [step] moves the mouse to.
    The origin is the image of (-1/k, -1/k) and (x_res, y_res) that of
    (1/k, 1/k); (-1, -1) goes to (1 - k)/2 times the resolution and (1, 1)
    to (1 + k)/2 times the resolution. *)
Theorem continuous_action_to_device (cfg : RunConfig) :
  ~ (scale_mouse_coords cfg == 0)%Q ->
  (forall cx cy,
     mouse_pos cfg [cx; cy]
     = Ret (device_coordinate cfg cx (x_res cfg), device_coordinate cfg cy (y_res cfg))) /\
  (forall c res,
     device_coordinate cfg c res == (c * scale_mouse_coords cfg + 1) / 2 * res)%Q /\
  (forall res,
     device_coordinate cfg (-1 / scale_mouse_coords cfg) res == 0 /\
     device_coordinate cfg (1 / scale_mouse_coords cfg) res == res)%Q /\
  (forall res,
     device_coordinate cfg (-1) res == (1 - scale_mouse_coords cfg) / 2 * res /\
     device_coordinate cfg 1 res == (1 + scale_mouse_coords cfg) / 2 * res)%Q /\
  (forall self w h d ds ks bs cx cy,
     self_run_config self = cfg ->
     self_harness self = Some h ->
     int_list d = Ret ds ->
     held_inputs ds _input_space ∅ ∅ = Ret (ks, bs) ->
     (trace w ++ input_events ks bs (device_coordinate cfg cx (x_res cfg))
                                    (device_coordinate cfg cy (y_res cfg)))
     `prefix_of` trace (snd (snd (step (PySeq [d; PySeq [PyNum cx; PyNum cy]]) (self, w))))).
Proof.
  intros Hk.
  split; [intros; apply mouse_pos_pair |].
  split; [intros; reflexivity |].
  split; [intros res; unfold device_coordinate; split; field; exact Hk |].
  split; [intros res; unfold device_coordinate; split; field |].
  intros self w h d ds ks bs cx cy Hcfg Hh Hd Hheld. subst cfg.
  eapply step_inputs_first; eauto using split_action_pair, mouse_pos_pair.
Qed.

Lemma continuous_action_to_device_witness :
  ~ (scale_mouse_coords _default_run_config == 0)%Q /\
  (device_coordinate _default_run_config (-1 / scale_mouse_coords _default_run_config) 640 == 0)%Q.
Proof.
  split; [vm_compute; discriminate |].
  apply (proj1 (proj2 (proj2 (continuous_action_to_device _default_run_config
                                ltac:(vm_compute; discriminate)))) 640%Q).
Defined.

(** C1, counterexample.  With the default configuration (resolution
    640 x 360, scale_mouse_coords = 3) the action (-1, -1) is sent to
    (-640, -360), not to the origin, and (1, 1) to (1280, 720), which is
    neither the resolution nor three times the resolution. *)
Lemma default_corners_leave_screen :
  exists ax ay bx b_y,
    mouse_pos _default_run_config [-1; -1]%Q = Ret (ax, ay) /\
    mouse_pos _default_run_config [1; 1]%Q = Ret (bx, b_y) /\
    (ax == -640 /\ ay == -360 /\ bx == 1280 /\ b_y == 720)%Q /\
    ~ (ax == 0)%Q /\ ~ (ay == 0)%Q /\
    ~ (bx == 640)%Q /\ ~ (b_y == 360)%Q /\ ~ (bx == 3 * 640)%Q /\ ~ (b_y == 3 * 360)%Q.
Proof.
  do 4 eexists. split; [reflexivity |]. split; [reflexivity |].
  repeat split; vm_compute; first [reflexivity | discriminate].
Qed.

(** ** The polling loop of [step] *)

Lemma run_py_div a b st : ~ (b == 0)%Q -> py_div a b st = (Ret (a / b)%Q, st).
Proof.
  intros H. unfold py_div. destruct (Qeq_bool b 0) eqn:E; [| reflexivity].
  apply Qeq_bool_iff in E. contradiction.
Qed.

Lemma run_sleep d self w :
  (0 <= d)%Q -> sleep d (self, w) = (Ret tt, (self, w_advance d (w_emit (EvSleep d) w))).
Proof.
  intros H. unfold sleep. apply Qle_bool_iff in H. rewrite H. reflexivity.
Qed.

Lemma run_on_tick self w :
  on_tick (self, w) = (Ret (info_src w (polled w)), (self, w_poll (w_emit EvOnTick w))).
Proof. reflexivity. Qed.

Section PollLoop.

Variable self : NoitaEnv.
Variable init_info : Info.

Let cfg := self_run_config self.
Let channel := str (self_instance self).

Hypothesis run_rate_nonzero : ~ (run_rate cfg == 0)%Q.
Hypothesis duration_nonneg : (0 <= step_duration cfg / run_rate cfg)%Q.

Lemma step_loop_round i range r last w :
  step_loop (i :: range) r init_info last (self, w)
  = if negb (tick (info_src w (polled w)) =? tick init_info)
    then (Ret (Broke (info_src w (polled w))), (self, poll_round cfg channel w))
    else if i =? r - 1
    then (Ret ReturnedNone, (self, w_emit (stall_warning self) (poll_round cfg channel w)))
    else step_loop range r init_info (Some (info_src w (polled w)))
                   (self, poll_round cfg channel w).
Proof.
  simpl step_loop.
  run_with ltac:(reflexivity).
  run_with ltac:(reflexivity).
  run_with ltac:(apply run_py_div; exact run_rate_nonzero).
  run_with ltac:(apply run_sleep; exact duration_nonneg).
  run_with ltac:(reflexivity).
  run_with ltac:(apply run_on_tick).
  cbn [info_src polled w_emit w_advance].
  destruct (negb (tick (info_src w (polled w)) =? tick init_info)); [reflexivity |].
  destruct (i =? r - 1); reflexivity.
Qed.

Lemma poll_round_polled w : polled (poll_round cfg channel w) = S (polled w).
Proof. reflexivity. Qed.

Lemma poll_round_info_src w : info_src (poll_round cfg channel w) = info_src w.
Proof. reflexivity. Qed.

Lemma poll_round_trace w :
  trace (poll_round cfg channel w) = trace w ++ poll_round_events cfg channel.
Proof. simpl. rewrite <- !app_assoc. reflexivity. Qed.

Lemma after_poll_rounds n w :
  polled (after_rounds (poll_round cfg channel) n w) = (polled w + n)%nat /\
  info_src (after_rounds (poll_round cfg channel) n w) = info_src w /\
  trace (after_rounds (poll_round cfg channel) n w)
  = trace w ++ times n (poll_round_events cfg channel).
Proof.
  revert w. induction n as [|n IH]; intros w; simpl after_rounds.
  - simpl. rewrite app_nil_r. repeat split. lia.
  - destruct (IH (poll_round cfg channel w)) as (H1 & H2 & H3).
    rewrite H1, H2, H3, poll_round_polled, poll_round_info_src, poll_round_trace.
    repeat split; [lia |]. simpl times. rewrite <- !app_assoc. reflexivity.
Qed.

Lemma stalled_next w n :
  stalled w init_info (S n) -> stalled (poll_round cfg channel w) init_info n.
Proof.
  intros H j Hj. rewrite poll_round_info_src, poll_round_polled.
  replace (S (polled w) + j)%nat with (polled w + S j)%nat by lia.
  apply H. lia.
Qed.

Lemma step_loop_stalled n : forall a w last,
  (0 < n)%nat -> (a + n = retries)%nat -> stalled w init_info n ->
  step_loop (List.map Z.of_nat (seq a n)) (Z.of_nat retries) init_info last (self, w)
  = (Ret ReturnedNone,
     (self, w_emit (stall_warning self) (after_rounds (poll_round cfg channel) n w))).
Proof.
  induction n as [|n IH]; intros a w last Hn Ha Hst; [lia |].
  simpl seq. simpl List.map. rewrite step_loop_round.
  assert (E : (tick (info_src w (polled w)) =? tick init_info) = true).
  { apply Z.eqb_eq. specialize (Hst 0%nat ltac:(lia)).
    rewrite Nat.add_0_r in Hst. exact Hst. }
  rewrite E. simpl negb. cbv iota.
  destruct (Z.eqb_spec (Z.of_nat a) (Z.of_nat retries - 1)) as [Hlast|Hmore].
  - assert (n = 0)%nat by lia. subst n. reflexivity.
  - simpl after_rounds. apply IH; [lia | lia | by apply stalled_next].
Qed.

Lemma step_loop_advance k : forall n a w last,
  (k < n)%nat -> (a + n = retries)%nat -> stalled w init_info k ->
  tick (info_src w (polled w + k)%nat) <> tick init_info ->
  step_loop (List.map Z.of_nat (seq a n)) (Z.of_nat retries) init_info last (self, w)
  = (Ret (Broke (info_src w (polled w + k)%nat)),
     (self, after_rounds (poll_round cfg channel) (S k) w)).
Proof.
  induction k as [|k IH]; intros n a w last Hk Ha Hst Hadv;
    (destruct n as [|n]; [lia |]); simpl seq; simpl List.map; rewrite step_loop_round.
  - rewrite Nat.add_0_r in *. apply Z.eqb_neq in Hadv. rewrite Hadv. reflexivity.
  - assert (E : (tick (info_src w (polled w)) =? tick init_info) = true).
    { apply Z.eqb_eq. specialize (Hst 0%nat ltac:(lia)).
      rewrite Nat.add_0_r in Hst. exact Hst. }
    rewrite E. simpl negb. cbv iota.
    destruct (Z.eqb_spec (Z.of_nat a) (Z.of_nat retries - 1)) as [Hlast|Hmore]; [lia |].
    replace (polled w + S k)%nat with (polled (poll_round cfg channel w) + k)%nat
      by (rewrite poll_round_polled; lia).
    rewrite <- (poll_round_info_src w).
    change (after_rounds (poll_round cfg channel) (S (S k)) w)
      with (after_rounds (poll_round cfg channel) (S k) (poll_round cfg channel w)).
    apply IH; [lia | lia | by apply stalled_next |].
    rewrite poll_round_info_src, poll_round_polled.
    replace (S (polled w) + k)%nat with (polled w + S k)%nat by lia. exact Hadv.
Qed.

End PollLoop.

Lemma run_harness_tick self w h :
  self_harness self = Some h ->
  harness_tick (self, w)
  = (Ret tt, (set_harness (Some (ticked 1 h)) self, w_emit EvHarnessTick w)).
Proof.
  intros H. unfold harness_tick.
  run_with ltac:(eapply run_get_harness; eassumption).
  run_with ltac:(reflexivity).
  unfold ticked. rewrite Nat.add_1_r. reflexivity.
Qed.

Lemma run_get_screen self w h :
  self_harness self = Some h ->
  get_screen (self, w)
  = (Ret (screen_src w (screens w)), (self, w_screen (w_emit EvGetScreen w))).
Proof.
  intros H. unfold get_screen.
  run_with ltac:(eapply run_get_harness; eassumption).
  reflexivity.
Qed.

(** [step] up to the polling loop. *)
Lemma step_until_loop self w h action d c ds ks bs cs mx my :
  self_harness self = Some h ->
  split_action action = Ret (d, c) ->
  int_list d = Ret ds ->
  held_inputs ds _input_space ∅ ∅ = Ret (ks, bs) ->
  number_list c = Ret cs ->
  mouse_pos (self_run_config self) cs = Ret (mx, my) ->
  step action (self, w)
  = (exit ← step_loop (py_range retries) (Z.of_nat retries) (info_cur w) None;
     match exit with
     | ReturnedNone => pure None
     | Broke info_ => finish_step info_
     | Exhausted (Some info_) => finish_step info_
     | Exhausted None => raise NameError
     end) (stepping h self, before_polling ks bs mx my w).
Proof.
  intros Hh Hsplit Hint Hheld Hnum Hpos. unfold step.
  run_with ltac:(reflexivity).
  run_with ltac:(reflexivity).
  run_with ltac:(eapply apply_inputs_run; simpl; eassumption).
  run_with ltac:(eapply run_harness_tick; simpl; eassumption).
  run_with ltac:(reflexivity).
  reflexivity.
Qed.

Lemma before_polling_facts ks bs mx my w :
  polled (before_polling ks bs mx my w) = polled w /\
  info_src (before_polling ks bs mx my w) = info_src w /\
  trace (before_polling ks bs mx my w)
  = trace w ++ input_events ks bs mx my ++ [EvHarnessTick; EvCurrentInfo].
Proof. repeat split. simpl. rewrite <- !app_assoc. reflexivity. Qed.

Lemma stalled_before_polling ks bs mx my w i n :
  stalled w i n -> stalled (before_polling ks bs mx my w) i n.
Proof. intros H j Hj. apply H, Hj. Qed.

Section StepPolling.

Variables (self : NoitaEnv) (w : World) (h : Harness) (action d c : PyVal).
Variables (ds : list Z) (ks : gset string) (bs : gset MouseButton) (cs : list Q).
Variables (mx my : Q).

Let cfg := self_run_config self.
Let channel := str (self_instance self).

Hypothesis has_harness : self_harness self = Some h.
Hypothesis splits : split_action action = Ret (d, c).
Hypothesis ints : int_list d = Ret ds.
Hypothesis held : held_inputs ds _input_space ∅ ∅ = Ret (ks, bs).
Hypothesis nums : number_list c = Ret cs.
Hypothesis pos : mouse_pos (self_run_config self) cs = Ret (mx, my).
Hypothesis run_rate_nonzero : ~ (run_rate cfg == 0)%Q.
Hypothesis duration_nonneg : (0 <= step_duration cfg / run_rate cfg)%Q.

Lemma step_stall_run :
  stalled w (info_cur w) retries ->
  step action (self, w)
  = (Ret None,
     (stepping h self,
      w_emit (stall_warning self)
        (after_rounds (poll_round cfg channel) retries (before_polling ks bs mx my w)))).
Proof.
  intros Hstall.
  rewrite (step_until_loop self w h action d c ds ks bs cs mx my
             has_harness splits ints held nums pos).
  run_with ltac:(apply (step_loop_stalled (stepping h self) (info_cur w)
                          run_rate_nonzero duration_nonneg retries 0%nat _ None);
                 [unfold retries; lia | reflexivity
                 | by apply stalled_before_polling]).
  reflexivity.
Qed.

Lemma polling_rounds_trace n :
  trace (after_rounds (poll_round cfg channel) n (before_polling ks bs mx my w))
  = trace w ++ input_events ks bs mx my ++ [EvHarnessTick; EvCurrentInfo]
    ++ times n (poll_round_events cfg channel).
Proof.
  destruct (after_poll_rounds self n (before_polling ks bs mx my w)) as (_ & _ & H3).
  destruct (before_polling_facts ks bs mx my w) as (_ & _ & Ht).
  fold cfg channel in H3. rewrite H3, Ht, <- !app_assoc. reflexivity.
Qed.

Lemma polling_rounds_polled n :
  polled (after_rounds (poll_round cfg channel) n (before_polling ks bs mx my w))
  = (polled w + n)%nat.
Proof.
  destruct (after_poll_rounds self n (before_polling ks bs mx my w)) as (H1 & _).
  destruct (before_polling_facts ks bs mx my w) as (Hp & _).
  fold cfg channel in H1. rewrite H1, Hp. reflexivity.
Qed.

Lemma step_advance_run k :
  (k < retries)%nat -> stalled w (info_cur w) k ->
  tick (info_src w (polled w + k)%nat) <> tick (info_cur w) ->
  step action (self, w)
  = finish_step (info_src w (polled w + k)%nat)
      (stepping h self,
       after_rounds (poll_round cfg channel) (S k) (before_polling ks bs mx my w)).
Proof.
  intros Hk Hstall Hadv.
  rewrite (step_until_loop self w h action d c ds ks bs cs mx my
             has_harness splits ints held nums pos).
  run_with ltac:(apply (step_loop_advance (stepping h self) (info_cur w)
                          run_rate_nonzero duration_nonneg k retries 0%nat _ None);
                 [exact Hk | reflexivity | by apply stalled_before_polling
                 | exact Hadv]).
  reflexivity.
Qed.

Lemma finish_step_first info_ self' w' h' :
  self_harness self' = Some h' ->
  (trace w' ++ [EvGetScreen]) `prefix_of` trace (snd (snd (finish_step info_ (self', w')))).
Proof.
  intros Hh. unfold finish_step.
  run_with ltac:(eapply run_get_screen; eassumption).
  match goal with
  | |- ?l `prefix_of` trace (snd (snd (?m ?st))) =>
      assert (Hst : stable (grown (self_env_step self') l) m) by (unfold grown; stab);
      apply (Hst st)
  end.
  split; [cbn [fst]; lia | reflexivity].
Qed.

End StepPolling.

(** C3.  After the inputs, one harness tick and one read of the current
    info, [step] runs the round "speed to run_rate, sleep
    step_duration/run_rate, speed to pause_rate, poll" at most 20 times.
    If the tick counter stays at its initial value through 20 polls, the
    20th round is followed by one warning and [step] returns [None]: no
    further round, no retry.  If poll [k + 1] is the first to show another
    tick, the loop ends after exactly [k + 1] rounds and the next thing
    [step] does is to fetch the screen. *)
Theorem step_polls_until_tick_advances
  self w h action d c ds ks bs cs mx my :
  self_harness self = Some h ->
  split_action action = Ret (d, c) ->
  int_list d = Ret ds ->
  held_inputs ds _input_space ∅ ∅ = Ret (ks, bs) ->
  number_list c = Ret cs ->
  mouse_pos (self_run_config self) cs = Ret (mx, my) ->
  ~ (run_rate (self_run_config self) == 0)%Q ->
  (0 <= step_duration (self_run_config self) / run_rate (self_run_config self))%Q ->
  (stalled w (info_cur w) retries ->
   step action (self, w)
   = (Ret None,
      (stepping h self,
       w_emit (stall_warning self)
         (after_rounds (poll_round (self_run_config self) (str (self_instance self)))
                       retries (before_polling ks bs mx my w)))) /\
   trace (snd (snd (step action (self, w))))
   = trace w ++ input_events ks bs mx my ++ [EvHarnessTick; EvCurrentInfo]
     ++ times retries (poll_round_events (self_run_config self) (str (self_instance self)))
     ++ [stall_warning self] /\
   polled (snd (snd (step action (self, w)))) = (polled w + retries)%nat) /\
  (forall k, (k < retries)%nat -> stalled w (info_cur w) k ->
   tick (info_src w (polled w + k)%nat) <> tick (info_cur w) ->
   step action (self, w)
   = finish_step (info_src w (polled w + k)%nat)
       (stepping h self,
        after_rounds (poll_round (self_run_config self) (str (self_instance self)))
                     (S k) (before_polling ks bs mx my w)) /\
   (trace w ++ input_events ks bs mx my ++ [EvHarnessTick; EvCurrentInfo]
    ++ times (S k) (poll_round_events (self_run_config self) (str (self_instance self)))
    ++ [EvGetScreen])
   `prefix_of` trace (snd (snd (step action (self, w))))).
Proof.
  intros Hh Hsplit Hint Hheld Hnum Hpos Hrate Hdur. split.
  - intros Hstall.
    pose proof (step_stall_run self w h action d c ds ks bs cs mx my
                  Hh Hsplit Hint Hheld Hnum Hpos Hrate Hdur Hstall) as E.
    split; [exact E |]. rewrite E. cbn [snd]. split.
    + rewrite trace_emit, (polling_rounds_trace self w ks bs mx my retries), <- !app_assoc.
      reflexivity.
    + rewrite polled_emit. apply polling_rounds_polled.
  - intros k Hk Hstall Hadv.
    pose proof (step_advance_run self w h action d c ds ks bs cs mx my
                  Hh Hsplit Hint Hheld Hnum Hpos Hrate Hdur k Hk Hstall Hadv) as E.
    split; [exact E |]. rewrite E.
    pose proof (finish_step_first (info_src w (polled w + k)%nat) (stepping h self)
                  (after_rounds (poll_round (self_run_config self) (str (self_instance self)))
                                (S k) (before_polling ks bs mx my w))
                  (ticked 1 h) eq_refl) as P.
    rewrite (polling_rounds_trace self w ks bs mx my (S k)), <- !app_assoc in P.
    exact P.
Qed.

Lemma step_polls_until_tick_advances_witness :
  stalled stuck (info_cur stuck) retries /\
  fst (step (PySeq [PySeq (replicate 7 (PyNum 0)); PySeq [PyNum 0; PyNum 0]])
            (running, stuck)) = Ret None /\
  polled (snd (snd (step (PySeq [PySeq (replicate 7 (PyNum 0)); PySeq [PyNum 0; PyNum 0]])
                         (running, stuck)))) = 20%nat.
Proof.
  assert (Hstall : stalled stuck (info_cur stuck) retries) by (intros j _; reflexivity).
  split; [exact Hstall |].
  destruct (proj1 (step_polls_until_tick_advances running stuck
              (mkHarness (fun _ => true) 0)
              (PySeq [PySeq (replicate 7 (PyNum 0)); PySeq [PyNum 0; PyNum 0]])
              (PySeq (replicate 7 (PyNum 0))) (PySeq [PyNum 0; PyNum 0])
              (replicate 7 0) ∅ ∅ [0%Q; 0%Q]
              (device_coordinate _default_run_config 0 640)
              (device_coordinate _default_run_config 0 360)
              eq_refl eq_refl eq_refl eq_refl eq_refl eq_refl
              ltac:(vm_compute; discriminate)
              ltac:(apply Qle_bool_iff; reflexivity)) Hstall) as (E & _ & Hp).
  split; [rewrite E; reflexivity | exact Hp].
Defined.

(** ** Reset: the watchdog *)

Lemma set_harness_twice v1 v2 self :
  set_harness v2 (set_harness v1 self) = set_harness v2 self.
Proof. reflexivity. Qed.

Lemma ticked_ticked n m h : ticked n (ticked m h) = ticked (m + n) h.
Proof. unfold ticked. simpl. f_equal. lia. Qed.

Lemma set_harness_same self h :
  self_harness self = Some h -> set_harness (Some (ticked 0 h)) self = self.
Proof.
  destruct self, h. simpl. intros ->. unfold ticked, set_harness. simpl.
  rewrite Nat.add_0_r. reflexivity.
Qed.

(** The wall clock: every effect takes time. *)
Lemma cost_upto_grows c a n : cost_upto c a + Z.of_nat n <= cost_upto c (a + n).
Proof.
  induction n as [|n IH].
  - rewrite Nat.add_0_r. simpl. lia.
  - rewrite Nat.add_succ_r. simpl cost_upto. lia.
Qed.

Lemma cost_upto_mono c a b : (a <= b)%nat -> cost_upto c a <= cost_upto c b.
Proof.
  intros H. replace b with (a + (b - a))%nat by lia.
  pose proof (cost_upto_grows c a (b - a)). lia.
Qed.

Lemma overhead_pos w n : (0 < n)%nat -> (0 < overhead w n)%Q.
Proof.
  intros Hn. unfold overhead, Qlt. cbn [Qnum Qden].
  pose proof (cost_upto_grows (cost w) (length (trace w)) n). lia.
Qed.

Lemma overhead_prompt w n : prompt w -> (n <= 88)%nat -> (overhead w n <= 1)%Q.
Proof.
  intros Hp Hn. unfold overhead, Qle. cbn [Qnum Qden].
  pose proof (Hp (length (trace w))).
  pose proof (cost_upto_mono (cost w) (length (trace w) + n) (length (trace w) + 88)
                ltac:(lia)).
  lia.
Qed.

Lemma after_rounds_snoc (round : World -> World) k : forall w,
  after_rounds round (S k) w = round (after_rounds round k w).
Proof. induction k as [|k IH]; intros w; [reflexivity |]. simpl. apply (IH (round w)). Qed.

Lemma after_rounds_add (round : World -> World) k n : forall w,
  after_rounds round (k + n) w = after_rounds round n (after_rounds round k w).
Proof. induction k as [|k IH]; intros w; [reflexivity |]. simpl. apply IH. Qed.

Lemma wait_round_now w : now (wait_round w) = (now w + 1)%Q.
Proof. reflexivity. Qed.

Lemma wait_round_trace w : trace (wait_round w) = trace w ++ wait_round_events.
Proof. simpl. rewrite <- app_assoc. reflexivity. Qed.

Lemma after_wait_rounds n w :
  launched (after_rounds wait_round n w) = launched w /\
  harness_src (after_rounds wait_round n w) = harness_src w /\
  (now (after_rounds wait_round n w) == now w + inject_Z (Z.of_nat n))%Q /\
  trace (after_rounds wait_round n w) = trace w ++ times n wait_round_events.
Proof.
  revert w. induction n as [|n IH]; intros w.
  - simpl. rewrite app_nil_r. repeat split. ring.
  - destruct (IH (wait_round w)) as (H1 & H2 & H3 & H4).
    simpl after_rounds. rewrite H1, H2, H3, H4. repeat split.
    + rewrite wait_round_now, Nat2Z.inj_succ, <- Z.add_1_l, inject_Z_plus.
      simpl inject_Z. ring.
    + simpl. rewrite <- !app_assoc. reflexivity.
Qed.

Lemma after_wait_rounds_cost n : forall w,
  cost (after_rounds wait_round n w) = cost w /\
  length (trace (after_rounds wait_round n w)) = (length (trace w) + 2 * n)%nat.
Proof.
  induction n as [|n IH]; intros w.
  - simpl. split; [reflexivity | lia].
  - simpl after_rounds. destruct (IH (wait_round w)) as (H1 & H2).
    rewrite H1, H2, wait_round_trace, length_app. simpl. split; [reflexivity | lia].
Qed.

(** After [k] rounds the wall clock is more than [k] seconds on. *)
Lemma elapsed_rounds k w :
  (wall (after_rounds wait_round k w) - wall w
   == inject_Z (Z.of_nat k) + overhead w (2 * k))%Q.
Proof.
  destruct (after_wait_rounds k w) as (_ & _ & Hn & _).
  destruct (after_wait_rounds_cost k w) as (Hc & Hl).
  unfold wall, spent, overhead. rewrite Hn, Hc, Hl.
  generalize (cost_upto (cost w) (length (trace w) + 2 * k)).
  generalize (cost_upto (cost w) (length (trace w))). intros a b.
  assert (E : (b - a # 1000000 == (b # 1000000) - (a # 1000000))%Q).
  { unfold Qeq, Qminus, Qplus, Qopp. cbn [Qnum Qden]. lia. }
  rewrite E. ring.
Qed.

Lemma watchdog_fires k w :
  (45 <= k)%nat -> negb (Qle_bool (wall (after_rounds wait_round k w) - wall w) 45) = true.
Proof.
  intros Hk. apply negb_true_iff.
  destruct (Qle_bool (wall (after_rounds wait_round k w) - wall w) 45) eqn:E; [| reflexivity].
  apply Qle_bool_iff in E. rewrite elapsed_rounds in E.
  pose proof (overhead_pos w (2 * k) ltac:(lia)) as Hp.
  assert (Hk' : (45 <= inject_Z (Z.of_nat k))%Q)
    by (unfold Qle, inject_Z; cbn [Qnum Qden]; lia).
  lra.
Qed.

Lemma watchdog_waits k w :
  prompt w -> (k <= 44)%nat ->
  negb (Qle_bool (wall (after_rounds wait_round k w) - wall w) 45) = false.
Proof.
  intros Hp Hk. apply negb_false_iff, Qle_bool_iff. rewrite elapsed_rounds.
  pose proof (overhead_prompt w (2 * k) Hp ltac:(lia)) as Ho.
  assert (Hk' : (inject_Z (Z.of_nat k) <= 44)%Q)
    by (unfold Qle, inject_Z; cbn [Qnum Qden]; lia).
  lra.
Qed.

Lemma wait_loop_round fuel start self w h :
  self_harness self = Some h ->
  wait_loop (S fuel) start (self, w)
  = if ready h then (Ret true, (self, w))
    else if negb (Qle_bool (wall (wait_round w) - start) 45)
    then (Ret false, (set_harness (Some (ticked 1 h)) self,
                      w_emit (EvPrint "Harness init timed out.") (wait_round w)))
    else wait_loop fuel start (set_harness (Some (ticked 1 h)) self, wait_round w).
Proof.
  intros Hh. simpl wait_loop.
  run_with ltac:(eapply run_get_harness; eassumption).
  destruct (ready h); [reflexivity |].
  run_with ltac:(eapply run_harness_tick; eassumption).
  run_with ltac:(apply run_sleep; apply Qle_bool_iff; reflexivity).
  run_with ltac:(reflexivity).
  change (w_advance 1 (w_emit (EvSleep 1) (w_emit EvHarnessTick w))) with (wait_round w).
  destruct (negb (Qle_bool (wall (wait_round w) - start) 45)); reflexivity.
Qed.

Lemma never_ready_next h n : never_ready h (S n) -> never_ready (ticked 1 h) n.
Proof.
  intros H j Hj. simpl.
  replace (harness_ticks h + 1 + j)%nat with (harness_ticks h + S j)%nat by lia.
  apply H. lia.
Qed.

Lemma never_ready_now h n : never_ready h (S n) -> ready h = false.
Proof.
  intros H. specialize (H 0%nat ltac:(lia)). rewrite Nat.add_0_r in H. exact H.
Qed.

(** A harness that stays unready is given up on in round 45, when the
    rounds before it kept within their seconds. *)
Lemma wait_loop_timeout n : forall fuel self w0 h k,
  self_harness self = Some h ->
  (k + n = 45)%nat -> (0 < n)%nat -> (n <= fuel)%nat ->
  never_ready h n -> prompt w0 ->
  wait_loop fuel (wall w0) (self, after_rounds wait_round k w0)
  = (Ret false,
     (set_harness (Some (ticked n h)) self,
      w_emit (EvPrint "Harness init timed out.") (after_rounds wait_round (k + n) w0))).
Proof.
  induction n as [|n IH]; intros fuel self w0 h k Hh Hk Hn Hfuel Hnr Hp; [lia |].
  destruct fuel as [|fuel]; [lia |].
  rewrite (wait_loop_round fuel (wall w0) self _ h Hh).
  rewrite (never_ready_now h n Hnr), <- after_rounds_snoc.
  destruct n as [|n].
  - rewrite (watchdog_fires (S k) w0) by lia.
    replace (k + 1)%nat with (S k) by lia. reflexivity.
  - rewrite (watchdog_waits (S k) w0 Hp) by lia.
    rewrite (IH fuel (set_harness (Some (ticked 1 h)) self) w0 (ticked 1 h) (S k));
      [| reflexivity | lia | lia | lia | by apply never_ready_next | exact Hp].
    rewrite set_harness_twice, ticked_ticked.
    replace (S k + S n)%nat with (k + S (S n))%nat by lia. reflexivity.
Qed.

(** Whatever the effects cost, it is given up on in round 45 at the
    latest. *)
Lemma wait_loop_gives_up n : forall fuel self w0 h k,
  self_harness self = Some h ->
  (k + n = 45)%nat -> (0 < n)%nat -> (n <= fuel)%nat ->
  never_ready h n ->
  exists m, (1 <= m <= n)%nat /\
    wait_loop fuel (wall w0) (self, after_rounds wait_round k w0)
    = (Ret false,
       (set_harness (Some (ticked m h)) self,
        w_emit (EvPrint "Harness init timed out.") (after_rounds wait_round (k + m) w0))).
Proof.
  induction n as [|n IH]; intros fuel self w0 h k Hh Hk Hn Hfuel Hnr; [lia |].
  destruct fuel as [|fuel]; [lia |].
  rewrite (wait_loop_round fuel (wall w0) self _ h Hh).
  rewrite (never_ready_now h n Hnr), <- after_rounds_snoc.
  destruct (negb (Qle_bool (wall (after_rounds wait_round (S k) w0) - wall w0) 45)) eqn:E.
  - exists 1%nat. split; [lia |]. replace (k + 1)%nat with (S k) by lia. reflexivity.
  - destruct n as [|n]; [rewrite (watchdog_fires (S k) w0) in E by lia; discriminate |].
    destruct (IH fuel (set_harness (Some (ticked 1 h)) self) w0 (ticked 1 h) (S k))
      as (m & Hm & Em); [reflexivity | lia | lia | lia | by apply never_ready_next |].
    exists (S m). split; [lia |]. rewrite Em, set_harness_twice, ticked_ticked.
    replace (S k + m)%nat with (k + S m)%nat by lia. reflexivity.
Qed.

(** A harness that gets ready within 44 rounds is waited for. *)
Lemma wait_loop_ready r : forall fuel self w0 h k,
  self_harness self = Some h ->
  (k + r <= 44)%nat -> (r < fuel)%nat ->
  never_ready h r -> ready_after h (harness_ticks h + r)%nat = true ->
  prompt w0 ->
  wait_loop fuel (wall w0) (self, after_rounds wait_round k w0)
  = (Ret true, (set_harness (Some (ticked r h)) self, after_rounds wait_round (k + r) w0)).
Proof.
  induction r as [|r IH]; intros fuel self w0 h k Hh Hk Hfuel Hnr Hr Hp;
    (destruct fuel as [|fuel]; [lia |]);
    rewrite (wait_loop_round fuel (wall w0) self _ h Hh).
  - rewrite Nat.add_0_r in Hr. unfold ready. rewrite Hr.
    rewrite (set_harness_same self h Hh), Nat.add_0_r. reflexivity.
  - rewrite (never_ready_now h r Hnr), <- after_rounds_snoc.
    rewrite (watchdog_waits (S k) w0 Hp) by lia.
    rewrite (IH fuel (set_harness (Some (ticked 1 h)) self) w0 (ticked 1 h) (S k));
      [| reflexivity | lia | lia | by apply never_ready_next
       | simpl; replace (harness_ticks h + 1 + r)%nat with (harness_ticks h + S r)%nat
           by lia; exact Hr
       | exact Hp].
    rewrite set_harness_twice, ticked_ticked.
    replace (S k + r)%nat with (k + S r)%nat by lia. reflexivity.
Qed.

(** ** Reset: one attempt, and the retries *)

Lemma run_harness_cleanup self w h :
  self_harness self = Some h ->
  harness_cleanup (self, w) = (Ret tt, (self, w_emit EvHarnessCleanup w)).
Proof. intros H. unfold harness_cleanup. eapply run_keyboard; eassumption. Qed.

Lemma run_teardown self0 self w :
  self_harness self = self_harness self0 ->
  match self_harness self0 with
  | Some _ => set_held_keys ∅;; sleep 0.1;; harness_cleanup;; sleep 1
  | None => pure tt
  end (self, w) = (Ret tt, (self, teardown_world self0 w)).
Proof.
  intros H. unfold teardown_world. destruct (self_harness self0) as [h|]; [| reflexivity].
  run_with ltac:(eapply run_keyboard; eassumption).
  run_with ltac:(apply run_sleep; apply Qle_bool_iff; reflexivity).
  run_with ltac:(eapply run_harness_cleanup; eassumption).
  apply run_sleep. apply Qle_bool_iff. reflexivity.
Qed.

(** A reset attempt up to the wait for the new harness. *)
Lemma try_reset_env_until_wait b self w :
  _try_reset_env b (self, w)
  = (harness_init ← _wait_for_harness_init;
     if negb harness_init
     then harness_cleanup;; modify_self (set_harness None);; pure false
     else _env_init b;; pure true) (attempt_self self w, attempt_world self w).
Proof.
  unfold _try_reset_env.
  run_with ltac:(reflexivity).
  run_with ltac:(reflexivity).
  run_with ltac:(reflexivity).
  run_with ltac:(reflexivity).
  run_with ltac:(reflexivity).
  run_with ltac:(reflexivity).
  run_with ltac:(apply (run_teardown self); reflexivity).
  run_with ltac:(reflexivity).
  run_with ltac:(reflexivity).
  run_with ltac:(reflexivity).
  unfold attempt_self, attempt_world, attempt_dir, teardown_world.
  destruct (self_harness self); reflexivity.
Qed.

Lemma run_wait_for_harness_init self w :
  _wait_for_harness_init (self, w) = wait_loop watchdog_rounds (wall w) (self, w).
Proof. unfold _wait_for_harness_init. run_with ltac:(reflexivity). reflexivity. Qed.

Lemma launch_fails_never_ready w :
  launch_fails w 0 ->
  never_ready (mkHarness (harness_src w (launched w)) 0) watchdog_rounds.
Proof.
  intros H j Hj. simpl. specialize (H j Hj). rewrite Nat.add_0_r in H. exact H.
Qed.

Lemma cost_attempt_world self w : cost (attempt_world self w) = cost w.
Proof. unfold attempt_world, teardown_world. destruct (self_harness self); reflexivity. Qed.

Lemma prompt_attempt_world self w : prompt w -> prompt (attempt_world self w).
Proof. unfold prompt. rewrite cost_attempt_world. auto. Qed.

Lemma gave_up_after self w k :
  (harness_cleanup;; modify_self (set_harness None);; pure false)
    (set_harness (Some (ticked k (mkHarness (harness_src w (launched w)) 0)))
                 (attempt_self self w),
     w_emit (EvPrint "Harness init timed out.")
       (after_rounds wait_round k (attempt_world self w)))
  = (Ret false, gave_up k (self, w)).
Proof.
  run_with ltac:(eapply run_harness_cleanup; reflexivity).
  run_with ltac:(reflexivity).
  reflexivity.
Qed.

(** An attempt whose harness does not get ready in time, the rounds
    keeping within their seconds: the watchdog fires in round 45. *)
Lemma try_reset_env_timeout b self w :
  launch_fails w 0 -> prompt w ->
  _try_reset_env b (self, w) = (Ret false, timed_out (self, w)).
Proof.
  intros Hf Hp. rewrite try_reset_env_until_wait.
  run_with ltac:(
    rewrite run_wait_for_harness_init;
    apply (wait_loop_timeout watchdog_rounds watchdog_rounds _ (attempt_world self w)
             (mkHarness (harness_src w (launched w)) 0) 0);
    [ reflexivity | reflexivity | unfold watchdog_rounds; lia | lia
    | by apply launch_fails_never_ready | by apply prompt_attempt_world ]).
  cbn [negb]. apply (gave_up_after self w watchdog_rounds).
Qed.

(** Whatever the effects cost, the watchdog fires in round 45 at the
    latest. *)
Lemma try_reset_env_gives_up b self w :
  launch_fails w 0 ->
  exists k, (1 <= k <= 45)%nat /\
            _try_reset_env b (self, w) = (Ret false, gave_up k (self, w)).
Proof.
  intros Hf. rewrite try_reset_env_until_wait.
  destruct (wait_loop_gives_up watchdog_rounds watchdog_rounds (attempt_self self w)
              (attempt_world self w) (mkHarness (harness_src w (launched w)) 0) 0)
    as (k & Hk & E);
    [ reflexivity | reflexivity | unfold watchdog_rounds; lia | lia
    | by apply launch_fails_never_ready |].
  exists k. split; [unfold watchdog_rounds in Hk; lia |].
  run_with ltac:(rewrite run_wait_for_harness_init; exact E).
  cbn [negb]. apply (gave_up_after self w k).
Qed.

Lemma run_env_init b self w h :
  self_harness self = Some h ->
  _env_init b (self, w) = (Ret tt, (set_state (Some RUNNING) self, init_world b w)).
Proof.
  intros H. unfold _env_init, init_world. destruct b; cbn [negb].
  - run_with ltac:(reflexivity). reflexivity.
  - unfold _run_init_sequence.
    run_with ltac:(
      run_with ltac:(apply run_sleep; apply Qle_bool_iff; reflexivity);
      run_with ltac:(eapply run_keyboard; eassumption);
      run_with ltac:(eapply run_keyboard; eassumption);
      apply run_sleep; apply Qle_bool_iff; reflexivity).
    reflexivity.
Qed.

(** An attempt whose harness is ready after [r] ticks, [r <= 44]. *)
Lemma try_reset_env_ready b self w r :
  (r < watchdog_rounds)%nat -> prompt w ->
  (forall j, (j < r)%nat -> harness_src w (launched w) j = false) ->
  harness_src w (launched w) r = true ->
  _try_reset_env b (self, w)
  = (Ret true,
     (set_state (Some RUNNING)
        (set_harness (Some (mkHarness (harness_src w (launched w)) r)) (attempt_self self w)),
      init_world b (after_rounds wait_round r (attempt_world self w)))).
Proof.
  intros Hr Hp Hnot Hready. rewrite try_reset_env_until_wait.
  run_with ltac:(
    rewrite run_wait_for_harness_init;
    apply (wait_loop_ready r watchdog_rounds _ (attempt_world self w)
             (mkHarness (harness_src w (launched w)) 0) 0);
    [ reflexivity | unfold watchdog_rounds in Hr; lia | exact Hr
    | intros j Hj; simpl; by apply Hnot | simpl; exact Hready
    | by apply prompt_attempt_world ]).
  cbn [negb].
  run_with ltac:(eapply run_env_init; reflexivity).
  reflexivity.
Qed.

Lemma attempt_world_facts self w :
  launched (attempt_world self w) = S (launched w) /\
  harness_src (attempt_world self w) = harness_src w /\
  trace (attempt_world self w) = trace w ++ attempt_events self.
Proof.
  unfold attempt_world, attempt_events, teardown_world, teardown_events.
  destruct (self_harness self); repeat split; simpl; rewrite <- ?app_assoc; reflexivity.
Qed.

Lemma launched_emit e w : launched (w_emit e w) = launched w.
Proof. reflexivity. Qed.

Lemma harness_src_emit e w : harness_src (w_emit e w) = harness_src w.
Proof. reflexivity. Qed.

Lemma cost_emit e w : cost (w_emit e w) = cost w.
Proof. reflexivity. Qed.

Lemma gave_up_facts k self w :
  self_harness (fst (gave_up k (self, w))) = None /\
  launched (snd (gave_up k (self, w))) = S (launched w) /\
  harness_src (snd (gave_up k (self, w))) = harness_src w /\
  cost (snd (gave_up k (self, w))) = cost w /\
  trace (snd (gave_up k (self, w)))
  = trace w ++ attempt_events self ++ times k wait_round_events
    ++ [timeout_message; EvHarnessCleanup].
Proof.
  destruct (attempt_world_facts self w) as (H1 & H2 & H3).
  destruct (after_wait_rounds k (attempt_world self w)) as (A1 & A2 & _ & A4).
  destruct (after_wait_rounds_cost k (attempt_world self w)) as (A5 & _).
  unfold gave_up. cbn [fst snd].
  split; [reflexivity |].
  rewrite !launched_emit, !harness_src_emit, !cost_emit, !trace_emit,
    A1, A2, A4, A5, H1, H2, H3, cost_attempt_world.
  repeat split. rewrite <- !app_assoc. reflexivity.
Qed.

Lemma timed_out_facts self w :
  self_harness (fst (timed_out (self, w))) = None /\
  launched (snd (timed_out (self, w))) = S (launched w) /\
  harness_src (snd (timed_out (self, w))) = harness_src w /\
  trace (snd (timed_out (self, w)))
  = trace w ++ attempt_events self ++ times watchdog_rounds wait_round_events
    ++ [timeout_message; EvHarnessCleanup].
Proof.
  destruct (gave_up_facts watchdog_rounds self w) as (H1 & H2 & H3 & _ & H5).
  repeat split; assumption.
Qed.

Lemma retried_facts st :
  self_harness (fst (retried st)) = None /\
  launched (snd (retried st)) = S (launched (snd st)) /\
  harness_src (snd (retried st)) = harness_src (snd st) /\
  cost (snd (retried st)) = cost (snd st).
Proof.
  destruct st as [self w].
  destruct (gave_up_facts watchdog_rounds self w) as (H1 & H2 & H3 & H4 & _).
  unfold retried. change (timed_out (self, w)) with (gave_up watchdog_rounds (self, w)).
  revert H1 H2 H3 H4. generalize (gave_up watchdog_rounds (self, w)).
  intros [self' w'] H1 H2 H3 H4. cbn [fst snd] in *.
  rewrite launched_emit, harness_src_emit, cost_emit. auto.
Qed.

Lemma launch_fails_retried st k :
  launch_fails (snd st) (S k) -> launch_fails (snd (retried st)) k.
Proof.
  destruct (retried_facts st) as (_ & H2 & H3 & _).
  intros H j Hj. rewrite H3, H2.
  replace (S (launched (snd st)) + k)%nat with (launched (snd st) + S k)%nat by lia.
  by apply H.
Qed.

Lemma prompt_retried st : prompt (snd st) -> prompt (snd (retried st)).
Proof. destruct (retried_facts st) as (_ & _ & _ & H). unfold prompt. rewrite H. auto. Qed.

Lemma retried_times_launched n : forall st,
  launched (snd (retried_times n st)) = (launched (snd st) + n)%nat /\
  harness_src (snd (retried_times n st)) = harness_src (snd st).
Proof.
  induction n as [|n IH]; intros st; simpl.
  - split; [lia | reflexivity].
  - destruct (IH (retried st)) as (H1 & H2). destruct (retried_facts st) as (_ & R2 & R3 & _).
    rewrite H1, H2, R2, R3. split; [lia | reflexivity].
Qed.

Lemma launched_init_world b w : launched (init_world b w) = launched w.
Proof. destruct b; reflexivity. Qed.

Lemma reset_attempts_round n b self w :
  launch_fails w 0 -> prompt w ->
  reset_attempts (S n) b (self, w) = reset_attempts n b (retried (self, w)).
Proof.
  intros Hf Hp. simpl reset_attempts.
  run_with ltac:(by apply try_reset_env_timeout).
  run_with ltac:(reflexivity).
  reflexivity.
Qed.

(** Every attempt times out: the loop gives up with a RuntimeError. *)
Lemma reset_attempts_exhausted n b : forall st,
  prompt (snd st) ->
  (forall i, (i < n)%nat -> launch_fails (snd st) i) ->
  reset_attempts n b st
  = (Raise (RuntimeError "Failed to reset NoitaEnv."), retried_times n st).
Proof.
  induction n as [|n IH]; intros [self w] Hp Hf; [reflexivity |].
  rewrite reset_attempts_round by (first [apply (Hf 0%nat); lia | exact Hp]).
  simpl retried_times. apply IH.
  - by apply prompt_retried.
  - intros i Hi. apply launch_fails_retried, Hf. lia.
Qed.

(** [k] attempts time out, the next harness is ready after [r] ticks. *)
Lemma reset_attempts_recovers n b k r : forall st,
  (k < n)%nat -> (r < watchdog_rounds)%nat -> prompt (snd st) ->
  (forall i, (i < k)%nat -> launch_fails (snd st) i) ->
  (forall j, (j < r)%nat -> harness_src (snd st) (launched (snd st) + k)%nat j = false) ->
  harness_src (snd st) (launched (snd st) + k)%nat r = true ->
  exists st', reset_attempts n b st = (Ret tt, st') /\
              self_state (fst st') = Some RUNNING /\ self_ep_step (fst st') = 0 /\
              launched (snd st') = (launched (snd st) + S k)%nat.
Proof.
  revert n. induction k as [|k IH]; intros n [self w] Hk Hr Hp Hf Hnot Hready;
    (destruct n as [|n]; [lia |]).
  - cbn [snd] in *. rewrite Nat.add_0_r in Hnot, Hready.
    eexists. split.
    + simpl reset_attempts.
      run_with ltac:(by apply (try_reset_env_ready b self w r)).
      reflexivity.
    + cbn [fst snd]. split; [reflexivity |]. split; [reflexivity |].
      destruct (attempt_world_facts self w) as (H1 & _).
      destruct (after_wait_rounds r (attempt_world self w)) as (A1 & _).
      rewrite launched_init_world, A1, H1. lia.
  - rewrite reset_attempts_round by (first [apply (Hf 0%nat); lia | exact Hp]).
    destruct (retried_facts (self, w)) as (_ & R2 & R3 & _).
    destruct (IH n (retried (self, w))) as (st' & E & S1 & S2 & S3).
    + lia.
    + exact Hr.
    + by apply prompt_retried.
    + intros i Hi. apply launch_fails_retried, Hf. lia.
    + intros j Hj. rewrite R3, R2.
      replace (S (launched (snd (self, w))) + k)%nat
        with (launched (snd (self, w)) + S k)%nat by lia.
      by apply Hnot.
    + rewrite R3, R2.
      replace (S (launched (snd (self, w))) + k)%nat
        with (launched (snd (self, w)) + S k)%nat by lia.
      exact Hready.
    + exists st'. rewrite S3, R2. repeat split; auto; lia.
Qed.

(** Whatever the effects cost: [n] attempts on harnesses that stay unready
    end in the RuntimeError, each having used an episode number. *)
Lemma reset_attempts_fail n b : forall st,
  (forall i, (i < n)%nat -> launch_fails (snd st) i) ->
  exists st',
    reset_attempts n b st = (Raise (RuntimeError "Failed to reset NoitaEnv."), st') /\
    self_ep_num (fst st') = self_ep_num (fst st) + Z.of_nat n /\
    self_env_step (fst st') = self_env_step (fst st) /\
    (n = 0%nat -> st' = st) /\
    ((0 < n)%nat ->
     self_harness (fst st') = None /\ self_ep_step (fst st') = 0 /\
     self_state (fst st') = Some UNKNOWN).
Proof.
  induction n as [|n IH]; intros [self w] Hf.
  - exists (self, w). repeat split; auto; try (cbn [fst]; lia).
  - destruct (try_reset_env_gives_up b self w (Hf 0%nat ltac:(lia))) as (k & _ & E).
    destruct (gave_up_facts k self w) as (G1 & G2 & G3 & _).
    assert (Gs : self_ep_num (fst (gave_up k (self, w))) = self_ep_num self + 1 /\
                 self_env_step (fst (gave_up k (self, w))) = self_env_step self /\
                 self_ep_step (fst (gave_up k (self, w))) = 0 /\
                 self_state (fst (gave_up k (self, w))) = Some UNKNOWN)
      by (repeat split).
    revert E G1 G2 G3 Gs. generalize (gave_up k (self, w)).
    intros [self1 w1] E G1 G2 G3 (G4 & G5 & G6 & G7). cbn [fst snd] in *.
    destruct (IH (self1, w_emit retry_message w1)) as (st' & E' & I1 & I2 & I3 & I4).
    { intros i Hi j Hj. cbn [snd]. rewrite harness_src_emit, launched_emit, G2, G3.
      replace (S (launched w) + i)%nat with (launched w + S i)%nat by lia.
      apply (Hf (S i)); [lia | exact Hj]. }
    exists st'. cbn [fst snd] in *. split.
    + simpl reset_attempts.
      run_with ltac:(exact E).
      run_with ltac:(reflexivity).
      exact E'.
    + rewrite I1, I2, G4, G5. split; [lia |]. split; [reflexivity |].
      split; [lia |]. intros _.
      destruct n as [|n].
      * rewrite (I3 eq_refl). cbn [fst]. auto.
      * apply I4. lia.
Qed.

Lemma run_reset_env b self w :
  _reset_env b (self, w)
  = reset_attempts 3 b (self, w_emit (EvSetSpeedup 1 (str (self_instance self))) w).
Proof.
  unfold _reset_env.
  run_with ltac:(reflexivity).
  run_with ltac:(reflexivity).
  reflexivity.
Qed.

Lemma cost_upto_unit n : cost_upto (fun _ => 1%positive) n = Z.of_nat n.
Proof. induction n as [|n IH]; [reflexivity |]. simpl cost_upto. lia. Qed.

Lemma prompt_unit_cost w : cost w = (fun _ => 1%positive) -> prompt w.
Proof. intros E a. rewrite E, !cost_upto_unit. lia. Qed.

(** C4.  [_reset_env] makes at most three attempts.  An attempt ticks the
    new harness and sleeps one second per round for as long as the harness
    is not ready; after each round it reads the wall clock and gives up
    once more than 45 seconds have passed since the wait began.  As every
    round takes more than its second, an attempt never makes more than 45
    rounds: a harness still unready after 44 ticks is given up on, the
    attempt prints the time-out, cleans the harness up, drops it and returns
    [False] without raising.  When the ticks and sleeps of 44 rounds take
    less than a second between them beyond what is slept, the watchdog
    fires in round 45 exactly (44 rounds are within the 45 seconds, 45 are
    not) and a harness that gets ready within 44 rounds is accepted.  Three
    attempts that time out in a row end in the RuntimeError "Failed to
    reset NoitaEnv."; if fewer than three time out and the next harness
    gets ready, the reset returns. *)
Theorem reset_retries_under_watchdog (b : bool) (self : NoitaEnv) (w : World) :
  (launch_fails w 0 ->
   exists k, (1 <= k <= 45)%nat /\
     _try_reset_env b (self, w) = (Ret false, gave_up k (self, w)) /\
     self_harness (fst (gave_up k (self, w))) = None /\
     trace (snd (gave_up k (self, w)))
     = trace w ++ attempt_events self ++ times k wait_round_events
       ++ [timeout_message; EvHarnessCleanup]) /\
  (launch_fails w 0 -> prompt w ->
   _try_reset_env b (self, w) = (Ret false, timed_out (self, w)) /\
   timed_out (self, w) = gave_up 45 (self, w) /\
   (wall (after_rounds wait_round 44 (attempt_world self w)) - wall (attempt_world self w)
    <= 45)%Q /\
   (45 < wall (after_rounds wait_round 45 (attempt_world self w))
         - wall (attempt_world self w))%Q) /\
  (forall r, (r <= 44)%nat -> prompt w ->
     (forall j, (j < r)%nat -> harness_src w (launched w) j = false) ->
     harness_src w (launched w) r = true ->
     _try_reset_env b (self, w)
     = (Ret true,
        (set_state (Some RUNNING)
           (set_harness (Some (mkHarness (harness_src w (launched w)) r))
                        (attempt_self self w)),
         init_world b (after_rounds wait_round r (attempt_world self w))))) /\
  ((forall i, (i < 3)%nat -> launch_fails w i) ->
   (exists st', _reset_env b (self, w)
                = (Raise (RuntimeError "Failed to reset NoitaEnv."), st') /\
                self_harness (fst st') = None) /\
   (prompt w ->
    _reset_env b (self, w)
    = (Raise (RuntimeError "Failed to reset NoitaEnv."),
       retried_times 3 (self, w_emit (EvSetSpeedup 1 (str (self_instance self))) w)) /\
    launched (snd (retried_times 3
                     (self, w_emit (EvSetSpeedup 1 (str (self_instance self))) w)))
    = (launched w + 3)%nat)) /\
  (forall k r, (k < 3)%nat -> (r <= 44)%nat -> prompt w ->
     (forall i, (i < k)%nat -> launch_fails w i) ->
     (forall j, (j < r)%nat -> harness_src w (launched w + k)%nat j = false) ->
     harness_src w (launched w + k)%nat r = true ->
     exists st', _reset_env b (self, w) = (Ret tt, st') /\
                 self_state (fst st') = Some RUNNING /\ self_ep_step (fst st') = 0 /\
                 launched (snd st') = (launched w + S k)%nat).
Proof.
  split; [| split; [| split; [| split]]].
  - intros Hf. destruct (try_reset_env_gives_up b self w Hf) as (k & Hk & E).
    exists k. destruct (gave_up_facts k self w) as (H1 & _ & _ & _ & H5). auto.
  - intros Hf Hp. split; [by apply try_reset_env_timeout |]. split; [reflexivity |].
    pose proof (prompt_attempt_world self w Hp) as Hp'. split.
    + pose proof (watchdog_waits 44 (attempt_world self w) Hp' ltac:(lia)) as Hw.
      apply negb_false_iff, Qle_bool_iff in Hw. exact Hw.
    + pose proof (watchdog_fires 45 (attempt_world self w) ltac:(lia)) as Hw.
      apply negb_true_iff in Hw. apply Qnot_le_lt. intros Hle.
      apply Qle_bool_iff in Hle. congruence.
  - intros r Hr Hp Hnot Hready. apply try_reset_env_ready; auto.
    unfold watchdog_rounds. lia.
  - intros Hf. split.
    + rewrite run_reset_env.
      destruct (reset_attempts_fail 3 b
                  (self, w_emit (EvSetSpeedup 1 (str (self_instance self))) w))
        as (st' & E & _ & _ & _ & H); [intros i Hi; exact (Hf i Hi) |].
      exists st'. split; [exact E | apply H; lia].
    + intros Hp. rewrite run_reset_env. split.
      * apply reset_attempts_exhausted; [exact Hp | intros i Hi; exact (Hf i Hi)].
      * destruct (retried_times_launched 3
                    (self, w_emit (EvSetSpeedup 1 (str (self_instance self))) w)) as (H1 & _).
        rewrite H1. reflexivity.
  - intros k r Hk Hr Hp Hf Hnot Hready. rewrite run_reset_env.
    apply (reset_attempts_recovers 3 b k r
             (self, w_emit (EvSetSpeedup 1 (str (self_instance self))) w));
      auto; unfold watchdog_rounds; lia.
Qed.

Lemma reset_retries_under_watchdog_witness :
  (forall i, (i < 3)%nat -> launch_fails unresponsive i) /\
  prompt unresponsive /\
  fst (_reset_env false (blank, unresponsive))
  = Raise (RuntimeError "Failed to reset NoitaEnv.").
Proof.
  assert (Hf : forall i, (i < 3)%nat -> launch_fails unresponsive i)
    by (intros i _ j _; reflexivity).
  assert (Hp : prompt unresponsive) by (apply prompt_unit_cost; reflexivity).
  split; [exact Hf |]. split; [exact Hp |].
  destruct (proj2 (proj1 (proj2 (proj2 (proj2
              (reset_retries_under_watchdog false blank unresponsive)))) Hf) Hp) as [E _].
  rewrite E. reflexivity.
Defined.

(** ** The time-control writer *)

Lemma str_inj (a b : Z) : str a = str b -> a = b.
Proof.
  unfold str. intros H.
  assert (Hnn : forall z, Z.to_int z <> Decimal.Pos Decimal.Nil /\
                          Z.to_int z <> Decimal.Neg Decimal.Nil).
  { intros [|p|p]; simpl; split; try discriminate;
      intros [= E]; exact (DecimalPos.Unsigned.to_uint_nonnil p E). }
  apply DecimalZ.to_int_inj.
  assert (E : Some (Z.to_int a) = Some (Z.to_int b)).
  { rewrite <- (NilZero.isi (Z.to_int a)), <- (NilZero.isi (Z.to_int b)), H
      by apply Hnn. reflexivity. }
  congruence.
Qed.

Lemma append_inj_r (p a b : string) : p +:+ a = p +:+ b -> a = b.
Proof. induction p as [|c p IH]; simpl; [auto | intros [= E]; auto]. Qed.

Lemma channel_path_inj (a b : string) :
  TimeWriter.channel_path a = TimeWriter.channel_path b -> a = b.
Proof. apply append_inj_r. Qed.

Lemma artifact_path_ne (i j : Z) :
  i <> j -> TimeWriter.channel_path (str i) <> TimeWriter.channel_path (str j).
Proof. intros H E. apply H, str_inj, channel_path_inj, E. Qed.

Lemma write_speedup_here path x fs bs :
  TimeWriter.pack_f x = Ret bs ->
  snd (TimeWriter.write_speedup path x fs) !! path = Some bs.
Proof.
  intros H. unfold TimeWriter.write_speedup. rewrite H. simpl.
  by rewrite lookup_insert_eq.
Qed.

Lemma write_speedup_elsewhere path path' x (fs : gmap string (list Byte.byte)) :
  path <> path' ->
  snd (TimeWriter.write_speedup path x fs) !! path' = fs !! path'.
Proof.
  intros H. unfold TimeWriter.write_speedup.
  destruct (TimeWriter.pack_f x); simpl; by rewrite !lookup_insert_ne.
Qed.

(** Writes for instances other than [i], one after the other. *)
Lemma writes_elsewhere i (others : list (spec_float * Z)) :
  Forall (fun o => snd o <> i) others ->
  forall fs,
    TimeWriter.read_artifact i
      (fold_left (fun fs o => snd (TimeWriter.set_speed (fst o) (snd o) fs)) others fs)
    = TimeWriter.read_artifact i fs.
Proof.
  induction 1 as [|[m j] others Hj _ IH]; intros fs; simpl; [reflexivity |].
  rewrite IH. unfold TimeWriter.read_artifact, TimeWriter.set_speed, TimeWriter.SetSpeedup.
  apply write_speedup_elsewhere, artifact_path_ne. exact Hj.
Qed.

(** C8.  [set_speed(m, i)] leaves the four little-endian bytes of the
    binary32 encoding of [m] in the artifact of instance [i], whatever the
    artifact held before; a write for another instance does not touch it.
    For m = 2.5 and i = 3 the bytes are 00 00 20 40 (the word 0x40200000),
    and they are still what instance 3's artifact holds after any number of
    writes for other instances.  The one-argument writer of
    src/time_writer.py produces the same bytes, in one shared file. *)
Theorem set_speed_last_write_wins :
  (forall m i fs bs,
     TimeWriter.pack_f m = Ret bs ->
     TimeWriter.read_artifact i (snd (TimeWriter.set_speed m i fs)) = Some bs /\
     length bs = 4%nat) /\
  (forall m i j fs,
     i <> j ->
     TimeWriter.read_artifact j (snd (TimeWriter.set_speed m i fs))
     = TimeWriter.read_artifact j fs) /\
  TimeWriter.pack_f (S754_finite false 5 (-1))
  = Ret [Byte.x00; Byte.x00; Byte.x20; Byte.x40] /\
  (TimeWriter.SF2Q (S754_finite false 5 (-1)) == 2.5)%Q /\
  TimeWriter.bits_of_binary32 (TimeWriter.to_binary32 (S754_finite false 5 (-1)))
  = 0x40200000 /\
  (forall fs others,
     Forall (fun o => snd o <> 3) others ->
     TimeWriter.read_artifact 3
       (fold_left (fun fs o => snd (TimeWriter.set_speed (fst o) (snd o) fs)) others
          (snd (TimeWriter.set_speed (S754_finite false 5 (-1)) 3 fs)))
     = Some [Byte.x00; Byte.x00; Byte.x20; Byte.x40]) /\
  (forall fs,
     snd (TimeWriter.SetSpeedup1 (S754_finite false 5 (-1)) fs) !! "/tmp/time_control"
     = Some [Byte.x00; Byte.x00; Byte.x20; Byte.x40]).
Proof.
  split; [| split; [| split; [| split; [| split; [| split]]]]].
  - intros m i fs bs H. split; [by apply write_speedup_here |].
    unfold TimeWriter.pack_f in H.
    destruct m, (TimeWriter.to_binary32 _); inversion H; reflexivity.
  - intros m i j fs H. apply write_speedup_elsewhere, artifact_path_ne, H.
  - reflexivity.
  - reflexivity.
  - reflexivity.
  - intros fs others H. rewrite writes_elsewhere by exact H.
    by apply write_speedup_here.
  - intros fs. by apply write_speedup_here.
Qed.

Lemma set_speed_last_write_wins_witness :
  TimeWriter.pack_f (S754_finite false 1 2) = Ret [Byte.x00; Byte.x00; Byte.x80; Byte.x40] /\
  TimeWriter.read_artifact 0
    (snd (TimeWriter.set_speed (S754_finite false 1 2) 0
            (snd (TimeWriter.set_speed (S754_finite false 5 (-1)) 0 ∅))))
  = Some [Byte.x00; Byte.x00; Byte.x80; Byte.x40] /\
  TimeWriter.read_artifact 3
    (snd (TimeWriter.set_speed (S754_finite false 1 2) 0
            (snd (TimeWriter.set_speed (S754_finite false 5 (-1)) 3 ∅))))
  = Some [Byte.x00; Byte.x00; Byte.x20; Byte.x40].
Proof.
  split; [reflexivity |]. split.
  - apply (proj1 (proj1 set_speed_last_write_wins (S754_finite false 1 2) 0
                    (snd (TimeWriter.set_speed (S754_finite false 5 (-1)) 0 ∅))
                    [Byte.x00; Byte.x00; Byte.x80; Byte.x40] eq_refl)).
  - rewrite (proj1 (proj2 set_speed_last_write_wins) (S754_finite false 1 2) 0 3
               (snd (TimeWriter.set_speed (S754_finite false 5 (-1)) 3 ∅))
               ltac:(discriminate)).
    apply (proj1 (proj1 set_speed_last_write_wins (S754_finite false 5 (-1)) 3 ∅
                    [Byte.x00; Byte.x00; Byte.x20; Byte.x40] eq_refl)).
Defined.

(** * Further properties of the code *)

(** ** The Art of Rally reward *)

Lemma str_nonneg_digits (n : Z) :
  0 <= n ->
  exists d, str n = NilEmpty.string_of_uint d /\ d <> Decimal.Nil /\ Z.of_uint d = n.
Proof.
  intros Hn. unfold str.
  destruct n as [|p|p]; [| | lia].
  - exists (Decimal.D0 Decimal.Nil). repeat split. discriminate.
  - exists (Pos.to_uint p). split; [| split].
    + simpl. pose proof (DecimalPos.Unsigned.to_uint_nonnil p) as H.
      destruct (Pos.to_uint p); [congruence | reflexivity..].
    + apply DecimalPos.Unsigned.to_uint_nonnil.
    + exact (DecimalZ.of_to (Z.pos p)).
Qed.

Lemma string_of_uint_nonempty d : d <> Decimal.Nil -> NilEmpty.string_of_uint d <> "".
Proof. destruct d; simpl; congruence. Qed.

Lemma isnumeric_str (n : Z) :
  0 <= n -> ArtOfRally.isnumeric (str n) = true /\ ArtOfRally.int_of_digits (str n) = n.
Proof.
  intros Hn. destruct (str_nonneg_digits n Hn) as (d & E & Hd & Hv).
  unfold ArtOfRally.isnumeric, ArtOfRally.int_of_digits. rewrite E, NilEmpty.usu.
  split; [| exact Hv].
  destruct (NilEmpty.string_of_uint d) eqn:Es; [| reflexivity].
  by apply string_of_uint_nonempty in Es.
Qed.

Lemma int_of_digits_nonneg s : 0 <= ArtOfRally.int_of_digits s.
Proof.
  unfold ArtOfRally.int_of_digits. destruct (NilEmpty.uint_of_string s); [| lia].
  unfold Z.of_uint. lia.
Qed.

(** What [_compute_reward] returns for a reading that is numeric. *)
Lemma compute_reward_numeric s rev pen pv :
  ArtOfRally.isnumeric s = true ->
  ArtOfRally._compute_reward (Some s) rev pen pv
  = Some ((if negb (Qle_bool (snd rev) (fst rev))
           then - ArtOfRally.int_of_digits s else ArtOfRally.int_of_digits s)
          - (if negb (Qle_bool (snd pen) (fst pen)) then pv else 0),
          if negb (Qle_bool (snd rev) (fst rev))
          then - ArtOfRally.int_of_digits s else ArtOfRally.int_of_digits s).
Proof.
  intros H. unfold ArtOfRally._compute_reward. rewrite H. simpl negb. cbv iota.
  destruct (negb (Qle_bool (snd rev) (fst rev))); f_equal; f_equal; lia.
Qed.

(** X1.  A speed reading that is the decimal text of a number [n >= 0]
    is read back as [n]: [_compute_reward] returns the signed speed
    ([-n] when the reverse classifier says yes) less the penalty (when the
    penalty classifier says yes), and the signed speed. *)
Theorem compute_reward_of_number (n : Z) (rev pen : Q * Q) (pv : Z) :
  0 <= n ->
  ArtOfRally._compute_reward (Some (str n)) rev pen pv
  = Some ((if ArtOfRally.says_yes rev then - n else n)
          - (if ArtOfRally.says_yes pen then pv else 0),
          if ArtOfRally.says_yes rev then - n else n).
Proof.
  intros Hn. destruct (isnumeric_str n Hn) as [Hnum Hval].
  rewrite (compute_reward_numeric _ rev pen pv Hnum), Hval. reflexivity.
Qed.

Lemma compute_reward_of_number_witness :
  0 <= 42 /\
  ArtOfRally._compute_reward (Some (str 42)) (0.2, 0.8)%Q (0.1, 0.9)%Q 25
  = Some (-67, -42).
Proof. split; [lia | exact (compute_reward_of_number 42 (0.2, 0.8)%Q (0.1, 0.9)%Q 25 ltac:(lia))]. Defined.

(** X2.  The three rewards of [on_tick]: the shaped reward never exceeds
    the true reward, which never exceeds the estimated speed; an unreadable
    speed gives [(-1, 0, -1)]; a readable one gives a speed of the reading's
    magnitude, with penalties 25 (true) and 60 (shaped) when penalised and
    none otherwise. *)
Theorem on_tick_rewards_ordered (s : string) (rev pen : Q * Q) :
  let shaped := fst (fst (ArtOfRally.on_tick_rewards s rev pen)) in
  let speed := snd (fst (ArtOfRally.on_tick_rewards s rev pen)) in
  let true_reward := snd (ArtOfRally.on_tick_rewards s rev pen) in
  shaped <= true_reward <= speed /\
  (if ArtOfRally.isnumeric s
   then Z.abs speed = ArtOfRally.int_of_digits s /\
        (speed <= 0 <-> ArtOfRally.says_yes rev = true \/ ArtOfRally.int_of_digits s = 0) /\
        true_reward = speed - (if ArtOfRally.says_yes pen then 25 else 0) /\
        shaped = speed - (if ArtOfRally.says_yes pen then 60 else 0)
   else shaped = -1 /\ speed = 0 /\ true_reward = -1).
Proof.
  unfold ArtOfRally.on_tick_rewards.
  destruct (ArtOfRally.isnumeric s) eqn:Hnum.
  - rewrite !(compute_reward_numeric s rev pen _ Hnum).
    fold (ArtOfRally.says_yes rev) (ArtOfRally.says_yes pen).
    pose proof (int_of_digits_nonneg s) as Hs.
    cbn [fst snd].
    destruct (ArtOfRally.says_yes rev), (ArtOfRally.says_yes pen);
      repeat split; try lia; try (intros; auto; lia); intros [H|H]; congruence || lia.
  - unfold ArtOfRally._compute_reward. rewrite Hnum. simpl. lia.
Qed.

(** ** Application configurations *)

Lemma last_match_spec t : forall l i acc,
  match AppConfigs.last_match t l i acc with
  | Some j =>
      (acc = Some j /\ AppConfigs.untitled t l) \/
      ((i <= j)%nat /\ (exists c, l !! (j - i)%nat = Some c /\ AppConfigs.conf_title c = t) /\
       forall k c, (j - i < k)%nat -> l !! k = Some c -> AppConfigs.conf_title c <> t)
  | None => acc = None /\ AppConfigs.untitled t l
  end.
Proof.
  induction l as [|c l IH]; intros i acc.
  - simpl. destruct acc; [left |]; split; auto; constructor.
  - simpl AppConfigs.last_match.
    specialize (IH (S i) (if String.eqb (AppConfigs.conf_title c) t then Some i else acc)).
    destruct (AppConfigs.last_match t l (S i) _) as [j|].
    + destruct IH as [[Hacc Hno] | (Hle & (c' & Hc' & Ht) & Hlast)].
      * destruct (String.eqb_spec (AppConfigs.conf_title c) t) as [E|NE].
        -- injection Hacc as <-. right. split; [lia |]. rewrite Nat.sub_diag. split.
           ++ exists c. split; [reflexivity | exact E].
           ++ intros k c0 Hk Hl. destruct k; [lia |]. simpl in Hl.
              unfold AppConfigs.untitled in Hno. rewrite Forall_lookup in Hno.
              exact (Hno _ _ Hl).
        -- left. split; [exact Hacc | constructor; assumption].
      * right. split; [lia |]. replace (j - i)%nat with (S (j - S i)) by lia. split.
        -- exists c'. split; [exact Hc' | exact Ht].
        -- intros k c0 Hk Hl. destruct k; [lia |]. simpl in Hl.
           apply (Hlast k c0); [lia | exact Hl].
    + destruct IH as [Hacc Hno].
      destruct (String.eqb_spec (AppConfigs.conf_title c) t) as [E|NE]; [discriminate |].
      split; [exact Hacc | constructor; assumption].
Qed.

Lemma load_app_config_run (expanduser : string -> string)
  (init : list AppConfigs.AppConf) (c : AppConfigs.AppConf) (config_title : string) :
  exists r,
    AppConfigs.LoadAppConfig expanduser (init ++ [c]) config_title
    = (Ret r, init ++ [AppConfigs.expand_directory expanduser c]) /\
    match r with
    | Some j => AppConfigs.last_titled config_title (init ++ [c]) j
    | None => AppConfigs.untitled config_title (init ++ [c])
    end.
Proof.
  exists (AppConfigs.last_match config_title (init ++ [c]) 0 None). split.
  - unfold AppConfigs.LoadAppConfig.
    rewrite List.map_app. cbn [List.map]. rewrite List.last_last.
    f_equal. rewrite length_app. simpl length.
    replace (length init + 1 - 1)%nat with (length init + 0)%nat by lia.
    rewrite insert_app_r. reflexivity.
  - pose proof (last_match_spec config_title (init ++ [c]) 0 None) as H.
    destruct (AppConfigs.last_match config_title (init ++ [c]) 0 None) as [j|].
    + destruct H as [[H _] | (_ & Hc & Hl)]; [discriminate |].
      rewrite Nat.sub_0_r in Hc, Hl. split; assumption.
    + exact (proj2 H).
Qed.

(** X3.  Over a table that ends in the entry [c], [LoadAppConfig] returns
    the position of the last entry with the title asked for, or [None] when
    no entry has it; and whatever the title, the one entry whose directory
    it expands is [c], the last of the table: every other entry is left
    as it was, the returned one too unless it is the last. *)
Theorem load_app_config_expands_last_entry (expanduser : string -> string)
  (init : list AppConfigs.AppConf) (c : AppConfigs.AppConf) (config_title : string) :
  exists r,
    AppConfigs.LoadAppConfig expanduser (init ++ [c]) config_title
    = (Ret r, init ++ [AppConfigs.expand_directory expanduser c]) /\
    match r with
    | Some j => AppConfigs.last_titled config_title (init ++ [c]) j
    | None => AppConfigs.untitled config_title (init ++ [c])
    end.
Proof. apply load_app_config_run. Qed.

(** X4.  Over the table of the module: the entry [LoadAppConfig] returns
    carries the title asked for, and unless it is the last one (Noita's)
    its directory is still the unexpanded text of the table. *)
Theorem load_app_config_returns_unexpanded (expanduser : string -> string)
  (config_title : string) (j : nat) (c : AppConfigs.AppConf) :
  fst (AppConfigs.LoadAppConfig expanduser AppConfigs.app_configs config_title)
  = Ret (Some j) ->
  snd (AppConfigs.LoadAppConfig expanduser AppConfigs.app_configs config_title) !! j
  = Some c ->
  AppConfigs.conf_title c = config_title /\
  (config_title <> "Noita" -> AppConfigs.app_configs !! j = Some c).
Proof.
  destruct (load_app_config_run expanduser
              (removelast AppConfigs.app_configs)
              (AppConfigs.mkAppConf "Noita" (Some "~/")) config_title) as (r & E & Hr).
  change (removelast AppConfigs.app_configs ++ [AppConfigs.mkAppConf "Noita" (Some "~/")])
    with AppConfigs.app_configs in E, Hr.
  rewrite E. cbn [fst snd]. intros [= ->] Hc.
  destruct Hr as [(c0 & Hc0 & Ht) _].
  do 8 (destruct j as [|j]; [simpl in Hc, Hc0; injection Hc as <-; injection Hc0 as <-;
                             split; [exact Ht | first [reflexivity | intros NE; simpl in Ht; congruence]] |]).
  simpl in Hc0. discriminate.
Qed.

Lemma load_app_config_returns_unexpanded_witness :
  AppConfigs.conf_title
    (AppConfigs.mkAppConf "Factorio" (Some "~/Downloads/factorio/bin/x64")) = "Factorio" /\
  ("Factorio" <> "Noita" ->
   AppConfigs.app_configs !! 6%nat
   = Some (AppConfigs.mkAppConf "Factorio" (Some "~/Downloads/factorio/bin/x64"))).
Proof.
  exact (load_app_config_returns_unexpanded (fun s => ("/home/user" ++ s)%string) "Factorio" 6
           (AppConfigs.mkAppConf "Factorio" (Some "~/Downloads/factorio/bin/x64"))
           eq_refl eq_refl).
Defined.

(** ** The virtual cursors of [pre_init] *)

Lemma made_app es1 es2 : PreInit.made (es1 ++ es2) = PreInit.made es1 ++ PreInit.made es2.
Proof. unfold PreInit.made. apply omap_app. Qed.

Lemma deleted_app es1 es2 :
  PreInit.deleted (es1 ++ es2) = PreInit.deleted es1 ++ PreInit.deleted es2.
Proof. unfold PreInit.deleted. apply omap_app. Qed.

Section Cursors.

Variable cursor_name : Z -> string.

Lemma made_make_cursors (l : list Z) :
  PreInit.made (List.map (fun i => PreInit.MakeCursor (cursor_name i)) l)
  = List.map cursor_name l.
Proof. induction l as [|i l IH]; [reflexivity |]. simpl. f_equal. exact IH. Qed.

Lemma deleted_delete_cursors (l : list Z) :
  PreInit.deleted (List.map (fun i => PreInit.DeleteCursor (cursor_name i)) l)
  = List.map cursor_name l.
Proof. induction l as [|i l IH]; [reflexivity |]. simpl. f_equal. exact IH. Qed.

Lemma made_speedups (l : list Z) :
  PreInit.made (List.map (fun i => PreInit.SetSpeedup 1 (str i)) l) = [] /\
  PreInit.deleted (List.map (fun i => PreInit.SetSpeedup 1 (str i)) l) = [].
Proof. induction l as [|i l [IH1 IH2]]; [split; reflexivity |]. simpl. split; assumption. Qed.

Lemma deleted_make_cursors (l : list Z) :
  PreInit.deleted (List.map (fun i => PreInit.MakeCursor (cursor_name i)) l) = [].
Proof. induction l as [|i l IH]; [reflexivity |]. exact IH. Qed.

Lemma made_delete_cursors (l : list Z) :
  PreInit.made (List.map (fun i => PreInit.DeleteCursor (cursor_name i)) l) = [].
Proof. induction l as [|i l IH]; [reflexivity |]. exact IH. Qed.

(** X5.  [pre_init] succeeds once: a first call returns and sets the
    flag; any later call, with any number of environments, raises the
    [RuntimeError] and changes nothing: no speed-up is written, no display
    opened, no cursor made, no handler registered. *)
Theorem pre_init_only_once (num_envs again : Z) (p : PreInit.Process) :
  PreInit.singleton_init p = false ->
  fst (PreInit.pre_init cursor_name num_envs p) = Ret tt /\
  PreInit.pre_init cursor_name again (snd (PreInit.pre_init cursor_name num_envs p))
  = (Raise (RuntimeError "NoitaEnv.pre_init has already been called."),
     snd (PreInit.pre_init cursor_name num_envs p)).
Proof.
  intros H. unfold PreInit.pre_init. rewrite H.
  cbn [fst snd PreInit.singleton_init]. split; reflexivity.
Qed.

(** X6.  After [pre_init(num_envs)] in a process with no exit handler
    yet, the cursors deleted at process exit are the cursors that
    [pre_init] made, by name and in the same order, [num_envs] of them
    (none for a negative [num_envs]), and closing the display is the last
    thing done. *)
Theorem exit_deletes_the_cursors_made (num_envs : Z) (p : PreInit.Process) :
  PreInit.singleton_init p = false ->
  PreInit.atexit p = [] ->
  let names := List.map cursor_name (py_range (Z.to_nat num_envs)) in
  let p' := PreInit.exit (snd (PreInit.pre_init cursor_name num_envs p)) in
  PreInit.made (PreInit.done p') = PreInit.made (PreInit.done p) ++ names /\
  PreInit.deleted (PreInit.done p') = PreInit.deleted (PreInit.done p) ++ names /\
  length names = Z.to_nat num_envs /\
  List.last (PreInit.done p') PreInit.CloseDisplay = PreInit.CloseDisplay /\
  PreInit.atexit p' = [].
Proof.
  intros Hflag Hexit names p'. subst names p'.
  unfold PreInit.pre_init. rewrite Hflag, Hexit. cbn [fst snd].
  unfold PreInit.exit, PreInit.cleanup_cursors.
  cbn [PreInit.done PreInit.atexit PreInit.singleton_init concat].
  rewrite app_nil_r.
  repeat split.
  - rewrite !made_app, (proj1 (made_speedups _)), made_make_cursors, made_delete_cursors.
    simpl. rewrite ?app_nil_r. reflexivity.
  - rewrite !deleted_app, (proj2 (made_speedups _)), deleted_make_cursors,
      deleted_delete_cursors. simpl. rewrite ?app_nil_r. reflexivity.
  - unfold py_range. rewrite !length_map, length_seq. reflexivity.
  - rewrite !app_assoc. apply List.last_last.
Qed.

End Cursors.

Lemma pre_init_only_once_witness :
  PreInit.singleton_init (PreInit.mkProcess false [] []) = false /\
  fst (PreInit.pre_init str 2 (PreInit.mkProcess false [] [])) = Ret tt /\
  PreInit.pre_init str 1 (snd (PreInit.pre_init str 2 (PreInit.mkProcess false [] [])))
  = (Raise (RuntimeError "NoitaEnv.pre_init has already been called."),
     snd (PreInit.pre_init str 2 (PreInit.mkProcess false [] []))).
Proof.
  split; [reflexivity |].
  exact (pre_init_only_once str 2 1 (PreInit.mkProcess false [] []) eq_refl).
Defined.

Lemma exit_deletes_the_cursors_made_witness :
  PreInit.deleted
    (PreInit.done (PreInit.exit (snd (PreInit.pre_init str 3 (PreInit.mkProcess false [] [])))))
  = ["0"; "1"; "2"].
Proof.
  exact (proj1 (proj2 (exit_deletes_the_cursors_made str 3 (PreInit.mkProcess false [] [])
                         eq_refl eq_refl))).
Defined.

(** ** The older environment: waiting for the harness without a watchdog *)

Lemma legacy_wait_loop_round fuel self w h :
  self_harness self = Some h ->
  Legacy.wait_loop (S fuel) (self, w)
  = if ready h then (Ret tt, (self, w_emit (EvPrint "Finished harness init!") w))
    else Legacy.wait_loop fuel (set_harness (Some (ticked 1 h)) self, Legacy.wait_round w).
Proof.
  intros Hh. simpl Legacy.wait_loop.
  run_with ltac:(eapply run_get_harness; eassumption).
  destruct (ready h); [reflexivity |].
  run_with ltac:(eapply run_harness_tick; eassumption).
  run_with ltac:(apply run_sleep; apply Qle_bool_iff; reflexivity).
  run_with ltac:(reflexivity).
  reflexivity.
Qed.

Lemma legacy_wait_round_now w : now (Legacy.wait_round w) = (now w + 0.5)%Q.
Proof. reflexivity. Qed.

Lemma legacy_after_wait_rounds n : forall w,
  (now (after_rounds Legacy.wait_round n w) == now w + inject_Z (Z.of_nat n) * 0.5)%Q.
Proof.
  induction n as [|n IH]; intros w.
  - simpl. ring.
  - simpl after_rounds. rewrite IH, legacy_wait_round_now, Nat2Z.inj_succ, <- Z.add_1_l,
      inject_Z_plus. simpl inject_Z. ring.
Qed.

(** X7.  The older [_wait_for_harness_init] has no deadline: a harness
    that gets ready at its [r]-th tick is waited for however large [r] is,
    the loop returning after exactly [r] rounds of half a second. *)
Theorem legacy_wait_has_no_deadline (r : nat) : forall fuel self w h,
  self_harness self = Some h ->
  never_ready h r -> ready_after h (harness_ticks h + r)%nat = true ->
  (r < fuel)%nat ->
  Legacy.wait_loop fuel (self, w)
  = (Ret tt, (set_harness (Some (ticked r h)) self,
              w_emit (EvPrint "Finished harness init!")
                (after_rounds Legacy.wait_round r w))) /\
  (now (after_rounds Legacy.wait_round r w) == now w + inject_Z (Z.of_nat r) * 0.5)%Q.
Proof.
  induction r as [|r IH]; intros fuel self w h Hh Hnr Hr Hfuel;
    (split; [| apply legacy_after_wait_rounds]);
    (destruct fuel as [|fuel]; [lia |]);
    rewrite (legacy_wait_loop_round fuel self w h Hh).
  - rewrite Nat.add_0_r in Hr. unfold ready. rewrite Hr.
    rewrite (set_harness_same self h Hh). reflexivity.
  - rewrite (never_ready_now h r Hnr).
    rewrite (proj1 (IH fuel (set_harness (Some (ticked 1 h)) self) (Legacy.wait_round w)
               (ticked 1 h) eq_refl (never_ready_next h r Hnr)
               ltac:(simpl; replace (harness_ticks h + 1 + r)%nat
                       with (harness_ticks h + S r)%nat by lia; exact Hr)
               ltac:(lia))).
    rewrite set_harness_twice, ticked_ticked. reflexivity.
Qed.

(** X8.  And while the harness is not ready the loop goes on: for every
    number of rounds during which the harness stays unready, the loop has
    not returned (nor raised) after that many rounds. *)
Theorem legacy_wait_goes_on (n : nat) : forall self w h,
  self_harness self = Some h ->
  never_ready h n ->
  Legacy.wait_loop n (self, w)
  = (OutOfFuel, (set_harness (Some (ticked n h)) self, after_rounds Legacy.wait_round n w)).
Proof.
  induction n as [|n IH]; intros self w h Hh Hnr.
  - simpl. rewrite (set_harness_same self h Hh). reflexivity.
  - rewrite (legacy_wait_loop_round n self w h Hh), (never_ready_now h n Hnr).
    rewrite (IH (set_harness (Some (ticked 1 h)) self) (Legacy.wait_round w) (ticked 1 h)
               eq_refl (never_ready_next h n Hnr)).
    rewrite set_harness_twice, ticked_ticked. reflexivity.
Qed.

Lemma legacy_wait_has_no_deadline_witness :
  fst (Legacy.wait_loop 201
         (set_harness (Some (mkHarness (fun t => Nat.leb 200 t) 0)) blank, lively))
  = Ret tt.
Proof.
  exact (f_equal fst
           (proj1 (legacy_wait_has_no_deadline 200 201
                     (set_harness (Some (mkHarness (fun t => Nat.leb 200 t) 0)) blank)
                     lively (mkHarness (fun t => Nat.leb 200 t) 0) eq_refl
                     ltac:(intros j Hj; apply Nat.leb_gt; simpl; lia) eq_refl ltac:(lia)))).
Defined.

Lemma legacy_wait_goes_on_witness :
  fst (Legacy.wait_loop 500
         (set_harness (Some (mkHarness (fun _ => false) 0)) blank, lively))
  = OutOfFuel.
Proof.
  exact (f_equal fst
           (legacy_wait_goes_on 500
              (set_harness (Some (mkHarness (fun _ => false) 0)) blank)
              lively (mkHarness (fun _ => false) 0) eq_refl
              ltac:(intros j Hj; reflexivity))).
Defined.

(** ** The overworld test *)

(** X9.  [is_overworld] truncates the coordinate before comparing: it
    holds exactly when [y <= -81].  A coordinate strictly between -81 and
    -80 is below -80 and is not taken for the overworld. *)
Theorem is_overworld_from_minus_81 :
  (forall i, is_overworld i = true <-> (y i <= -81)%Q) /\
  (forall tk al, is_overworld (mkInfo tk al (-80.5)) = false).
Proof.
  split; [| reflexivity].
  intros i. unfold is_overworld, py_int. destruct (y i) as [n d].
  unfold Qle. cbn [Qnum Qden].
  pose proof (Z.quot_rem' n (Z.pos d)) as E.
  destruct (Z.ltb_spec (n ÷ Z.pos d) (-80)) as [Hlt|Hge]; split; intros H;
    try reflexivity; try discriminate.
  - destruct (Z.le_gt_cases 0 n) as [Hn|Hn].
    + pose proof (Z.quot_pos n (Z.pos d) Hn ltac:(lia)). lia.
    + pose proof (Z.rem_bound_pos_neg n (Z.pos d) ltac:(lia) ltac:(lia)). nia.
  - exfalso. destruct (Z.le_gt_cases 0 n) as [Hn|Hn]; [lia |].
    pose proof (Z.rem_bound_pos_neg n (Z.pos d) ltac:(lia) ltac:(lia)). nia.
Qed.

(** ** The policy chain *)

Lemma wrapper_update_strengthens w s :
  nonneg_penalty w ->
  let w' := fst (fst (wrapper_update w s)) in
  let s' := snd (fst (wrapper_update w s)) in
  (terminated s = true -> terminated s' = true) /\
  (reward s' <= reward s)%Q /\
  (terminated s' = false -> reward s' = reward s) /\
  pixels s' = pixels s /\ truncated s' = truncated s /\ info s' = info s /\
  ep_step s' = ep_step s /\ env_step s' = env_step s /\
  nonneg_penalty w'.
Proof.
  intros Hp. destruct w as [|p]; simpl.
  - unfold TerminateOnOverworld_update.
    destruct (is_overworld (info s)); simpl; repeat split; auto; try discriminate;
      apply Qle_refl.
  - unfold TerminateOnSparseReward_update.
    destruct (window_is_silent _); simpl; repeat split; auto; try discriminate;
      try apply Qle_refl; simpl in Hp; lra.
Qed.

Lemma chain_strengthens (ws : list StepWrapper) : forall s,
  Forall nonneg_penalty ws ->
  let ws' := fst (fst (apply_wrappers ws s)) in
  let s' := snd (fst (apply_wrappers ws s)) in
  (terminated s = true -> terminated s' = true) /\
  (reward s' <= reward s)%Q /\
  (terminated s' = false -> reward s' = reward s) /\
  pixels s' = pixels s /\ truncated s' = truncated s /\ info s' = info s /\
  ep_step s' = ep_step s /\ env_step s' = env_step s /\
  Forall nonneg_penalty ws' /\ length ws' = length ws.
Proof.
  induction ws as [|w ws IH]; intros s Hp.
  - simpl. repeat split; auto. apply Qle_refl.
  - inversion Hp as [|? ? Hw Hws]; subst.
    pose proof (wrapper_update_strengthens w s Hw) as H1.
    simpl apply_wrappers.
    destruct (wrapper_update w s) as [[w1 s1] out1]. cbn [fst snd] in H1.
    specialize (IH s1 Hws).
    destruct (apply_wrappers ws s1) as [[ws2 s2] out2]. cbn [fst snd] in IH |- *.
    destruct H1 as (A1 & A2 & A3 & A4 & A5 & A6 & A7 & A8 & A9).
    destruct IH as (B1 & B2 & B3 & B4 & B5 & B6 & B7 & B8 & B9 & B10).
    repeat split; try congruence; auto.
    + eapply Qle_trans; eassumption.
    + intros Hf. rewrite (B3 Hf). apply A3.
      destruct (terminated s1) eqn:E; [| reflexivity].
      rewrite (B1 eq_refl) in Hf. discriminate.
    + simpl. congruence.
Qed.

(** X10.  None of the policies in the source relaxes what came before
    it: through a whole chain of them (penalties not negative, as the
    constructor sets them) a step that was terminated stays terminated, the
    reward does not grow, a step that comes out not terminated keeps its
    reward as it was, and pixels, truncated flag, info and both counters
    are never touched.  The chain keeps its length and its penalties. *)
Theorem policy_chain_only_strengthens (ws : list StepWrapper) (s : StepVal) :
  Forall nonneg_penalty ws ->
  let ws' := fst (fst (apply_wrappers ws s)) in
  let s' := snd (fst (apply_wrappers ws s)) in
  (terminated s = true -> terminated s' = true) /\
  (reward s' <= reward s)%Q /\
  (terminated s' = false -> reward s' = reward s) /\
  pixels s' = pixels s /\ truncated s' = truncated s /\ info s' = info s /\
  ep_step s' = ep_step s /\ env_step s' = env_step s /\
  Forall nonneg_penalty ws' /\ length ws' = length ws.
Proof. apply chain_strengthens. Qed.

Lemma policy_chain_only_strengthens_witness :
  Forall nonneg_penalty (self_step_wrappers blank) /\
  info (snd (fst (apply_wrappers (self_step_wrappers blank)
                    (mkStepVal None 0 true false (mkInfo 1 true 0) 1 1))))
  = mkInfo 1 true 0.
Proof.
  assert (H : Forall nonneg_penalty (self_step_wrappers blank)).
  { repeat constructor. simpl. discriminate. }
  split; [exact H |].
  exact (proj1 (proj2 (proj2 (proj2 (proj2 (proj2
           (policy_chain_only_strengthens (self_step_wrappers blank)
              (mkStepVal None 0 true false (mkInfo 1 true 0) 1 1) H))))))).
Defined.

(** ** Decoding the discrete action *)

Lemma py_index_range {A : Type} (s : list A) (i : Z) :
  match py_index s i with
  | Some x => - Z.of_nat (length s) <= i < Z.of_nat (length s) /\ x ∈ s
  | None => ~ (- Z.of_nat (length s) <= i < Z.of_nat (length s))
  end.
Proof.
  unfold py_index.
  destruct (Z.leb_spec 0 i) as [H0|H0]; destruct (Z.ltb_spec i (Z.of_nat (length s))) as [H1|H1];
    cbn [andb].
  - destruct (s !! Z.to_nat i) as [x|] eqn:E.
    + split; [lia | by eapply list_elem_of_lookup_2].
    + apply lookup_ge_None in E. lia.
  - destruct (Z.leb_spec (- Z.of_nat (length s)) i); destruct (Z.ltb_spec i 0);
      cbn [andb]; try lia.
  - destruct (Z.leb_spec (- Z.of_nat (length s)) i) as [H2|H2]; destruct (Z.ltb_spec i 0);
      cbn [andb]; try lia.
    destruct (s !! Z.to_nat (Z.of_nat (length s) + i)) as [x|] eqn:E.
    + split; [lia | by eapply list_elem_of_lookup_2].
    + apply lookup_ge_None in E. lia.
  - lia.
Qed.

Lemma in_range_nil_l table : in_range [] table.
Proof. intros j i s H. rewrite lookup_nil in H. discriminate. Qed.

Lemma in_range_nil_r ds : in_range ds [].
Proof. intros j i s _ H. rewrite lookup_nil in H. discriminate. Qed.

Lemma in_range_cons i ds s ss :
  in_range (i :: ds) (s :: ss)
  <-> - Z.of_nat (length s) <= i < Z.of_nat (length s) /\ in_range ds ss.
Proof.
  split.
  - intros H. split; [exact (H 0%nat i s eq_refl eq_refl) |].
    intros j i' s' H1 H2. exact (H (S j) i' s' H1 H2).
  - intros [H0 H] [|j] i' s' H1 H2; simpl in H1, H2.
    + injection H1 as <-. injection H2 as <-. exact H0.
    + exact (H j i' s' H1 H2).
Qed.

Lemma held_inputs_outcome ds : forall table ks bs,
  match held_inputs ds table ks bs with
  | Ret _ => in_range ds table
  | Raise e => e = IndexError /\ ~ in_range ds table
  | OutOfFuel => False
  end.
Proof.
  induction ds as [|i ds IH]; intros table ks bs; [apply in_range_nil_l |].
  destruct table as [|s ss]; [apply in_range_nil_r |].
  simpl held_inputs. pose proof (py_index_range s i) as Hi.
  destruct (py_index s i) as [[[k|b]|]|].
  - specialize (IH ss (ks ∪ {[k]}) bs). destruct (held_inputs ds ss _ _);
      rewrite ?in_range_cons; tauto.
  - specialize (IH ss ks (bs ∪ {[b]})). destruct (held_inputs ds ss _ _);
      rewrite ?in_range_cons; tauto.
  - specialize (IH ss ks bs). destruct (held_inputs ds ss _ _);
      rewrite ?in_range_cons; tauto.
  - split; [reflexivity |]. rewrite in_range_cons. tauto.
Qed.

(** X11.  The loop over the discrete indices raises nothing but
    IndexError, and raises it exactly when an index that meets a dimension
    of the table lies outside [-len, len) for that dimension; negative
    indices down to [-len] are accepted and count from the end. *)
Theorem held_inputs_index_error (ds : list Z) (table : list (list (option Input)))
  (ks : gset string) (bs : gset MouseButton) :
  (in_range ds table <-> exists r, held_inputs ds table ks bs = Ret r) /\
  (~ in_range ds table <-> held_inputs ds table ks bs = Raise IndexError) /\
  (forall (s : list (option Input)) i, (0 < length s)%nat ->
     py_index s (-1) = List.last (List.map Some s) None /\
     (- Z.of_nat (length s) <= i < 0 -> py_index s i = py_index s (Z.of_nat (length s) + i))).
Proof.
  pose proof (held_inputs_outcome ds table ks bs) as H.
  split; [| split].
  - destruct (held_inputs ds table ks bs) as [r|e|].
    + split; eauto.
    + split; [tauto | intros [r Hr]; discriminate].
    + contradiction.
  - destruct (held_inputs ds table ks bs) as [r|e|].
    + split; [tauto | discriminate].
    + destruct H as [-> H]. split; auto.
    + contradiction.
  - intros s i Hs. split.
    + unfold py_index. cbn [Z.leb andb].
      destruct (Z.leb_spec (- Z.of_nat (length s)) (-1)); [| lia].
      destruct (Z.ltb_spec (-1) 0); [| lia]. cbn [andb].
      replace (Z.to_nat (Z.of_nat (length s) + -1)) with (length s - 1)%nat by lia.
      destruct s as [|x s _] using rev_ind; [simpl in Hs; lia |].
      rewrite List.map_app. cbn [List.map]. rewrite List.last_last.
      rewrite length_app. simpl length.
      apply list_lookup_middle. lia.
    + intros Hi. unfold py_index.
      destruct (Z.leb_spec 0 i); [lia |].
      destruct (Z.leb_spec (- Z.of_nat (length s)) i); [| lia].
      destruct (Z.ltb_spec i 0); [| lia]. cbn [andb].
      destruct (Z.leb_spec 0 (Z.of_nat (length s) + i)); [| lia].
      destruct (Z.ltb_spec (Z.of_nat (length s) + i) (Z.of_nat (length s))); [| lia].
      reflexivity.
Qed.

Lemma picked_cons_0 i ds s ss :
  picked (i :: ds) (s :: ss) 0 = match py_index s i with Some x => x | None => None end.
Proof. reflexivity. Qed.

Lemma picked_cons_S i ds s ss j : picked (i :: ds) (s :: ss) (S j) = picked ds ss j.
Proof. reflexivity. Qed.

Lemma picked_nil_l table j : picked [] table j = None.
Proof. unfold picked. by rewrite lookup_nil. Qed.

Lemma picked_nil_r ds j : picked ds [] j = None.
Proof. unfold picked. rewrite lookup_nil. by destruct (ds !! j). Qed.

Lemma picked_shift i ds s ss (x : Input) :
  (exists j, picked (i :: ds) (s :: ss) j = Some x)
  <-> py_index s i = Some (Some x) \/ exists j, picked ds ss j = Some x.
Proof.
  split.
  - intros [[|j] H].
    + rewrite picked_cons_0 in H. left. destruct (py_index s i) as [o|]; congruence.
    + right. exists j. exact H.
  - intros [H | [j H]].
    + exists 0%nat. rewrite picked_cons_0, H. reflexivity.
    + exists (S j). exact H.
Qed.

Lemma held_inputs_picked (ds : list Z) : forall table ks bs ks' bs',
  held_inputs ds table ks bs = Ret (ks', bs') ->
  (forall k, k ∈ ks' <-> k ∈ ks \/ exists j, picked ds table j = Some (Key k)) /\
  (forall b, b ∈ bs' <-> b ∈ bs \/ exists j, picked ds table j = Some (Button b)).
Proof.
  induction ds as [|i ds IH]; intros table ks bs ks' bs' H.
  - simpl in H. injection H as <- <-.
    split; intros x; (split; [tauto |]);
      intros [Hx | [j Hj]]; auto; rewrite picked_nil_l in Hj; discriminate.
  - destruct table as [|s ss].
    + simpl in H. injection H as <- <-.
      split; intros x; (split; [tauto |]);
        intros [Hx | [j Hj]]; auto; rewrite picked_nil_r in Hj; discriminate.
    + simpl held_inputs in H.
      destruct (py_index s i) as [[[k0|b0]|]|] eqn:E; [| | | discriminate];
        destruct (IH _ _ _ _ _ H) as [Hk Hb]; split; intros x;
        rewrite ?Hk, ?Hb, picked_shift, E, ?elem_of_union, ?elem_of_singleton;
        split; intros Hx;
        repeat match goal with
               | Hy : _ \/ _ |- _ => destruct Hy
               | Hy : Some _ = Some _ |- _ => injection Hy as ->
               end;
        subst; try discriminate; auto.
Qed.

(** X12.  What the loop holds down is exactly what the dimensions pick:
    a key (a button) is in the resulting set if and only if it was in the
    set the loop started from or some dimension's index selects it.  Each
    dimension picks at most one entry. *)
Theorem held_inputs_are_picked (ds : list Z) (table : list (list (option Input)))
  (ks ks' : gset string) (bs bs' : gset MouseButton) :
  held_inputs ds table ks bs = Ret (ks', bs') ->
  (forall k, k ∈ ks' <-> k ∈ ks \/ exists j, picked ds table j = Some (Key k)) /\
  (forall b, b ∈ bs' <-> b ∈ bs \/ exists j, picked ds table j = Some (Button b)).
Proof. apply held_inputs_picked. Qed.

Lemma held_inputs_are_picked_witness :
  "E" ∈ ({["S"; "E"]} : gset string)
  <-> "E" ∈ (∅ : gset string)
      \/ exists j, picked [-1; 0; 0; 1] _input_space j = Some (Key "E").
Proof.
  apply (held_inputs_are_picked [-1; 0; 0; 1] _input_space ∅ {["S"; "E"]} ∅ ∅).
  vm_compute. reflexivity.
Defined.

(** X13.  [zip] stops at the shorter of the two: indices beyond the
    table's seven dimensions are ignored, whatever they are, and a vector
    shorter than the table leaves the remaining dimensions without
    input. *)
Theorem held_inputs_zip (ds : list Z) : forall table ks bs,
  held_inputs ds table ks bs
  = held_inputs (take (length table) ds) (take (length ds) table) ks bs.
Proof.
  induction ds as [|i ds IH]; intros table ks bs.
  - by rewrite take_nil.
  - destruct table as [|s ss]; [reflexivity |].
    simpl. destruct (py_index s i) as [[[k|b]|]|]; auto.
Qed.

Lemma picked_offered ds table j x :
  picked ds table j = Some x -> exists s, table !! j = Some s /\ Some x ∈ s.
Proof.
  unfold picked. destruct (ds !! j) as [i|]; [| discriminate].
  destruct (table !! j) as [s|]; [| discriminate].
  pose proof (py_index_range s i) as H. destruct (py_index s i) as [o|]; [| discriminate].
  intros ->. exists s. split; [reflexivity | apply H].
Qed.

(** Which dimension of the environment's table offers which input. *)
Lemma picked_input_space ds j x :
  picked ds _input_space j = Some x -> In (j, x) (offered _input_space).
Proof.
  intros H. destruct (picked_offered _ _ _ _ H) as (s & Hs & Hx).
  do 7 (destruct j as [|j];
        [ injection Hs as <-;
          repeat (apply elem_of_cons in Hx as [Hx|Hx];
                  [first [discriminate | injection Hx as ->; vm_compute; tauto] |]);
          by apply elem_of_nil in Hx |]).
  discriminate.
Qed.

(** Go through the inputs the table offers. *)
Ltac each_offered Hd tac :=
  vm_compute in Hd;
  repeat (destruct Hd as [Hd|Hd]; [tac Hd |]);
  try contradiction.

(** X14.  With the table of the environment, whatever the indices: the
    keys held are among W, S, A, D, F, E, 1, 3, 4, 5, 6, 7, 8 (the key 2 is
    never held); W and S are never held together, nor A and D, nor two of
    the keys 1, 3, 4, nor the two mouse buttons. *)
Theorem held_inputs_one_per_dimension (ds : list Z) (ks : gset string)
  (bs : gset MouseButton) :
  held_inputs ds _input_space ∅ ∅ = Ret (ks, bs) ->
  ks ⊆ {["W"; "S"; "A"; "D"; "F"; "E"; "1"; "3"; "4"; "5"; "6"; "7"; "8"]} /\
  ("2" ∉ ks) /\
  ~ ("W" ∈ ks /\ "S" ∈ ks) /\ ~ ("A" ∈ ks /\ "D" ∈ ks) /\
  (forall k k', k ∈ ks -> k' ∈ ks -> k ∈ ["1"; "3"; "4"] -> k' ∈ ["1"; "3"; "4"] -> k = k') /\
  ~ (LEFT ∈ bs /\ RIGHT ∈ bs).
Proof.
  intros H. destruct (held_inputs_picked ds _input_space ∅ ∅ ks bs H) as [Hk Hb].
  assert (Key_dim : forall k, k ∈ ks ->
            exists j, picked ds _input_space j = Some (Key k) /\
                      In (j, Key k) (offered _input_space)).
  { intros k Hin. apply Hk in Hin as [Hin | [j Hj]]; [by apply elem_of_empty in Hin |].
    exists j. split; [exact Hj | by apply picked_input_space in Hj]. }
  assert (Button_dim : forall b, b ∈ bs -> picked ds _input_space 6 = Some (Button b)).
  { intros b Hin. apply Hb in Hin as [Hin | [j Hj]]; [by apply elem_of_empty in Hin |].
    pose proof (picked_input_space _ _ _ Hj) as Hd.
    each_offered Hd ltac:(fun E => injection E as <-; try discriminate; exact Hj). }
  assert (Same : forall k k' j,
            k ∈ ks -> k' ∈ ks ->
            (forall i, In (i, Key k) (offered _input_space) -> i = j) ->
            (forall i, In (i, Key k') (offered _input_space) -> i = j) ->
            k = k').
  { intros k k' j Hin Hin' Hd Hd'.
    destruct (Key_dim k Hin) as (i & Hp & Hi). destruct (Key_dim k' Hin') as (i' & Hp' & Hi').
    apply Hd in Hi. apply Hd' in Hi'. subst i i'. congruence. }
  split; [| split; [| split; [| split; [| split]]]].
  - intros k Hin. destruct (Key_dim k Hin) as (j & _ & Hd).
    each_offered Hd ltac:(fun E => first [discriminate | injection E as _ <-; set_solver]).
  - intros Hin. destruct (Key_dim "2" Hin) as (j & _ & Hd).
    each_offered Hd ltac:(fun E => discriminate).
  - intros [H1 H2]. assert (E : "W" = "S"); [| discriminate].
    apply (Same "W" "S" 0%nat H1 H2); intros i Hd;
      each_offered Hd ltac:(fun E => first [discriminate | injection E as <-; reflexivity]).
  - intros [H1 H2]. assert (E : "A" = "D"); [| discriminate].
    apply (Same "A" "D" 1%nat H1 H2); intros i Hd;
      each_offered Hd ltac:(fun E => first [discriminate | injection E as <-; reflexivity]).
  - intros k k' H1 H2 Hw Hw'.
    apply (Same k k' 4%nat H1 H2); intros i Hd;
      [ repeat (apply elem_of_cons in Hw as [->|Hw];
                [each_offered Hd
                   ltac:(fun E => first [discriminate | injection E as <-; reflexivity]) |]);
        by apply elem_of_nil in Hw
      | repeat (apply elem_of_cons in Hw' as [->|Hw'];
                [each_offered Hd
                   ltac:(fun E => first [discriminate | injection E as <-; reflexivity]) |]);
        by apply elem_of_nil in Hw' ].
  - intros [H1 H2]. apply Button_dim in H1, H2. congruence.
Qed.

Lemma held_inputs_one_per_dimension_witness :
  ("2" ∉ ({["S"; "E"]} : gset string)) /\
  ~ ("W" ∈ ({["S"; "E"]} : gset string) /\ "S" ∈ ({["S"; "E"]} : gset string)).
Proof.
  split;
    apply (held_inputs_one_per_dimension [-1; 0; 0; 1] {["S"; "E"]} ∅);
    vm_compute; reflexivity.
Defined.

(** ** The two step counters *)

#[local] Instance env_step_closed (b : Z) :
  Closed (fun e => self_env_step e = b) (fun _ => True).
Proof. split; simpl; auto. Qed.

#[local] Instance ep_step_closed (c : Z) :
  Closed (fun e => self_ep_step e = c) (fun _ => True).
Proof. split; simpl; auto. Qed.

#[local] Instance counters_closed (c b : Z) :
  Closed (fun e => self_ep_step e = c /\ self_env_step e = b) (fun _ => True).
Proof. split; simpl; auto. Qed.

(** [step] counts before it does anything else, and nothing it does
    afterwards touches the counters, whether it returns or raises. *)
Lemma step_counts_once action st :
  self_ep_step (fst (snd (step action st))) = self_ep_step (fst st) + 1 /\
  self_env_step (fst (snd (step action st))) = self_env_step (fst st) + 1.
Proof.
  destruct st as [self w]. unfold step.
  run_with ltac:(reflexivity).
  run_with ltac:(reflexivity).
  match goal with
  | |- context [snd (?m ?st)] =>
      assert (Hst : stable (kept (fun e => self_ep_step e = self_ep_step self + 1 /\
                                           self_env_step e = self_env_step self + 1)
                                 (fun _ => True)) m) by stab;
      destruct (Hst st) as [H _]; [split; [split; reflexivity | exact I] | exact H]
  end.
Qed.

Section EnvStepKept.

Variable b : Z.

Lemma env_step_try_reset_env sk :
  stable (kept (fun e => self_env_step e = b) (fun _ => True)) (_try_reset_env sk).
Proof. unfold _try_reset_env. stab. Qed.

Hint Resolve env_step_try_reset_env : stab.

Lemma env_step_reset_attempts k sk :
  stable (kept (fun e => self_env_step e = b) (fun _ => True)) (reset_attempts k sk).
Proof. induction k as [|k IH]; simpl; stab. Qed.

Hint Resolve env_step_reset_attempts : stab.

Lemma env_step_reset seed :
  stable (kept (fun e => self_env_step e = b) (fun _ => True)) (reset seed).
Proof. unfold reset, _reset_env. stab. Qed.

End EnvStepKept.

Lemma env_step_run_op op st :
  self_env_step (fst (run_op op st))
  = self_env_step (fst st) + Z.of_nat (steps_taken [op]).
Proof.
  destruct op; unfold run_op; cbn [steps_taken List.filter length Z.of_nat];
    [ apply step_counts_once | rewrite Z.add_0_r .. ].
  - apply (env_step_reset _ seed st). by split.
  - apply (kept_run_info (fun e => self_env_step e = self_env_step (fst st)) (fun _ => True) st).
    by split.
  - apply (kept_close (fun e => self_env_step e = self_env_step (fst st)) (fun _ => True) st).
    by split.
  - apply (kept_pause (fun e => self_env_step e = self_env_step (fst st)) (fun _ => True) st).
    by split.
  - apply (kept_resume (fun e => self_env_step e = self_env_step (fst st)) (fun _ => True) st).
    by split.
Qed.

(** X15.  The env-step counter counts the calls of [step]: after any
    operations on a session it has grown by exactly the number of [step]
    calls among them, including those that raised and those that returned
    [None]; no other operation changes it. *)
Theorem env_step_counts_steps (ops : list Op) : forall st,
  self_env_step (fst (run_ops ops st))
  = self_env_step (fst st) + Z.of_nat (steps_taken ops).
Proof.
  induction ops as [|op ops IH]; intros st.
  - unfold steps_taken. simpl. lia.
  - change (run_ops (op :: ops) st) with (run_ops ops (run_op op st)).
    rewrite IH, env_step_run_op. unfold steps_taken.
    destruct op; simpl; lia.
Qed.

Lemma reset_attempts_first k sk self w :
  reset_attempts (S k) sk (self, w) = reset_attempts (S k) sk (set_ep_step 0 self, w).
Proof. reflexivity. Qed.

Lemma fresh_reset_attempts k sk : stable fresh_episode (reset_attempts k sk).
Proof.
  pose proof fresh_try_reset_env as Hf.
  unfold fresh_episode in *. induction k as [|k IH]; simpl; stab; auto.
Qed.

(** [reset] leaves the episode-step counter at 0 whether or not it
    succeeds. *)
Lemma reset_ep_step seed st : self_ep_step (fst (snd (reset seed st))) = 0.
Proof.
  destruct st as [self w]. unfold reset.
  run_with ltac:(reflexivity).
  unfold _reset_env.
  pose proof (fresh_reset_attempts 3 false) as Hr.
  pose proof fresh_try_reset_env as Hf.
  unfold fresh_episode in *.
  match goal with
  | |- self_ep_step (fst (snd (?m (?s, ?w0)))) = 0 =>
      assert (E : m (s, w0) = m (set_ep_step 0 s, w0)) by reflexivity;
      rewrite E;
      assert (Hst : stable (kept (fun e => self_ep_step e = 0) (fun _ => True)) m)
        by (stab; auto);
      apply (Hst (set_ep_step 0 s, w0)); by split
  end.
Qed.

Lemma ep_step_run_op op st :
  self_ep_step (fst (run_op op st)) = ep_steps [op] (self_ep_step (fst st)).
Proof.
  destruct op; unfold run_op; cbn [ep_steps].
  - apply step_counts_once.
  - apply reset_ep_step.
  - apply (kept_run_info (fun e => self_ep_step e = self_ep_step (fst st)) (fun _ => True) st).
    by split.
  - apply (kept_close (fun e => self_ep_step e = self_ep_step (fst st)) (fun _ => True) st).
    by split.
  - apply (kept_pause (fun e => self_ep_step e = self_ep_step (fst st)) (fun _ => True) st).
    by split.
  - apply (kept_resume (fun e => self_ep_step e = self_ep_step (fst st)) (fun _ => True) st).
    by split.
Qed.

(** X16.  The episode-step counter is the number of [step] calls since
    the last [reset], successful or not: every [step] adds one, whatever
    its outcome, and every [reset] puts it back to 0, even one that ends in
    the RuntimeError. *)
Theorem ep_step_counts_since_reset (ops : list Op) : forall st,
  self_ep_step (fst (run_ops ops st)) = ep_steps ops (self_ep_step (fst st)).
Proof.
  induction ops as [|op ops IH]; intros st; [reflexivity |].
  change (run_ops (op :: ops) st) with (run_ops ops (run_op op st)).
  rewrite IH, ep_step_run_op. destruct op; reflexivity.
Qed.

(** ** [step] on an action it cannot decode, and on a closed session *)

Lemma run_bind_raise {A B : Type} (m : M A) (f : A -> M B) st e st' :
  m st = (Raise e, st') -> (m ≫= f) st = (Raise e, st').
Proof. intros H. unfold mbind, M_bind. rewrite H. reflexivity. Qed.

Lemma run_lift_raise {A : Type} (o : Outcome A) e st :
  o = Raise e -> lift o st = (Raise e, st).
Proof. intros ->. reflexivity. Qed.

Lemma step_counted action self w :
  step action (self, w)
  = (apply_inputs action;;
     harness_tick;;
     init_info ← current_info;
     exit ← step_loop (py_range retries) (Z.of_nat retries) init_info None;
     match exit with
     | ReturnedNone => pure None
     | Broke info_ => finish_step info_
     | Exhausted (Some info_) => finish_step info_
     | Exhausted None => raise NameError
     end) (counted self, w).
Proof. reflexivity. Qed.

Lemma discrete_part_ret action ks bs :
  discrete_part action = Ret (ks, bs) ->
  exists d c ds, split_action action = Ret (d, c) /\ int_list d = Ret ds /\
                 held_inputs ds _input_space ∅ ∅ = Ret (ks, bs).
Proof.
  unfold discrete_part.
  destruct (split_action action) as [[d c]|e|]; [| intros; discriminate ..].
  destruct (int_list d) as [ds|e|] eqn:Ei; [| intros; discriminate ..].
  intros H. exists d, c, ds. auto.
Qed.

Lemma split_action_raises action e :
  split_action action = Raise e -> e = TypeError \/ e = ValueError.
Proof.
  unfold split_action. destruct action as [q|l]; [intros [= <-]; auto |].
  destruct (if Nat.eqb (length l) 9 then _ else _) as [|d [|c [|x l']]];
    intros [= <-]; auto.
Qed.

Lemma int_list_raises d e : int_list d = Raise e -> e = TypeError.
Proof.
  unfold int_list. destruct d as [q|l]; [intros [= <-]; auto |].
  destruct (numbers l); intros [= <-]; auto.
Qed.

Lemma number_list_raises c e : number_list c = Raise e -> e = TypeError.
Proof.
  unfold number_list. destruct c as [q|l]; [intros [= <-]; auto |].
  destruct (numbers l); intros [= <-]; auto.
Qed.

Lemma mouse_pos_raises cfg cs e :
  mouse_pos cfg cs = Raise e -> e = IndexError /\ (length cs < 2)%nat.
Proof.
  unfold mouse_pos. destruct cs as [|c0 [|c1 cs]]; simpl; intros [= <-]; split; auto; lia.
Qed.

(** X17.  An action whose discrete part cannot be decoded (not a pair or
    a flat vector of nine, an entry that is not a number, an index outside
    its dimension) makes [step] raise before it has touched the harness,
    the input channel or the clock; the step has been counted all the same.
    The error is a TypeError, a ValueError or an IndexError, and it is
    raised even on a session without a harness. *)
Theorem step_rejects_bad_discrete_action (action : PyVal) (self : NoitaEnv) (w : World)
  (e : Exn) :
  discrete_part action = Raise e ->
  step action (self, w) = (Raise e, (counted self, w)) /\
  (e = TypeError \/ e = ValueError \/ e = IndexError).
Proof.
  intros H. unfold discrete_part in H.
  destruct (split_action action) as [[d c]|e'|] eqn:Es; [| | discriminate].
  - destruct (int_list d) as [ds|e'|] eqn:Ei; [| | discriminate];
      rewrite step_counted; unfold apply_inputs.
    + split.
      * apply run_bind_raise.
        run_with ltac:(eapply run_lift; eassumption).
        run_with ltac:(eapply run_lift; eassumption).
        apply run_bind_raise. by apply run_lift_raise.
      * pose proof (held_inputs_outcome ds _input_space ∅ ∅) as Ho.
        rewrite H in Ho. destruct Ho as [-> _]. auto.
    + injection H as ->. split.
      * apply run_bind_raise.
        run_with ltac:(eapply run_lift; eassumption).
        apply run_bind_raise. by apply run_lift_raise.
      * apply int_list_raises in Ei. auto.
  - injection H as ->. rewrite step_counted. unfold apply_inputs. split.
    + apply run_bind_raise. apply run_bind_raise. by apply run_lift_raise.
    + apply split_action_raises in Es. tauto.
Qed.

Lemma step_rejects_bad_discrete_action_witness :
  step (PySeq [PySeq [PyNum 3]; PySeq [PyNum 0; PyNum 0]]) (running, lively)
  = (Raise IndexError, (counted running, lively)).
Proof.
  apply (step_rejects_bad_discrete_action
           (PySeq [PySeq [PyNum 3]; PySeq [PyNum 0; PyNum 0]]) running lively IndexError).
  reflexivity.
Defined.

(** X18.  When the discrete part decodes and the continuous part does not
    (an entry that is not a number: TypeError; fewer than two coordinates:
    IndexError), [step] raises after it has sent the held keys and the held
    buttons to the input channel and before it moves the mouse or ticks the
    harness. *)
Theorem step_rejects_bad_continuous_action (action : PyVal) (self : NoitaEnv) (w : World)
  (h : Harness) (ks : gset string) (bs : gset MouseButton) (e : Exn) :
  self_harness self = Some h ->
  discrete_part action = Ret (ks, bs) ->
  continuous_part (self_run_config self) action = Raise e ->
  step action (self, w)
  = (Raise e, (counted self, w_emit (EvSetHeldMouseButtons bs) (w_emit (EvSetHeldKeys ks) w))) /\
  (e = TypeError \/ e = IndexError).
Proof.
  intros Hh Hd Hc. rewrite step_counted.
  destruct (discrete_part_ret _ _ _ Hd) as (d & c & ds & Es & Ei & Eh).
  unfold continuous_part in Hc. rewrite Es in Hc.
  assert (Hh' : self_harness (counted self) = Some h) by exact Hh.
  destruct (number_list c) as [cs|e'|] eqn:En; [| | discriminate]; unfold apply_inputs.
  - split; [| apply mouse_pos_raises in Hc; tauto].
    apply run_bind_raise.
    run_with ltac:(eapply run_lift; eassumption).
    run_with ltac:(eapply run_lift; eassumption).
    run_with ltac:(eapply run_lift; eassumption).
    run_with ltac:(eapply run_keyboard; eassumption).
    run_with ltac:(eapply run_keyboard; eassumption).
    run_with ltac:(eapply run_lift; eassumption).
    run_with ltac:(reflexivity).
    apply run_bind_raise. apply run_lift_raise. exact Hc.
  - injection Hc as ->. split; [| apply number_list_raises in En; tauto].
    apply run_bind_raise.
    run_with ltac:(eapply run_lift; eassumption).
    run_with ltac:(eapply run_lift; eassumption).
    run_with ltac:(eapply run_lift; eassumption).
    run_with ltac:(eapply run_keyboard; eassumption).
    run_with ltac:(eapply run_keyboard; eassumption).
    apply run_bind_raise. by apply run_lift_raise.
Qed.

Lemma step_rejects_bad_continuous_action_witness :
  step (PySeq [PySeq [PyNum 2]; PySeq [PyNum 0]]) (running, lively)
  = (Raise IndexError,
     (counted running,
      w_emit (EvSetHeldMouseButtons ∅) (w_emit (EvSetHeldKeys {["S"]}) lively))).
Proof.
  apply (step_rejects_bad_continuous_action
           (PySeq [PySeq [PyNum 2]; PySeq [PyNum 0]]) running lively
           (mkHarness (fun _ => true) 0) {["S"]} ∅ IndexError).
  - reflexivity.
  - vm_compute. reflexivity.
  - reflexivity.
Defined.

Lemma run_no_harness self w : self_harness self = None ->
  get_harness (self, w) = (Raise AttributeError, (self, w)).
Proof. intros H. unfold get_harness, mbind, M_bind, get_self. simpl. rewrite H. reflexivity. Qed.

(** X19.  [close] cleans the harness up and deletes the attribute; it
    sends nothing to the input channel, so keys held by the last action
    stay held.  On the session it leaves, [close], [pause], [resume] and
    [step] (with an action whose discrete part decodes) raise
    AttributeError and do nothing to the world; [run_info] still
    answers. *)
Theorem close_leaves_no_harness (self : NoitaEnv) (w : World) (h : Harness) :
  self_harness self = Some h ->
  let closed := (set_harness None self, w_emit EvHarnessCleanup w) in
  close (self, w) = (Ret tt, closed) /\
  trace (snd closed) = trace w ++ [EvHarnessCleanup] /\
  close closed = (Raise AttributeError, closed) /\
  pause closed = (Raise AttributeError, closed) /\
  resume closed = (Raise AttributeError, closed) /\
  run_info closed = (Ret (self_ep_step self, self_env_step self), closed) /\
  (forall action ks bs,
     discrete_part action = Ret (ks, bs) ->
     step action closed = (Raise AttributeError, (counted (fst closed), snd closed))).
Proof.
  intros Hh closed. subst closed.
  split; [| split; [| split; [| split; [| split; [| split]]]]]; try reflexivity.
  - unfold close. run_with ltac:(eapply run_harness_cleanup; eassumption). reflexivity.
  - intros action ks bs Hd. rewrite step_counted.
    destruct (discrete_part_ret _ _ _ Hd) as (d & c & ds & Es & Ei & Eh).
    unfold apply_inputs. apply run_bind_raise.
    run_with ltac:(eapply run_lift; eassumption).
    run_with ltac:(eapply run_lift; eassumption).
    run_with ltac:(eapply run_lift; eassumption).
    apply run_bind_raise. unfold set_held_keys. apply run_bind_raise.
    apply run_no_harness. reflexivity.
Qed.

Lemma close_leaves_no_harness_witness :
  close (set_harness None running, w_emit EvHarnessCleanup lively)
  = (Raise AttributeError, (set_harness None running, w_emit EvHarnessCleanup lively)).
Proof.
  exact (proj1 (proj2 (proj2 (close_leaves_no_harness running lively
                                (mkHarness (fun _ => true) 0) eq_refl)))).
Defined.

(** ** What a successful [step] returns *)

Lemma run_emit_all out : forall self w,
  exists w', emit_all out (self, w) = (Ret tt, (self, w')).
Proof.
  induction out as [|e out IH]; intros self w; simpl emit_all.
  - eexists. reflexivity.
  - destruct (IH self (w_emit e w)) as [w' E]. exists w'.
    run_with ltac:(reflexivity). exact E.
Qed.

Lemma run_current_step_dir self w :
  _current_step_dir (self, w)
  = (Ret (fmt_opt (self_out_dir self) ++ "/step_chunk_" ++ str (self_env_step self / 10000))%string,
     (self, w_emit (EvMkdir (fmt_opt (self_out_dir self) ++ "/step_chunk_"
                             ++ str (self_env_step self / 10000))%string) w)).
Proof. reflexivity. Qed.

Lemma run_log_step s self w : exists w', _log_step s (self, w) = (Ret tt, (self, w')).
Proof.
  unfold _log_step.
  run_with ltac:(apply run_current_step_dir).
  run_with ltac:(reflexivity).
  run_with ltac:(reflexivity).
  run_with ltac:(reflexivity).
  run_with ltac:(reflexivity).
  run_with ltac:(reflexivity).
  destruct (_ && _); eexists; reflexivity.
Qed.

Lemma run_reward_update i self w :
  reward_update i (self, w)
  = (Ret (reward_src w (rewarded w) i), (self, w_reward (w_emit (EvRewardUpdate i) w))).
Proof. reflexivity. Qed.

Lemma finish_step_returns info_ self w h :
  self_harness self = Some h ->
  exists w',
    finish_step info_ (self, w)
    = (let '(ws, s, _) :=
         apply_wrappers (self_step_wrappers self)
           (mkStepVal (Some (screen_src w (screens w))) (reward_src w (rewarded w) info_)
                      (negb (is_alive info_)) false info_
                      (self_ep_step self) (self_env_step self)) in
       (Ret (Some (pixels s, reward s, terminated s || truncated s, info s)),
        (set_step_wrappers ws self, w'))).
Proof.
  intros Hh. unfold finish_step.
  run_with ltac:(eapply run_get_screen; eassumption).
  run_with ltac:(apply run_reward_update).
  run_with ltac:(reflexivity).
  cbn [screens screen_src rewarded reward_src w_screen w_emit].
  destruct (apply_wrappers _ _) as [[ws s] out].
  run_with ltac:(reflexivity).
  match goal with
  | |- exists _, _ (?self1, ?w1) = _ =>
      destruct (run_emit_all out self1 w1) as [w2 E2]
  end.
  run_with ltac:(exact E2).
  run_with ltac:(reflexivity).
  run_with ltac:(reflexivity).
  match goal with
  | |- exists _, _ (?self1, ?w1) = _ =>
      destruct (run_log_step s self1 w1) as [w3 E3]
  end.
  run_with ltac:(exact E3).
  exists w3. reflexivity.
Qed.

Lemma wrapper_update_keeps w s :
  info (snd (fst (wrapper_update w s))) = info s /\
  (terminated s = true -> terminated (snd (fst (wrapper_update w s))) = true) /\
  (w = WOverworld -> is_overworld (info s) = true ->
   terminated (snd (fst (wrapper_update w s))) = true).
Proof.
  destruct w as [|p]; simpl.
  - unfold TerminateOnOverworld_update.
    destruct (is_overworld (info s)); simpl; repeat split; auto; discriminate.
  - unfold TerminateOnSparseReward_update.
    destruct (window_is_silent _); simpl; repeat split; auto; discriminate.
Qed.

Lemma chain_keeps_terminated ws : forall s,
  terminated s = true -> terminated (snd (fst (apply_wrappers ws s))) = true.
Proof.
  induction ws as [|w ws IH]; intros s Ht; [exact Ht |].
  simpl. pose proof (wrapper_update_keeps w s) as (_ & K & _).
  destruct (wrapper_update w s) as [[w1 s1] out1]. cbn [fst snd] in K.
  specialize (IH s1 (K Ht)).
  destruct (apply_wrappers ws s1) as [[ws2 s2] out2]. exact IH.
Qed.

Lemma overworld_in_chain ws : forall s,
  In WOverworld ws -> is_overworld (info s) = true ->
  terminated (snd (fst (apply_wrappers ws s))) = true.
Proof.
  induction ws as [|w ws IH]; intros s Hin How; [contradiction |].
  simpl apply_wrappers.
  pose proof (wrapper_update_keeps w s) as (Ki & _ & Ko).
  pose proof (chain_keeps_terminated ws) as Kc.
  destruct (wrapper_update w s) as [[w1 s1] out1]. cbn [fst snd] in Ki, Ko.
  specialize (IH s1). specialize (Kc s1).
  destruct (apply_wrappers ws s1) as [[ws2 s2] out2]. cbn [fst snd] in *.
  destruct Hin as [->|Hin].
  - apply Kc, Ko; auto.
  - apply IH; [exact Hin | rewrite Ki; exact How].
Qed.

Lemma poll_rounds_keep cfg channel n : forall w,
  screens (after_rounds (poll_round cfg channel) n w) = screens w /\
  screen_src (after_rounds (poll_round cfg channel) n w) = screen_src w /\
  rewarded (after_rounds (poll_round cfg channel) n w) = rewarded w /\
  reward_src (after_rounds (poll_round cfg channel) n w) = reward_src w.
Proof.
  induction n as [|n IH]; intros w; [repeat split |].
  simpl after_rounds. destruct (IH (poll_round cfg channel w)) as (H1 & H2 & H3 & H4).
  rewrite H1, H2, H3, H4. repeat split.
Qed.

Lemma continuous_part_ret cfg action d c mx my :
  split_action action = Ret (d, c) ->
  continuous_part cfg action = Ret (mx, my) ->
  exists cs, number_list c = Ret cs /\ mouse_pos cfg cs = Ret (mx, my).
Proof.
  unfold continuous_part. intros ->.
  destruct (number_list c) as [cs|e|]; [| intros; discriminate ..].
  intros H. exists cs. auto.
Qed.

(** X20.  When the poll loop of [step] sees the tick counter move at poll
    [k + 1], [step] returns the screen fetched after the loop, the info of
    that poll, and a reward and a flag [done] that the policy chain has
    derived from the reward function's value and from [not is_alive]: a
    dead player always gives [done]; so does a player in the overworld when
    the chain holds the overworld policy; the reward returned is never above
    the reward function's value and equals it whenever [done] is false;
    with an empty chain [done] is [not is_alive] and the reward is
    untouched. *)
Theorem step_returns_shaped_result (self : NoitaEnv) (w : World) (h : Harness)
  (action : PyVal) (ks : gset string) (bs : gset MouseButton) (mx my : Q) (k : nat) :
  self_harness self = Some h ->
  discrete_part action = Ret (ks, bs) ->
  continuous_part (self_run_config self) action = Ret (mx, my) ->
  ~ (run_rate (self_run_config self) == 0)%Q ->
  (0 <= step_duration (self_run_config self) / run_rate (self_run_config self))%Q ->
  (k < retries)%nat -> stalled w (info_cur w) k ->
  tick (info_src w (polled w + k)%nat) <> tick (info_cur w) ->
  Forall nonneg_penalty (self_step_wrappers self) ->
  exists reward_ done st',
    step action (self, w)
    = (Ret (Some (Some (screen_src w (screens w)), reward_, done,
                  info_src w (polled w + k)%nat)), st') /\
    (is_alive (info_src w (polled w + k)%nat) = false -> done = true) /\
    (In WOverworld (self_step_wrappers self) ->
     is_overworld (info_src w (polled w + k)%nat) = true -> done = true) /\
    (reward_ <= reward_src w (rewarded w) (info_src w (polled w + k)%nat))%Q /\
    (done = false ->
     reward_ = reward_src w (rewarded w) (info_src w (polled w + k)%nat)) /\
    (self_step_wrappers self = [] ->
     done = negb (is_alive (info_src w (polled w + k)%nat)) /\
     reward_ = reward_src w (rewarded w) (info_src w (polled w + k)%nat)).
Proof.
  intros Hh Hd Hc Hrate Hdur Hk Hstall Hadv Hpen.
  destruct (discrete_part_ret _ _ _ Hd) as (d & c & ds & Es & Ei & Eh).
  destruct (continuous_part_ret _ _ _ _ _ _ Es Hc) as (cs & En & Em).
  rewrite (step_advance_run self w h action d c ds ks bs cs mx my
             Hh Es Ei Eh En Em Hrate Hdur k Hk Hstall Hadv).
  destruct (poll_rounds_keep (self_run_config self) (str (self_instance self)) (S k)
              (before_polling ks bs mx my w)) as (K1 & K2 & K3 & K4).
  revert K1 K2 K3 K4.
  generalize (after_rounds (poll_round (self_run_config self) (str (self_instance self)))
                           (S k) (before_polling ks bs mx my w)).
  intros w1 K1 K2 K3 K4. change (screens (before_polling ks bs mx my w)) with (screens w) in K1.
  change (screen_src (before_polling ks bs mx my w)) with (screen_src w) in K2.
  change (rewarded (before_polling ks bs mx my w)) with (rewarded w) in K3.
  change (reward_src (before_polling ks bs mx my w)) with (reward_src w) in K4.
  destruct (finish_step_returns (info_src w (polled w + k)%nat) (stepping h self) w1
              (ticked 1 h) eq_refl) as [w' E].
  rewrite E, K1, K2, K3, K4.
  change (self_step_wrappers (stepping h self)) with (self_step_wrappers self).
  set (raw := mkStepVal _ _ _ _ _ _ _).
  pose proof (chain_strengthens (self_step_wrappers self) raw Hpen)
    as (A1 & A2 & A3 & A4 & A5 & A6 & _).
  pose proof (overworld_in_chain (self_step_wrappers self) raw) as Ho.
  assert (Hnil : self_step_wrappers self = [] ->
                 snd (fst (apply_wrappers (self_step_wrappers self) raw)) = raw)
    by (intros ->; reflexivity).
  destruct (apply_wrappers (self_step_wrappers self) raw) as [[ws s] out].
  cbn [fst snd] in *.
  exists (reward s), (terminated s || truncated s). eexists.
  rewrite A4, A6, A5, orb_false_r. subst raw. cbn [pixels info reward terminated] in *.
  split; [reflexivity |].
  split; [intros Ha; apply A1; rewrite Ha; reflexivity |].
  split; [exact Ho |].
  split; [exact A2 |].
  split; [exact A3 |].
  intros Hw. rewrite (Hnil Hw). split; reflexivity.
Qed.

(** ** How a reset begins, and what an exhausted one leaves *)

Lemma bind_run_eq {A B : Type} (m m2 : M A) (f : A -> M B) st st1 :
  m st = m2 st1 -> (m ≫= f) st = (m2 ≫= f) st1.
Proof. intros H. unfold mbind, M_bind. rewrite H. reflexivity. Qed.

Lemma bind_reaches (J : Sigma -> Prop) {A B : Type} (m : M A) (f : A -> M B) st :
  J (snd (m st)) -> (forall a, stable J (f a)) -> J (snd ((m ≫= f) st)).
Proof.
  intros Hm Hf. unfold mbind, M_bind.
  destruct (m st) as [[a|e|] st']; simpl in *; auto. by apply Hf.
Qed.

Lemma reset_env_begins b self w :
  (trace w ++ [EvSetSpeedup 1 (str (self_instance self))] ++ attempt_events self)
  `prefix_of` trace (snd (snd (_reset_env b (self, w)))).
Proof.
  rewrite run_reset_env.
  change (reset_attempts 3 b)
    with (did_reset ← _try_reset_env b;
          if (did_reset : bool) then pure tt
          else print "WARNING: Failed to reset NoitaEnv. Retrying...";;
               reset_attempts 2 b).
  erewrite bind_run_eq by apply try_reset_env_until_wait.
  pose proof (grown_reset_attempts (self_env_step self)
                (trace w ++ [EvSetSpeedup 1 (str (self_instance self))] ++ attempt_events self)
                2 b) as Hr.
  match goal with
  | |- ?l `prefix_of` trace (snd (snd (?m ?st))) =>
      assert (Hst : stable (grown (self_env_step self) l) m)
        by (unfold grown in *; stab; auto);
      apply (Hst st)
  end.
  split; [cbn [fst]; simpl; lia |]. cbn [snd].
  destruct (attempt_world_facts self (w_emit (EvSetSpeedup 1 (str (self_instance self))) w))
    as (_ & _ & Ht).
  rewrite Ht, trace_emit, <- app_assoc. reflexivity.
Qed.

(** X21.  Every [reset] begins in the same way, whatever follows: the
    speed is set to 1, the directory of the next episode is made, the keys
    are released and the old harness is cleaned up (0.1 s and 1 s of
    waiting) when there is one, the seed passed to [reset] is written
    ([None] when the caller gave none: the seed of the constructor is not
    used again), and a new harness is launched. *)
Theorem reset_begins_with_teardown (seed : option Z) (self : NoitaEnv) (w : World) :
  (trace w
   ++ [EvSetSpeedup 1 (str (self_instance self)); EvMkdir (attempt_dir self)]
   ++ teardown_events self
   ++ [EvSetUpMagicNumbers seed; EvHarnessLaunch (self_instance self)])
  `prefix_of` trace (snd (snd (reset seed (self, w)))).
Proof.
  unfold reset. run_with ltac:(reflexivity).
  pose proof (reset_env_begins false (set_seed seed self) w) as Hb.
  change (trace w ++ [EvSetSpeedup 1 (str (self_instance self)); EvMkdir (attempt_dir self)]
          ++ teardown_events self
          ++ [EvSetUpMagicNumbers seed; EvHarnessLaunch (self_instance self)])
    with (trace w ++ [EvSetSpeedup 1 (str (self_instance (set_seed seed self)))]
          ++ attempt_events (set_seed seed self)).
  apply (bind_reaches
           (grown (self_env_step self)
              (trace w ++ [EvSetSpeedup 1 (str (self_instance (set_seed seed self)))]
               ++ attempt_events (set_seed seed self)))).
  - split; [| exact Hb].
    apply (grown_reset_env (self_env_step self) [] false (set_seed seed self, w)).
    split; [simpl; lia | apply prefix_nil].
  - intros []. unfold grown. stab.
Qed.

(** X22.  The constructor starts episode 1: it draws a random seed when
    it is given none or 0, and says so; then, with no harness to tear
    down, it sets the speed to 1, makes the directory [<out_dir>/steps/ep_1]
    (under "None" when no [out_dir] is given), writes the seed and launches
    the first harness. *)
Theorem init_starts_first_episode (seed : option Z) (out_dir : option string)
  (step_wrappers : option (list StepWrapper)) (skip_startup : bool)
  (x_pos y_pos instance : Z) (run_config : option RunConfig) (random_bits : Z) (w : World) :
  let no_seed := match seed with None => true | Some s => s =? 0 end in
  let seed' := match seed with
               | None => random_bits
               | Some s => if s =? 0 then random_bits else s
               end in
  (trace w
   ++ (if no_seed then [EvPrint ("Noita env using random seed:  " ++ str random_bits)] else [])
   ++ [ EvSetSpeedup 1 (str instance);
        EvMkdir (fmt_opt out_dir ++ "/steps/ep_1");
        EvSetUpMagicNumbers (Some seed');
        EvHarnessLaunch instance ])
  `prefix_of`
  trace (snd (snd (NoitaEnv_init seed out_dir step_wrappers skip_startup x_pos y_pos
                                 instance run_config random_bits w))).
Proof.
  intros no_seed seed'. subst no_seed seed'. unfold NoitaEnv_init.
  match goal with
  | |- _ `prefix_of` trace (snd (snd (_reset_env _ (?s, ?w0)))) =>
      pose proof (reset_env_begins skip_startup s w0) as Hb; revert Hb;
      generalize (trace (snd (snd (_reset_env skip_startup (s, w0)))))
  end.
  intros T Hb.
  destruct seed as [s|]; [destruct (s =? 0) |]; simpl in Hb |- *;
    rewrite <- ?app_assoc in *; exact Hb.
Qed.

(** X23.  A reset that gives up has used three episode numbers, one per
    attempt, and leaves a session without a harness, in state UNKNOWN, with
    the episode-step counter at 0 and the env-step counter as it was;
    [close] on that session raises AttributeError. *)
Theorem exhausted_reset_leaves_no_harness (b : bool) (self : NoitaEnv) (w : World) :
  (forall i, (i < 3)%nat -> launch_fails w i) ->
  let st' := snd (_reset_env b (self, w)) in
  self_ep_num (fst st') = self_ep_num self + 3 /\
  self_env_step (fst st') = self_env_step self /\
  self_harness (fst st') = None /\
  self_ep_step (fst st') = 0 /\
  self_state (fst st') = Some UNKNOWN /\
  close st' = (Raise AttributeError, st').
Proof.
  intros Hf st'. subst st'. rewrite run_reset_env.
  destruct (reset_attempts_fail 3 b
              (self, w_emit (EvSetSpeedup 1 (str (self_instance self))) w)
              (fun i Hi => Hf i Hi))
    as ([self' w'] & E & H1 & H2 & _ & H3).
  destruct (H3 ltac:(lia)) as (H4 & H5 & H6).
  rewrite E. cbn [fst snd] in *.
  repeat split; auto.
  unfold close. apply run_bind_raise. unfold harness_cleanup. apply run_bind_raise.
  by apply run_no_harness.
Qed.

Lemma exhausted_reset_leaves_no_harness_witness :
  self_ep_num (fst (snd (_reset_env false (blank, unresponsive)))) = self_ep_num blank + 3.
Proof.
  apply (exhausted_reset_leaves_no_harness false blank unresponsive).
  intros i _ j _. reflexivity.
Defined.

Lemma step_returns_shaped_result_witness :
  exists reward_ done st',
    step (PySeq [PySeq (replicate 7 (PyNum 0)); PySeq [PyNum 0; PyNum 0]]) (running, lively)
    = (Ret (Some (Some (screen_src lively (screens lively)), reward_, done,
                  info_src lively (polled lively + 0)%nat)), st').
Proof.
  destruct (step_returns_shaped_result running lively (mkHarness (fun _ => true) 0)
              (PySeq [PySeq (replicate 7 (PyNum 0)); PySeq [PyNum 0; PyNum 0]])
              ∅ ∅ (device_coordinate _default_run_config 0 640)
              (device_coordinate _default_run_config 0 360) 0)
    as (r & d & st' & E & _).
  - reflexivity.
  - vm_compute. reflexivity.
  - reflexivity.
  - vm_compute. discriminate.
  - apply Qle_bool_iff. reflexivity.
  - unfold retries. lia.
  - intros j Hj. lia.
  - vm_compute. discriminate.
  - repeat constructor. simpl. discriminate.
  - exists r, d, st'. exact E.
Defined.

(** ** Where the mouse lands *)

Lemma scaled_on_screen (t r : Q) :
  (0 < r)%Q -> (-1 <= t /\ t <= 1)%Q -> (0 <= (t + 1) / 2 * r /\ (t + 1) / 2 * r <= r)%Q.
Proof.
  intros Hr [H1 H2]. set (u := ((t + 1) / 2)%Q).
  assert (Hu : (0 <= u /\ u <= 1)%Q).
  { subst u. unfold Qdiv. change (/ 2)%Q with (1 # 2)%Q. split; lra. }
  destruct Hu as [Hu0 Hu1]. split.
  - apply Qmult_le_0_compat; [exact Hu0 | by apply Qlt_le_weak].
  - rewrite <- (Qmult_1_l r) at 2. apply Qmult_le_compat_r; [exact Hu1 | by apply Qlt_le_weak].
Qed.

(** X24.  When the coordinate of the action, multiplied by
    [scale_mouse_coords], lies in [-1, 1], the position [step] moves the
    mouse to lies on the screen (between 0 and the resolution); in the
    older environment, which does not scale, when the coordinate itself
    lies in [-1, 1].  Every operation involved is monotone, so rounding
    does not disturb the bounds. *)
Theorem mouse_on_screen (cfg : RunConfig) (cx cy : Q) :
  (0 < x_res cfg)%Q -> (0 < y_res cfg)%Q ->
  exists mx my lx ly,
    mouse_pos cfg [cx; cy] = Ret (mx, my) /\
    Legacy.mouse_pos (x_res cfg) (y_res cfg) [cx; cy] = Ret (lx, ly) /\
    ((-1 <= cx * scale_mouse_coords cfg /\ cx * scale_mouse_coords cfg <= 1)
     -> (0 <= mx /\ mx <= x_res cfg))%Q /\
    ((-1 <= cy * scale_mouse_coords cfg /\ cy * scale_mouse_coords cfg <= 1)
     -> (0 <= my /\ my <= y_res cfg))%Q /\
    ((-1 <= cx /\ cx <= 1) -> (0 <= lx /\ lx <= x_res cfg))%Q /\
    ((-1 <= cy /\ cy <= 1) -> (0 <= ly /\ ly <= y_res cfg))%Q.
Proof.
  intros Hx Hy.
  exists ((cx * scale_mouse_coords cfg + 1) / 2 * x_res cfg)%Q,
         ((cy * scale_mouse_coords cfg + 1) / 2 * y_res cfg)%Q,
         ((cx + 1) / 2 * x_res cfg)%Q, ((cy + 1) / 2 * y_res cfg)%Q.
  split; [reflexivity |]. split; [reflexivity |].
  split; [by apply scaled_on_screen |]. split; [by apply scaled_on_screen |].
  split; by apply scaled_on_screen.
Qed.

Lemma mouse_on_screen_witness :
  (0 < x_res _default_run_config)%Q /\ (0 < y_res _default_run_config)%Q /\
  exists mx my,
    mouse_pos _default_run_config [1 # 3; 0]%Q = Ret (mx, my) /\
    (0 <= mx /\ mx <= 640)%Q /\ (0 <= my /\ my <= 360)%Q.
Proof.
  split; [reflexivity |]. split; [reflexivity |].
  destruct (mouse_on_screen _default_run_config (1 # 3)%Q 0%Q eq_refl eq_refl)
    as (mx & my & lx & ly & E & _ & Hmx & Hmy & _).
  exists mx, my. split; [exact E |]. split.
  - apply Hmx. split; vm_compute; discriminate.
  - apply Hmy. split; vm_compute; discriminate.
Defined.

(** ** A speed-up that does not fit *)

Lemma write_speedup_always path speedup (fs : gmap string (list Byte.byte)) :
  TimeWriter.write_speedup path speedup fs
  = (Ret tt, <[path := TimeWriter.le_bytes4
                         (TimeWriter.bits_of_binary32 (TimeWriter.to_binary32 speedup))]> fs).
Proof. unfold TimeWriter.write_speedup, TimeWriter.pack_f. by rewrite insert_insert_eq. Qed.

(** X25.  [struct.pack("f", speedup)] never fails on a float, so
    [SetSpeedup] always returns and leaves exactly four bytes in the
    artifact.  A finite value too large for binary32 is not refused: it is
    written as an infinity, 00 00 80 7f (or 00 00 80 ff when negative); so
    2^128 is, over whatever the artifact held. *)
Theorem oversized_speedup_is_written_as_infinity (path : string) (speedup : spec_float)
  (fs : gmap string (list Byte.byte)) :
  exists bs,
    TimeWriter.pack_f speedup = Ret bs /\ length bs = 4%nat /\
    TimeWriter.write_speedup path speedup fs = (Ret tt, <[path := bs]> fs) /\
    snd (TimeWriter.write_speedup path speedup fs) !! path = Some bs /\
    (forall s, TimeWriter.to_binary32 speedup = S754_infinity s ->
               bs = [Byte.x00; Byte.x00; Byte.x80; if s then Byte.xff else Byte.x7f]) /\
    TimeWriter.to_binary32 (S754_finite false 1 128) = S754_infinity false /\
    TimeWriter.pack_f (S754_finite false 1 128)
    = Ret [Byte.x00; Byte.x00; Byte.x80; Byte.x7f] /\
    TimeWriter.SetSpeedup1 (S754_finite false 1 128)
      {["/tmp/time_control" := [Byte.x00; Byte.x00; Byte.x20; Byte.x40]]}
    = (Ret tt, {["/tmp/time_control" := [Byte.x00; Byte.x00; Byte.x80; Byte.x7f]]}).
Proof.
  pose proof (write_speedup_always path speedup fs) as E.
  exists (TimeWriter.le_bytes4 (TimeWriter.bits_of_binary32 (TimeWriter.to_binary32 speedup))).
  split; [reflexivity |]. split; [reflexivity |].
  split; [exact E |].
  split; [rewrite E; cbn [snd]; apply lookup_insert_eq |].
  split; [intros s ->; destruct s; vm_compute; reflexivity |].
  split; [vm_compute; reflexivity |].
  split; [vm_compute; reflexivity |].
  unfold TimeWriter.SetSpeedup1. rewrite write_speedup_always, insert_singleton_eq.
  vm_compute. reflexivity.
Qed.
